(** * Coupling a grid simulation with an agent population

    A shallow embedding of the two workshop notebooks:
    - the groundwater notebook (Landlab's GroundwaterDupuitPercolator coupled
      with a Mesa model of farmers who pump wells), and
    - the wolf-sheep-grass notebook (Mesa's WolfSheep model coupled with
      Landlab's LinearDiffuser).

    Python floats are IEEE binary64 numbers and are modelled by the primitive
    floats of the kernel.  Python objects that are shared (an agent is
    referenced by the scheduler and by a grid cell) live in a store and are
    named by references.  A computation is a function from the state to the
    list of events it emits and an outcome that is either a value or a raised
    exception, both with the state reached.  The diagnostic [print] calls and
    the plotting calls of the notebooks are not modelled. *)

From Stdlib Require Import ZArith List Lia Floats Uint63 Bool String.
From stdpp Require Import base list.

Local Open Scope Z_scope.

(** ** Exceptions, results and computations *)

Inductive exn :=
| IndexError
| ValueError
| TypeError
| AttributeError
| OverflowError
| ZeroDivisionError
| LibraryError (name : string).

Inductive result (A : Type) :=
| Ok (a : A)
| Raise (e : exn).
Arguments Ok {A} a.
Arguments Raise {A} e.

#[global] Instance result_ret : MRet result := fun A a => Ok a.
#[global] Instance result_bind : MBind result :=
  fun A B f m => match m with Ok a => f a | Raise e => Raise e end.

(** What the coupling exchanges with its two collaborators, in the order of
    execution.  [ev_iteration i] is the binding of the loop variable. *)
Inductive event :=
| ev_iteration (i : Z)
| ev_run_for_one_year
| ev_run_one_step (dt : float)
| ev_derive_field
| ev_observe
| ev_schedule_step
| ev_aggregate
| ev_write_forcing
| ev_save_prior.

Inductive outcome (S A : Type) :=
| Returns (a : A) (s : S)
| Raises (e : exn) (s : S).
Arguments Returns {S A} a s.
Arguments Raises {S A} e s.

Definition prog (S A : Type) : Type := S -> list event * outcome S A.

#[global] Instance prog_ret {S} : MRet (prog S) := fun A a s => ([], Returns a s).
#[global] Instance prog_bind {S} : MBind (prog S) :=
  fun A B f m s =>
    match m s with
    | (t, Returns a s') => let '(t', o) := f a s' in (t ++ t', o)
    | (t, Raises e s') => (t, Raises e s')
    end.

Definition get {S} : prog S S := fun s => ([], Returns s s).
Definition put {S} (s : S) : prog S unit := fun _ => ([], Returns tt s).
Definition raise {S A} (e : exn) : prog S A := fun s => ([], Raises e s).
Definition emit {S} (ev : event) : prog S unit := fun s => ([ev], Returns tt s).

Definition lift {S A} (r : result A) : prog S A :=
  fun s => match r with Ok a => ([], Returns a s) | Raise e => ([], Raises e s) end.

(** A call into a collaborator, which returns or raises. *)
Definition call {S A} (f : S -> outcome S A) : prog S A := fun s => ([], f s).

(** Run a computation on a component of the state. *)
Definition zoom {S T A} (proj : S -> T) (upd : T -> S -> S) (m : prog T A) : prog S A :=
  fun s =>
    match m (proj s) with
    | (t, Returns a x) => (t, Returns a (upd x s))
    | (t, Raises e x) => (t, Raises e (upd x s))
    end.

(** [for x in l: body x] *)
Fixpoint for_each {S A} (l : list A) (body : A -> prog S unit) : prog S unit :=
  match l with
  | [] => mret tt
  | x :: l' => body x;; for_each l' body
  end.

(** [for x in l: acc = body x acc], for a loop that updates local variables. *)
Fixpoint for_fold {S A B} (l : list A) (body : A -> B -> prog S B) (acc : B) : prog S B :=
  match l with
  | [] => mret acc
  | x :: l' => acc' ← body x acc; for_fold l' body acc'
  end.

(** ** Python and numpy helpers *)

(** [range(n)] *)
Definition range (n : Z) : list Z := Z.of_nat <$> seq 0 (Z.to_nat n).

(** The position a subscript [i] denotes in a sequence of length [len]:
    negative subscripts count from the end. *)
Definition norm_index (len i : Z) : result Z :=
  if (0 <=? i) && (i <? len) then Ok i
  else if (- len <=? i) && (i <? 0) then Ok (i + len)
  else Raise IndexError.

(** [l[i]] *)
Definition py_getitem {A} (l : list A) (i : Z) : result A :=
  j ← norm_index (Z.of_nat (length l)) i;
  match l !! Z.to_nat j with
  | Some a => Ok a
  | None => Raise IndexError
  end.

(** [l[i] = v] *)
Definition py_setitem {A} (l : list A) (i : Z) (v : A) : result (list A) :=
  j ← norm_index (Z.of_nat (length l)) i;
  Ok (<[Z.to_nat j := v]> l).

(** A numpy array: its shape and its elements in row-major order. *)
Record ndarray (A : Type) := NDArray { shape : list Z; data : list A }.
Arguments NDArray {A} shape data.
Arguments shape {A} n.
Arguments data {A} n.

Definition np_size {A} (a : ndarray A) : Z := Z.of_nat (length (data a)).

Definition shape_size (sh : list Z) : Z := fold_right Z.mul 1 sh.

Definition valid_ndarray {A} (a : ndarray A) : Prop :=
  Forall (fun d => 0 <= d) (shape a) /\ np_size a = shape_size (shape a).

(** [np.zeros((d0, d1))] *)
Definition np_zeros2 {A} (zero : A) (d0 d1 : Z) : result (ndarray A) :=
  if (d0 <? 0) || (d1 <? 0) then Raise ValueError
  else Ok (NDArray [d0; d1] (replicate (Z.to_nat (d0 * d1)) zero)).

(** [a.reshape((d0, d1))]: the elements are kept; one dimension may be
    given as -1 and is then inferred from the size. *)
Definition np_reshape2 {A} (a : ndarray A) (d0 d1 : Z) : result (ndarray A) :=
  let n := np_size a in
  if (d0 <? -1) || (d1 <? -1) then Raise ValueError
  else if (d0 =? -1) && (d1 =? -1) then Raise ValueError
  else if d0 =? -1 then
    if (0 <? d1) && (n mod d1 =? 0) then Ok (NDArray [n / d1; d1] (data a))
    else Raise ValueError
  else if d1 =? -1 then
    if (0 <? d0) && (n mod d0 =? 0) then Ok (NDArray [d0; n / d0] (data a))
    else Raise ValueError
  else if d0 * d1 =? n then Ok (NDArray [d0; d1] (data a))
  else Raise ValueError.

(** The flat position of [a[x, y]] (also of [a[x][y]]) in a 2-D array. *)
Definition np_offset2 {A} (a : ndarray A) (x y : Z) : result Z :=
  match shape a with
  | [d0; d1] =>
      i ← norm_index d0 x;
      j ← norm_index d1 y;
      Ok (i * d1 + j)
  | _ => Raise IndexError
  end.

(** [a[x, y]] *)
Definition np_getitem2 {A} (a : ndarray A) (x y : Z) : result A :=
  k ← np_offset2 a x y;
  match data a !! Z.to_nat k with
  | Some v => Ok v
  | None => Raise IndexError
  end.

(** [a[x][y] = v] *)
Definition np_setitem2 {A} (a : ndarray A) (x y : Z) (v : A) : result (ndarray A) :=
  k ← np_offset2 a x y;
  Ok (NDArray (shape a) (<[Z.to_nat k := v]> (data a))).

(** [a.flatten()] *)
Definition np_flatten {A} (a : ndarray A) : list A := data a.

(** [x >= y] on floats; false when either is not a number. *)
Definition geb (x y : float) : bool := (y <=? x)%float.
Arguments geb : simpl never.

(** [random.randrange(n)]: any value of [range(n)], here the one picked by
    the raw draw [raw]; an empty range is an error. *)
Definition randrange (n raw : Z) : result Z :=
  if n <=? 0 then Raise ValueError else Ok (raw mod n).

(** The random number generator of a Mesa model: a stream of raw draws and
    the number of draws consumed so far. *)
Record Random := { draws : nat -> Z; cursor : nat }.

Definition next_draw (r : Random) : Z * Random :=
  (draws r (cursor r), {| draws := draws r; cursor := S (cursor r) |}).

(** ** The agent population of the groundwater notebook *)

(** Identity of an agent object in the store. *)
Abbreviation ref := nat (only parsing).

Record FarmerAgent := {
  unique_id : Z;
  pos : option (Z * Z);
  pumping : bool;
  well_depth : float
}.

(** Mesa's [MultiGrid]: [cells] is the list of columns, [cells[x][y]] the
    agents of the cell (x, y).  The dimensions count cells.
    [coord_iter] yields the content of every cell with its coordinates,
    column by column: [coords] is the order of the visits and [cell_at] the
    content it yields at one of them. *)
Module Mesa.

Record MultiGrid := {
  width : nat;
  height : nat;
  torus : bool;
  cells : list (list (list ref))
}.

Definition MultiGrid_init (w h : nat) (t : bool) : MultiGrid :=
  {| width := w; height := h; torus := t; cells := replicate w (replicate h []) |}.

Definition coords (g : MultiGrid) : list (Z * Z) :=
  x ← range (Z.of_nat (width g)); y ← range (Z.of_nat (height g)); [(x, y)].

Definition cell_at (g : MultiGrid) (xy : Z * Z) : result (list ref) :=
  col ← py_getitem (cells g) (fst xy);
  py_getitem col (snd xy).

End Mesa.

Record FarmerModel := {
  num_agents : Z;
  grid : Mesa.MultiGrid;
  depth_to_water_table : ndarray float;
  schedule : list ref;
  random : Random;
  wt_depth_2d : option (ndarray float);
  agents : list FarmerAgent
}.

Definition set_agents (f : list FarmerAgent -> list FarmerAgent) (m : FarmerModel) : FarmerModel :=
  {| num_agents := num_agents m; grid := grid m;
     depth_to_water_table := depth_to_water_table m; schedule := schedule m;
     random := random m; wt_depth_2d := wt_depth_2d m; agents := f (agents m) |}.

Definition set_cells (c : list (list (list ref))) (m : FarmerModel) : FarmerModel :=
  {| num_agents := num_agents m;
     grid := {| Mesa.width := Mesa.width (grid m); Mesa.height := Mesa.height (grid m);
                Mesa.torus := Mesa.torus (grid m); Mesa.cells := c |};
     depth_to_water_table := depth_to_water_table m; schedule := schedule m;
     random := random m; wt_depth_2d := wt_depth_2d m; agents := agents m |}.

Definition set_schedule (l : list ref) (m : FarmerModel) : FarmerModel :=
  {| num_agents := num_agents m; grid := grid m;
     depth_to_water_table := depth_to_water_table m; schedule := l;
     random := random m; wt_depth_2d := wt_depth_2d m; agents := agents m |}.

Definition set_random (r : Random) (m : FarmerModel) : FarmerModel :=
  {| num_agents := num_agents m; grid := grid m;
     depth_to_water_table := depth_to_water_table m; schedule := schedule m;
     random := r; wt_depth_2d := wt_depth_2d m; agents := agents m |}.

Definition set_wt_depth_2d (a : ndarray float) (m : FarmerModel) : FarmerModel :=
  {| num_agents := num_agents m; grid := grid m;
     depth_to_water_table := depth_to_water_table m; schedule := schedule m;
     random := random m; wt_depth_2d := Some a; agents := agents m |}.

Definition set_depth_to_water_table (a : ndarray float) (m : FarmerModel) : FarmerModel :=
  {| num_agents := num_agents m; grid := grid m;
     depth_to_water_table := a; schedule := schedule m;
     random := random m; wt_depth_2d := wt_depth_2d m; agents := agents m |}.

(** The object a reference names. *)
Definition deref (r : ref) : prog FarmerModel FarmerAgent :=
  m ← get;
  match agents m !! r with
  | Some a => mret a
  | None => raise AttributeError
  end.

Definition set_pumping (b : bool) (a : FarmerAgent) : FarmerAgent :=
  {| unique_id := unique_id a; pos := pos a; pumping := b; well_depth := well_depth a |}.

Definition set_pos (p : Z * Z) (a : FarmerAgent) : FarmerAgent :=
  {| unique_id := unique_id a; pos := Some p; pumping := pumping a; well_depth := well_depth a |}.

(** [FarmerAgent.step]: the well is dry when the depth to the water table
    at the agent's cell has reached the depth of the well. *)
Definition FarmerAgent_step (self : ref) : prog FarmerModel unit :=
  a ← deref self;
  '(x, y) ← (match pos a with Some p => mret p | None => raise TypeError end);
  m ← get;
  wt2d ← (match wt_depth_2d m with Some w => mret w | None => raise AttributeError end);
  d ← lift (np_getitem2 wt2d x y);
  if geb d (well_depth a)
  then put (set_agents (alter (set_pumping false) self) m)
  else put (set_agents (alter (set_pumping true) self) m).

(** [RandomActivation.add] *)
Definition schedule_add (a : ref) : prog FarmerModel unit :=
  m ← get; put (set_schedule (schedule m ++ [a]) m).

(** [RandomActivation.step]: every agent of the schedule is activated once,
    in the order [order] that the shuffle of the scheduler produced.  The
    counters [steps] and [time] of the scheduler, which the notebook never
    reads, are left out, and so are the draws that the shuffle takes from the
    generator of the model: [order] stands for its outcome, and [random] is
    not advanced.  Statements about a step therefore speak of the agents, the
    grid and the fields, never of [random]. *)
Definition schedule_step (order : list ref) : prog FarmerModel unit :=
  emit ev_schedule_step;;
  for_each order FarmerAgent_step.

(** [MultiGrid.place_agent] *)
Definition place_agent (a : ref) (p : Z * Z) : prog FarmerModel unit :=
  m ← get;
  col ← lift (py_getitem (Mesa.cells (grid m)) (fst p));
  cell ← lift (py_getitem col (snd p));
  col' ← lift (py_setitem col (snd p) (cell ++ [a]));
  cells' ← lift (py_setitem (Mesa.cells (grid m)) (fst p) col');
  put (set_agents (alter (set_pos p) a) (set_cells cells' m)).

(** [self.random.randrange(n)] *)
Definition model_randrange (n : Z) : prog FarmerModel Z :=
  m ← get;
  let '(raw, r) := next_draw (random m) in
  put (set_random r m);;
  lift (randrange n raw).

(** The body of the loop that creates the agents in [FarmerModel.__init__]. *)
Definition create_agent (wd : float) (i : Z) : prog FarmerModel unit :=
  m ← get;
  let a := length (agents m) in
  put (set_agents (fun l => l ++ [{| unique_id := i; pos := None; pumping := true;
                                      well_depth := wd |}]) m);;
  schedule_add a;;
  m ← get;
  x0 ← model_randrange (Z.of_nat (Mesa.width (grid m)) - 2);
  let x := x0 + 1 in
  m ← get;
  y0 ← model_randrange (Z.of_nat (Mesa.width (grid m)) - 2);
  let y := y0 + 1 in
  place_agent a (x, y).

(** [FarmerModel.__init__], run on the object under construction. *)
Definition FarmerModel_new (rng : Random) (N : Z) (w h : nat) (d : ndarray float) : FarmerModel :=
  {| num_agents := N; grid := Mesa.MultiGrid_init w h true; depth_to_water_table := d;
     schedule := []; random := rng; wt_depth_2d := None; agents := [] |}.

Definition FarmerModel_init (rng : Random) (N : Z) (w h : nat) (wd : float)
    (d : ndarray float) : list event * outcome FarmerModel unit :=
  for_each (range N) (create_agent wd) (FarmerModel_new rng N w h d).

(** [FarmerModel.step] *)
Definition FarmerModel_step (order : list ref) : prog FarmerModel unit :=
  m ← get;
  emit ev_observe;;
  a ← lift (np_reshape2 (depth_to_water_table m)
              (Z.of_nat (Mesa.width (grid m))) (Z.of_nat (Mesa.height (grid m))));
  put (set_wt_depth_2d a m);;
  schedule_step order.

(** [get_well_count]; [nr] and [nc] are the globals of the notebook (the
    numbers of node rows and node columns of the simulation grid). *)
Definition count_pumping (xy : Z * Z) (agent : ref) (pumping_well_count : ndarray Z)
    : prog FarmerModel (ndarray Z) :=
  a ← deref agent;
  if pumping a then
    v ← lift (np_getitem2 pumping_well_count (fst xy) (snd xy));
    lift (np_setitem2 pumping_well_count (fst xy) (snd xy) (v + 1))
  else mret pumping_well_count.

Definition count_cell (xy : Z * Z) (counts : ndarray Z * ndarray Z)
    : prog FarmerModel (ndarray Z * ndarray Z) :=
  m ← get;
  cell_content ← lift (Mesa.cell_at (grid m) xy);
  well_count ← lift (np_setitem2 (fst counts) (fst xy) (snd xy)
                       (Z.of_nat (length cell_content)));
  pumping_well_count ← for_fold cell_content (count_pumping xy) (snd counts);
  mret (well_count, pumping_well_count).

Definition get_well_count (nr nc : Z) : prog FarmerModel (ndarray Z * ndarray Z) :=
  emit ev_aggregate;;
  well_count ← lift (np_zeros2 0 nr nc);
  pumping_well_count ← lift (np_zeros2 0 nr nc);
  m ← get;
  for_fold (Mesa.coords (grid m)) count_cell (well_count, pumping_well_count).

(** ** More of Python and numpy *)

(** [int(x)] for a float [x]: truncation towards zero. *)
Definition python_int (x : float) : result Z :=
  match Prim2SF x with
  | S754_nan => Raise ValueError
  | S754_infinity _ => Raise OverflowError
  | S754_zero _ => Ok 0
  | S754_finite s m e =>
      let v := if 0 <=? e then Z.pos m * 2 ^ e else Z.pos m / 2 ^ (- e) in
      Ok (if s then - v else v)
  end.

(** [x / y] for Python floats. *)
Definition py_div (x y : float) : result float :=
  if PrimFloat.is_zero y then Raise ZeroDivisionError else Ok (x / y)%float.

(** The float of a numpy integer; exact for the counts of this program,
    which stay far below 2^53. *)
Definition float_of_Z (z : Z) : float :=
  if 0 <=? z then of_uint63 (Uint63.of_Z z)
  else (- of_uint63 (Uint63.of_Z (- z)))%float.

(** A 1-D array stretched to [n] elements by numpy's broadcasting. *)
Definition np_broadcast {A} (n : nat) (v : list A) : result (list A) :=
  if decide (length v = n) then Ok v
  else match v with
       | [x] => Ok (replicate n x)
       | _ => Raise ValueError
       end.

(** [a op b] on 1-D arrays. *)
Definition np_binop (f : float -> float -> float) (a b : list float) : result (list float) :=
  let n := if decide (length a = 1%nat) then length b else length a in
  a' ← np_broadcast n a;
  b' ← np_broadcast n b;
  Ok (zip_with f a' b').

(** [t[:] = v] *)
Definition np_assign {A} (t v : list A) : result (list A) :=
  np_broadcast (length t) v.

(** [t op= v] *)
Definition np_inplace (f : float -> float -> float) (t v : list float) : result (list float) :=
  v' ← np_broadcast (length t) v;
  Ok (zip_with f t v').

(** [t[mask] = x] for a boolean mask. *)
Definition np_mask_assign {A} (t : list A) (mask : list bool) (x : A) : result (list A) :=
  if decide (length mask = length t)
  then Ok (zip_with (fun v (b : bool) => if b then x else v) t mask)
  else Raise IndexError.

(** [np.amax(a)] *)
Definition np_amax (a : list float) : result float :=
  match a with
  | [] => Raise ValueError
  | x :: a' =>
      Ok (fold_left (fun acc y => if is_nan acc then acc
                                  else if is_nan y then y
                                  else if (acc <? y)%float then y else acc) a' x)
  end.

(** [np.sum(a)] for an array of integers. *)
Definition np_sum (a : ndarray Z) : Z := fold_right Z.add 0 (data a).

(** ** The coupling loop of the groundwater notebook *)

Module Groundwater.

(** The fields of the simulation grid that the component reads and writes,
    and the state [gdp] of the GroundwaterDupuitPercolator itself. *)
Record Landlab (G : Type) := {
  elev : list float;
  wt : list float;
  recharge : list float;
  gdp : G
}.
Arguments elev {G} l.
Arguments wt {G} l.
Arguments recharge {G} l.
Arguments gdp {G} l.

(** The simulation library: [gdp.run_one_step(dt)]. *)
Class Simulation (G : Type) :=
  gdp_run_one_step : float -> Landlab G -> outcome (Landlab G) unit.

(** The parameters that the notebook sets as globals. *)
Record Params := {
  nr : Z;
  nc : Z;
  dx : float;
  pumping_rate : float;
  dt : float
}.

(** The state of the notebook.  The field [depth_to_wt] of the grid is the
    array that the farmer model holds a reshaped view of: its elements are
    the [data] of [depth_to_water_table (farmer_model w)]. *)
Record World (G : Type) := {
  sim : Landlab G;
  farmer_model : FarmerModel
}.
Arguments sim {G} w.
Arguments farmer_model {G} w.

Section Loop.
Context {G : Type} `{Simulation G}.
Variable p : Params.

Definition set_sim (g : Landlab G) (w : World G) : World G :=
  {| sim := g; farmer_model := farmer_model w |}.

Definition set_farmer_model (m : FarmerModel) (w : World G) : World G :=
  {| sim := sim w; farmer_model := m |}.

Definition set_recharge (r : list float) (g : Landlab G) : Landlab G :=
  {| elev := elev g; wt := wt g; recharge := r; gdp := gdp g |}.

Definition run_one_step (dt : float) : prog (Landlab G) unit :=
  emit (ev_run_one_step dt);;
  call (gdp_run_one_step dt).

Definition run_for_one_day (dt : float) : prog (Landlab G) unit :=
  q ← lift (py_div (3600.0 * 24) dt);
  num_iter ← lift (python_int q);
  for_each (range num_iter) (fun _ => run_one_step dt).

Definition run_for_one_year (dt : float) : prog (Landlab G) unit :=
  emit ev_run_for_one_year;;
  q ← lift (py_div (365.25 * 3600.0 * 24) dt);
  num_iter ← lift (python_int q);
  for_each (range num_iter) (fun _ => run_one_step dt).

(** [depth_to_wt[:] = elev - wt] *)
Definition update_depth : prog (World G) unit :=
  emit ev_derive_field;;
  w ← get;
  v ← lift (np_binop PrimFloat.sub (elev (sim w)) (wt (sim w)));
  let d := depth_to_water_table (farmer_model w) in
  v' ← lift (np_assign (data d) v);
  put (set_farmer_model
         (set_depth_to_water_table (NDArray (shape d) v') (farmer_model w)) w).

(** [recharge[:] = -(pumping_rate / (dx * dx)) * pumping_well_count.flatten()] *)
Definition write_recharge (pumping_well_count : ndarray Z) : prog (World G) unit :=
  emit ev_write_forcing;;
  w ← get;
  r ← lift (py_div (pumping_rate p) (dx p * dx p));
  let v := map (fun c => (- r * float_of_Z c)%float) (np_flatten pumping_well_count) in
  v' ← lift (np_assign (recharge (sim w)) v);
  put (set_sim (set_recharge v' (sim w)) w).

(** The body of the loop, for the year [i]; [order] is the order in
    which the scheduler activates the agents that year. *)
Definition year (order : list ref) (i : Z) : prog (World G) unit :=
  emit (ev_iteration i);;
  zoom sim set_sim (run_for_one_year (dt p));;
  update_depth;;
  zoom farmer_model set_farmer_model (FarmerModel_step order);;
  counts ← zoom farmer_model set_farmer_model (get_well_count (nr p) (nc p));
  let total_pumping_wells := np_sum (snd counts) in
  w ← get;
  greatest ← lift (np_amax (data (depth_to_water_table (farmer_model w))));
  write_recharge (snd counts).

(** [for i in range(run_duration_yrs): ...] *)
Definition coupling_loop (orders : Z -> list ref) (run_duration_yrs : Z)
    : prog (World G) unit :=
  for_each (range run_duration_yrs) (fun i => year (orders i) i).
End Loop.

End Groundwater.

(** ** The wolf-sheep-grass notebook *)

Module WolfSheepGrass.

(** Modelled from the spec: the agent classes of the package [wolf_sheep],
    which the notebook imports and whose files are not part of the sources;
    the specification asks for a tagged variant over the closed set of
    agent kinds, a grass patch carrying the flag "is fully grown". *)
Record GrassPatchObj := {
  gp_unique_id : Z;
  gp_pos : Z * Z;
  fully_grown : bool;
  countdown : Z
}.

Record AnimalObj := {
  an_unique_id : Z;
  an_pos : Z * Z;
  energy : float
}.

Inductive WSGAgent :=
| GrassPatch (g : GrassPatchObj)
| Sheep (a : AnimalObj)
| Wolf (a : AnimalObj).

(** Modelled from the spec: the model class [WolfSheep] of the same package,
    as far as the notebook reads it: its attributes [width] and [height],
    its grid, and the agents on it; [rest] stands for the scheduler, the
    random number generator and whatever else the model holds. *)
Record WolfSheep (R : Type) := {
  width : nat;
  height : nat;
  grid : Mesa.MultiGrid;
  agents : list WSGAgent;
  rest : R
}.
Arguments width {R} w.
Arguments height {R} w.
Arguments grid {R} w.
Arguments agents {R} w.
Arguments rest {R} w.

(** The agent library: [ws.step()]. *)
Class Population (R : Type) :=
  ws_step : WolfSheep R -> outcome (WolfSheep R) unit.

(** The fields of the simulation grid that the LinearDiffuser reads and
    writes, and the state [diffuser] of the component itself. *)
Record Landlab (D : Type) := {
  elev : list float;
  creep_coef : list float;
  diffuser : D
}.
Arguments elev {D} l.
Arguments creep_coef {D} l.
Arguments diffuser {D} l.

(** The simulation library: [diffuser.run_one_step(dt)], and [np.exp]. *)
Class Simulation (D : Type) := {
  diffuser_run_one_step : float -> Landlab D -> outcome (Landlab D) unit;
  np_exp : float -> float
}.

Record Params := {
  min_depth_for_grass : float;
  hstar : float;
  fast_creep : float;
  slow_creep : float;
  dt : float
}.

(** The state of the notebook: the agent model, the grid of the
    simulation, its soil-depth field, which the diffuser does not use, and
    the array [prior_elev]. *)
Record World (R D : Type) := {
  ws : WolfSheep R;
  rmg : Landlab D;
  soil : list float;
  prior_elev : list float
}.
Arguments ws {R D} w.
Arguments rmg {R D} w.
Arguments soil {R D} w.
Arguments prior_elev {R D} w.

Section Model.
Context {R : Type}.

Definition set_agents (f : list WSGAgent -> list WSGAgent) (m : WolfSheep R)
    : WolfSheep R :=
  {| width := width m; height := height m; grid := grid m;
     agents := f (agents m); rest := rest m |}.

Definition deref (r : ref) : prog (WolfSheep R) WSGAgent :=
  m ← get;
  match agents m !! r with
  | Some a => mret a
  | None => raise AttributeError
  end.

(** [generate_grass_map] *)
Definition mark_grass (xy : Z * Z) (agent : ref) (grass_map : ndarray float)
    : prog (WolfSheep R) (ndarray float) :=
  a ← deref agent;
  match a with
  | GrassPatch g =>
      if fully_grown g
      then lift (np_setitem2 grass_map (fst xy) (snd xy) 2%float)
      else lift (np_setitem2 grass_map (fst xy) (snd xy) 1%float)
  | _ => mret grass_map
  end.

Definition mark_cell (xy : Z * Z) (grass_map : ndarray float)
    : prog (WolfSheep R) (ndarray float) :=
  m ← get;
  cell_content ← lift (Mesa.cell_at (grid m) xy);
  for_fold cell_content (mark_grass xy) grass_map.

Definition generate_grass_map : prog (WolfSheep R) (ndarray float) :=
  emit ev_aggregate;;
  m ← get;
  grass_map ← lift (np_zeros2 0%float (Z.of_nat (Mesa.width (grid m)))
                      (Z.of_nat (Mesa.height (grid m))));
  for_fold (Mesa.coords (grid m)) mark_cell grass_map.

(** [limit_grass_by_soil] *)
Definition set_fully_grown (b : bool) (a : WSGAgent) : WSGAgent :=
  match a with
  | GrassPatch g =>
      GrassPatch {| gp_unique_id := gp_unique_id g; gp_pos := gp_pos g;
                    fully_grown := b; countdown := countdown g |}
  | _ => a
  end.

Definition damage_grass (agent : ref) : prog (WolfSheep R) unit :=
  a ← deref agent;
  match a with
  | GrassPatch _ =>
      m ← get; put (set_agents (alter (set_fully_grown false) agent) m)
  | _ => mret tt
  end.

Definition limit_cell (soilmatrix : ndarray float) (min_soil_depth : float)
    (xy : Z * Z) : prog (WolfSheep R) unit :=
  m ← get;
  cell_content ← lift (Mesa.cell_at (grid m) xy);
  d ← lift (np_getitem2 soilmatrix (fst xy) (snd xy));
  if (d <? min_soil_depth)%float
  then for_each cell_content damage_grass
  else mret tt.

Definition limit_grass_by_soil (soil : ndarray float) (min_soil_depth : float)
    : prog (WolfSheep R) unit :=
  emit ev_observe;;
  m ← get;
  soilmatrix ← lift (np_reshape2 soil (Z.of_nat (width m)) (Z.of_nat (height m)));
  for_each (Mesa.coords (grid m)) (limit_cell soilmatrix min_soil_depth).
End Model.

Section Loop.
Context {R D : Type} `{Population R} `{Simulation D}.
Variable p : Params.

Definition set_ws (m : WolfSheep R) (w : World R D) : World R D :=
  {| ws := m; rmg := rmg w; soil := soil w; prior_elev := prior_elev w |}.

Definition set_rmg (g : Landlab D) (w : World R D) : World R D :=
  {| ws := ws w; rmg := g; soil := soil w; prior_elev := prior_elev w |}.

Definition set_prior_elev (l : list float) (w : World R D) : World R D :=
  {| ws := ws w; rmg := rmg w; soil := soil w; prior_elev := l |}.

Definition set_creep_coef (c : list float) (g : Landlab D) : Landlab D :=
  {| elev := elev g; creep_coef := c; diffuser := diffuser g |}.

Definition set_soil (l : list float) (w : World R D) : World R D :=
  {| ws := ws w; rmg := rmg w; soil := l; prior_elev := prior_elev w |}.

(** [creep_coef[gm.flatten()==k] = v] *)
Definition assign_creep (gm : ndarray float) (k v : float) : prog (World R D) unit :=
  emit ev_write_forcing;;
  w ← get;
  c ← lift (np_mask_assign (creep_coef (rmg w))
              (map (fun x => (x =? k)%float) (np_flatten gm)) v);
  put (set_rmg (set_creep_coef c (rmg w)) w).

(** [creep_coef *= 1.0 - np.exp(-soil / hstar)] *)
Definition scale_creep : prog (World R D) unit :=
  emit ev_write_forcing;;
  w ← get;
  let f := map (fun s => (1.0 - np_exp (- s / hstar p))%float) (soil w) in
  c ← lift (np_inplace PrimFloat.mul (creep_coef (rmg w)) f);
  put (set_rmg (set_creep_coef c (rmg w)) w).

(** [prior_elev[:] = elev] *)
Definition save_prior : prog (World R D) unit :=
  emit ev_save_prior;;
  w ← get;
  e ← lift (np_assign (prior_elev w) (elev (rmg w)));
  put (set_prior_elev e w).

Definition run_one_step (dt : float) : prog (Landlab D) unit :=
  emit (ev_run_one_step dt);;
  call (diffuser_run_one_step dt).

(** [soil += elev - prior_elev] *)
Definition update_soil : prog (World R D) unit :=
  emit ev_derive_field;;
  w ← get;
  v ← lift (np_binop PrimFloat.sub (elev (rmg w)) (prior_elev w));
  s ← lift (np_inplace PrimFloat.add (soil w) v);
  put (set_soil s w).

Definition step_population : prog (WolfSheep R) unit :=
  emit ev_schedule_step;;
  call ws_step.

(** The body of the main loop of the two-way coupling. *)
Definition iteration (i : Z) : prog (World R D) unit :=
  emit (ev_iteration i);;
  gm ← zoom ws set_ws generate_grass_map;
  assign_creep gm 1 (fast_creep p);;
  assign_creep gm 2 (slow_creep p);;
  scale_creep;;
  save_prior;;
  zoom rmg set_rmg (run_one_step (dt p));;
  update_soil;;
  w ← get;
  zoom ws set_ws (limit_grass_by_soil (NDArray [Z.of_nat (length (soil w))] (soil w))
                    (min_depth_for_grass p));;
  zoom ws set_ws step_population.

(** [for i in range(n): ...]; the notebook runs 50 iterations. *)
Definition main_loop (n : Z) : prog (World R D) unit :=
  for_each (range n) iteration.
End Loop.

End WolfSheepGrass.

(** * Vocabulary of the statements *)

(** What [FarmerAgent.step] observes: the depth to the water table at the
    position of the agent. *)
Definition observed (w : ndarray float) (a : FarmerAgent) : result float :=
  match pos a with
  | Some (x, y) => np_getitem2 w x y
  | None => Raise TypeError
  end.

(** The agent after its activation, when its observation succeeds. *)
Definition decided (w : ndarray float) (a : FarmerAgent) : FarmerAgent :=
  match observed w a with
  | Ok d => set_pumping (negb (geb d (well_depth a))) a
  | Raise _ => a
  end.

(** The store after the activation of the agents of [order]. *)
Definition activated (w : ndarray float) (order : list ref) (l : list FarmerAgent)
    : list FarmerAgent :=
  imap (fun i a => if bool_decide (i ∈ order) then decided w a else a) l.

(** The activation of [r] raises nothing: the reference names an agent whose
    observation succeeds. *)
Definition can_step (w : ndarray float) (l : list FarmerAgent) (r : ref) : Prop :=
  exists a d, l !! r = Some a /\ observed w a = Ok d.

(** Two runs end alike: both return the same value in the same state, or
    both raise. *)
Definition same_outcome {S A} (o1 o2 : outcome S A) : Prop :=
  match o1, o2 with
  | Returns a1 s1, Returns a2 s2 => a1 = a2 /\ s1 = s2
  | Raises _ _, Raises _ _ => True
  | _, _ => False
  end.

(** The literal scenario of the specification: a 3 x 3 grid with one farmer
    at (1, 1) whose well is 5.0 deep, and the depth [d] at every cell. *)
Definition scenario_field (d : float) : ndarray float :=
  NDArray [3; 3] (replicate 9 d).

Definition scenario_model (rng : Random) (d : float) : FarmerModel :=
  {| num_agents := 1;
     grid := {| Mesa.width := 3; Mesa.height := 3; Mesa.torus := true;
                Mesa.cells := [[[]; []; []]; [[]; [0%nat]; []]; [[]; []; []]] |};
     depth_to_water_table := scenario_field d;
     schedule := [0%nat];
     random := {| draws := draws rng; cursor := S (S (cursor rng)) |};
     wt_depth_2d := None;
     agents := [{| unique_id := 0; pos := Some (1, 1); pumping := true;
                   well_depth := 5%float |}] |}.

(** Two farmers on a 4 x 4 grid, at (1, 1) where the water table is 6.0 deep
    and at (2, 2) where it is 4.0 deep. *)
Definition two_farmers_field : ndarray float :=
  NDArray [4; 4] [4; 4; 4; 4;  4; 6; 4; 4;  4; 4; 4; 4;  4; 4; 4; 4]%float.

Definition two_farmers : FarmerModel :=
  match FarmerModel_init {| draws := fun k => Z.of_nat k / 2; cursor := 0 |}
          2 4 4 5 two_farmers_field with
  | (_, Returns _ m) => m
  | (_, Raises _ m) => m
  end.

Definition no_draws : Random := {| draws := fun _ => 0; cursor := 0 |}.

(** The state a run ends in, and what it returns or raises. *)
Definition final_state {S A} (r : list event * outcome S A) : S :=
  match r.2 with
  | Returns _ s => s
  | Raises _ s => s
  end.

Definition value_of {S A} (r : list event * outcome S A) : result A :=
  match r.2 with
  | Returns a _ => Ok a
  | Raises e _ => Raise e
  end.

(** A computation that leaves every state as it found it, whether it
    returns or raises. *)
Definition read_only {S A} (m : prog S A) : Prop :=
  forall s, final_state (m s) = s.

(** Two computations, run from two states, leave their states alone and
    agree on what they return or raise. *)
Definition agree {S A} (m m' : prog S A) (s s' : S) : Prop :=
  value_of (m s) = value_of (m' s') /\
  final_state (m s) = s /\ final_state (m' s') = s'.

(** What [generate_grass_map] reads of an agent: whether it is a grass patch
    and, if so, whether it is fully grown. *)
Definition grass_state (a : WolfSheepGrass.WSGAgent) : option bool :=
  match a with
  | WolfSheepGrass.GrassPatch g => Some (WolfSheepGrass.fully_grown g)
  | _ => None
  end.

(** The grid holds as many columns as its width and every column as many
    cells as its height. *)
Definition grid_wf (g : Mesa.MultiGrid) : Prop :=
  length (Mesa.cells g) = Mesa.width g /\
  Forall (fun col => length col = Mesa.height g) (Mesa.cells g).

(** The references stored in the cells of a grid, with repetitions. *)
Definition on_grid (g : Mesa.MultiGrid) : list ref :=
  concat (@concat nat <$> Mesa.cells g).

(** The model after [create_agent wd i] has placed the new agent at (x, y),
    in the cell [cell] of the column [col]. *)
Definition placed (wd : float) (i x y : Z) (col : list (list ref)) (cell : list ref)
    (m : FarmerModel) : FarmerModel :=
  {| num_agents := num_agents m;
     grid := {| Mesa.width := Mesa.width (grid m); Mesa.height := Mesa.height (grid m);
                Mesa.torus := Mesa.torus (grid m);
                Mesa.cells := <[Z.to_nat x := <[Z.to_nat y := cell ++ [length (agents m)]]> col]>
                                (Mesa.cells (grid m)) |};
     depth_to_water_table := depth_to_water_table m;
     schedule := schedule m ++ [length (agents m)];
     random := {| draws := draws (random m); cursor := S (S (cursor (random m))) |};
     wt_depth_2d := wt_depth_2d m;
     agents := agents m ++ [{| unique_id := i; pos := Some (x, y); pumping := true;
                               well_depth := wd |}] |}.

(** The coordinates that [create_agent] draws for its agent. *)
Definition drawn_x (m : FarmerModel) : Z :=
  draws (random m) (cursor (random m)) mod (Z.of_nat (Mesa.width (grid m)) - 2) + 1.

Definition drawn_y (m : FarmerModel) : Z :=
  draws (random m) (S (cursor (random m))) mod (Z.of_nat (Mesa.width (grid m)) - 2) + 1.

(** What holds of the agents while [FarmerModel.__init__] creates them on a
    grid of width [w]: the schedule lists them in the order of creation,
    every one of them is stored exactly once on the grid, in the cell that
    its position names, and both coordinates lie between 1 and [w - 2]. *)
Definition placement_inv (w : nat) (m : FarmerModel) : Prop :=
  Mesa.width (grid m) = w /\
  schedule m = seq 0 (length (agents m)) /\
  on_grid (grid m) ≡ₚ seq 0 (length (agents m)) /\
  forall r a, agents m !! r = Some a ->
    exists x y cell,
      pos a = Some (x, y) /\
      1 <= x <= Z.of_nat w - 2 /\ 1 <= y <= Z.of_nat w - 2 /\
      Mesa.cell_at (grid m) (x, y) = Ok cell /\ r ∈ cell.

(** A property of the state that a computation keeps, whether it returns
    or raises. *)
Definition invariant {S A} (I : S -> Prop) (m : prog S A) : Prop :=
  forall s, I s -> I (final_state (m s)).

(** The simulation grid has [nr] rows and [nc] columns of nodes, the field
    that the farmer model holds is an array of that shape, and the agent grid
    has the same dimensions: its width is [nc] and its height is [nr]. *)
Definition grids_match (nr nc : Z) (m : FarmerModel) : Prop :=
  valid_ndarray (depth_to_water_table m) /\
  shape (depth_to_water_table m) = [nr; nc] /\
  Z.of_nat (Mesa.width (grid m)) = nc /\
  Z.of_nat (Mesa.height (grid m)) = nr.

(** A computation whose events are those of [T], in that order: a run that
    returns has emitted [T], and a run that raises has emitted the events of
    [T] up to the point where it raised. *)
Definition emits {S A} (m : prog S A) (T : list event) : Prop :=
  forall s,
    match m s with
    | (t, Returns _ _) => t = T
    | (t, Raises _ _) => t `prefix_of` T
    end.

(** The six phases of the exchange, in the order the specification gives
    them: (a) advance the simulation, (b) derive a field from its state,
    (c) hand the field to the agents, (d) let the agents update themselves,
    (e) aggregate the agents into a field, (f) write it into the forcing of
    the simulation. *)
Inductive phase := Advance | Derive | Observe | Update | Aggregate | Force.

(** The phase an event belongs to; the binding of the loop variable and the
    copy of the elevations into [prior_elev] belong to none. *)
Definition phase_of (ev : event) : option phase :=
  match ev with
  | ev_iteration _ => None
  | ev_run_for_one_year => Some Advance
  | ev_run_one_step _ => Some Advance
  | ev_derive_field => Some Derive
  | ev_observe => Some Observe
  | ev_schedule_step => Some Update
  | ev_aggregate => Some Aggregate
  | ev_write_forcing => Some Force
  | ev_save_prior => None
  end.

Definition phase_eqb (a b : phase) : bool :=
  match a, b with
  | Advance, Advance | Derive, Derive | Observe, Observe
  | Update, Update | Aggregate, Aggregate | Force, Force => true
  | _, _ => false
  end.

(** A list of phases with every run of the same phase reduced to one. *)
Fixpoint squash (l : list phase) : list phase :=
  match l with
  | [] => []
  | x :: l' =>
      match l' with
      | y :: _ => if phase_eqb x y then squash l' else x :: squash l'
      | [] => [x]
      end
  end.

(** The phases of a trace, in the order of execution. *)
Definition phases (t : list event) : list phase := squash (omap phase_of t).

Definition spec_order : list phase :=
  [Advance; Derive; Observe; Update; Aggregate; Force].

(** The calls of the solver that [run_for_one_year dt] makes. *)
Definition year_calls (dt : float) : list event :=
  match py_div (365.25 * 3600.0 * 24) dt ≫= python_int with
  | Ok k => replicate (Z.to_nat k) (ev_run_one_step dt)
  | Raise _ => []
  end.

(** The events of one iteration of the groundwater loop. *)
Definition year_trace (dt : float) (i : Z) : list event :=
  ev_iteration i :: ev_run_for_one_year :: year_calls dt ++
  [ev_derive_field; ev_observe; ev_schedule_step; ev_aggregate; ev_write_forcing].

(** The events of one iteration of the wolf-sheep-grass loop. *)
Definition iteration_trace (dt : float) (i : Z) : list event :=
  [ev_iteration i; ev_aggregate; ev_write_forcing; ev_write_forcing; ev_write_forcing;
   ev_save_prior; ev_run_one_step dt; ev_derive_field; ev_observe; ev_schedule_step].

(** A run that returned. *)
Definition returned {S A} (r : list event * outcome S A) : Prop :=
  match r.2 with
  | Returns _ _ => True
  | Raises _ _ => False
  end.

(** The order of the phases in the wolf-sheep-grass loop. *)
Definition rotated_order : list phase :=
  [Aggregate; Force; Advance; Derive; Observe; Update].

(** A small instance of the wolf-sheep-grass notebook: a 2 x 2 grid with a
    grass patch in every cell and a sheep in the first, flat ground without
    soil, and collaborators that do nothing: the agent model and the
    diffuser return at once, and [np_exp] is the exponential at 0, its only
    argument here. *)
Definition idle_population : WolfSheepGrass.Population unit :=
  fun m => Returns tt m.

Definition idle_diffuser : WolfSheepGrass.Simulation unit :=
  {| WolfSheepGrass.diffuser_run_one_step := fun _ g => Returns tt g;
     WolfSheepGrass.np_exp := fun _ => 1%float |}.

Definition grass (i : Z) (xy : Z * Z) (grown : bool) : WolfSheepGrass.WSGAgent :=
  WolfSheepGrass.GrassPatch
    {| WolfSheepGrass.gp_unique_id := i; WolfSheepGrass.gp_pos := xy;
       WolfSheepGrass.fully_grown := grown; WolfSheepGrass.countdown := 0 |}.

Definition meadow : WolfSheepGrass.WolfSheep unit :=
  {| WolfSheepGrass.width := 2; WolfSheepGrass.height := 2;
     WolfSheepGrass.grid :=
       {| Mesa.width := 2; Mesa.height := 2; Mesa.torus := true;
          Mesa.cells := [[[0%nat; 4%nat]; [1%nat]]; [[2%nat]; [3%nat]]] |};
     WolfSheepGrass.agents :=
       [grass 0 (0, 0) true; grass 1 (0, 1) false; grass 2 (1, 0) true; grass 3 (1, 1) true;
        WolfSheepGrass.Sheep {| WolfSheepGrass.an_unique_id := 4;
                                WolfSheepGrass.an_pos := (0, 0);
                                WolfSheepGrass.energy := 4 |}];
     WolfSheepGrass.rest := tt |}.

Definition meadow_world : WolfSheepGrass.World unit unit :=
  {| WolfSheepGrass.ws := meadow;
     WolfSheepGrass.rmg :=
       {| WolfSheepGrass.elev := [0; 0; 0; 0]%float;
          WolfSheepGrass.creep_coef := [0; 0; 0; 0]%float;
          WolfSheepGrass.diffuser := tt |};
     WolfSheepGrass.soil := [0; 0; 0; 0]%float;
     WolfSheepGrass.prior_elev := [0; 0; 0; 0]%float |}.

Definition meadow_params : WolfSheepGrass.Params :=
  {| WolfSheepGrass.min_depth_for_grass := 0.25;
     WolfSheepGrass.hstar := 0.25;
     WolfSheepGrass.fast_creep := 0.125;
     WolfSheepGrass.slow_creep := 0.0009765625;
     WolfSheepGrass.dt := 2 |}.

Definition meadow_iteration
    : list event * outcome (WolfSheepGrass.World unit unit) unit :=
  @WolfSheepGrass.iteration unit unit idle_population idle_diffuser
    meadow_params 0 meadow_world.

(** A small instance of the groundwater notebook: the two farmers on the
    4 x 4 grid, a water table 2 m below flat ground, and one-hour time steps.
    [idle_solver] leaves the grid as it is; [failing_solver] raises at once. *)
Definition idle_solver : Groundwater.Simulation unit :=
  fun _ g => Returns tt g.

Definition failing_solver : Groundwater.Simulation unit :=
  fun _ g => Raises (LibraryError "RuntimeError") g.

Definition farm_params : Groundwater.Params :=
  {| Groundwater.nr := 4; Groundwater.nc := 4; Groundwater.dx := 100;
     Groundwater.pumping_rate := 0.00390625; Groundwater.dt := 3600 |}.

Definition farm : Groundwater.World unit :=
  {| Groundwater.sim :=
       {| Groundwater.elev := replicate 16 0%float;
          Groundwater.wt := replicate 16 (-2)%float;
          Groundwater.recharge := replicate 16 0%float;
          Groundwater.gdp := tt |};
     Groundwater.farmer_model := two_farmers |}.

(** A run of [m] from [s] returns, with a value and in a state that
    satisfy [Q]. *)
Definition succeeds {S A} (m : prog S A) (s : S) (Q : A -> S -> Prop) : Prop :=
  match (m s).2 with
  | Returns a s' => Q a s'
  | Raises _ _ => False
  end.

(** A 2-D array of the shape (d0, d1) that holds as many elements. *)
Definition array_ok {A} (d0 d1 : Z) (a : ndarray A) : Prop :=
  shape a = [d0; d1] /\ np_size a = d0 * d1.

(** A solver that returns from every call and keeps the sizes of the fields. *)
Definition solver_total {G} (sim : Groundwater.Simulation G) : Prop :=
  forall dt g, exists g',
    Groundwater.gdp_run_one_step dt g = Returns tt g' /\
    length (Groundwater.elev g') = length (Groundwater.elev g) /\
    length (Groundwater.wt g') = length (Groundwater.wt g) /\
    length (Groundwater.recharge g') = length (Groundwater.recharge g).

(** The farmer model on a square grid of [nr] rows and [nc] columns: its
    field and its grid match the simulation grid, the cells and the schedule
    hold references to agents of the store, and every agent has a position
    on the grid. *)
Definition farm_wf (nr nc : Z) (m : FarmerModel) : Prop :=
  grids_match nr nc m /\ nr = nc /\ 0 < nr /\
  grid_wf (grid m) /\
  Forall (fun r => (r < length (agents m))%nat) (on_grid (grid m)) /\
  Forall (fun r => (r < length (agents m))%nat) (schedule m) /\
  forall r a, agents m !! r = Some a ->
    exists x y, pos a = Some (x, y) /\ 0 <= x < nc /\ 0 <= y < nr.

(** The state of the groundwater notebook when both collaborators have been
    set up on the same grid: the three fields of the simulation have one
    value for each of the nr x nc nodes. *)
Definition world_wf {G} (p : Groundwater.Params) (w : Groundwater.World G) : Prop :=
  farm_wf (Groundwater.nr p) (Groundwater.nc p) (Groundwater.farmer_model w) /\
  length (Groundwater.elev (Groundwater.sim w))
    = Z.to_nat (Groundwater.nr p * Groundwater.nc p) /\
  length (Groundwater.wt (Groundwater.sim w))
    = Z.to_nat (Groundwater.nr p * Groundwater.nc p) /\
  length (Groundwater.recharge (Groundwater.sim w))
    = Z.to_nat (Groundwater.nr p * Groundwater.nc p).

(** Parameters with which nothing in the glue code raises: the year holds
    [k] steps of [dt], and the cell area is not zero. *)
Definition params_ok (p : Groundwater.Params) (k : Z) : Prop :=
  py_div (365.25 * 3600.0 * 24) (Groundwater.dt p) ≫= python_int = Ok k /\
  PrimFloat.is_zero (Groundwater.dx p * Groundwater.dx p) = false.

(** The parameters of the farm with a time step of 2^-1040 seconds, and the
    order in which the scheduler activates the two farmers every year. *)
Definition tiny_step_params : Groundwater.Params :=
  {| Groundwater.nr := 4; Groundwater.nc := 4; Groundwater.dx := 100;
     Groundwater.pumping_rate := 0.00390625; Groundwater.dt := 0x1p-1040 |}.

Definition farm_orders : Z -> list ref := fun _ => [1%nat; 0%nat].

(** The iterations that a trace records, and the number of its solver
    calls. *)
Definition iterations (t : list event) : list Z :=
  omap (fun ev => match ev with ev_iteration i => Some i | _ => None end) t.

Definition solver_calls (t : list event) : nat :=
  length (omap (fun ev => match ev with ev_run_one_step dt => Some dt | _ => None end) t).

(** ** Vocabulary of the further properties *)

(** The solver has kept the sizes of the fields of the grid. *)
Definition same_sizes {G} (g g' : Groundwater.Landlab G) : Prop :=
  length (Groundwater.elev g') = length (Groundwater.elev g) /\
  length (Groundwater.wt g') = length (Groundwater.wt g) /\
  length (Groundwater.recharge g') = length (Groundwater.recharge g).

(** What [FarmerModel.__init__] has set when [k] agents have been created. *)
Definition created (rng : Random) (N : Z) (w h : nat) (wd : float) (d : ndarray float)
    (k : nat) (m : FarmerModel) : Prop :=
  num_agents m = N /\ length (agents m) = k /\
  Forall (fun a => pumping a = true /\ well_depth a = wd) (agents m) /\
  depth_to_water_table m = d /\ wt_depth_2d m = None /\
  Mesa.width (grid m) = w /\ Mesa.height (grid m) = h /\ Mesa.torus (grid m) = true /\
  grid_wf (grid m) /\
  draws (random m) = draws rng /\ cursor (random m) = (cursor rng + 2 * k)%nat.

(** The field [f'] is at least as deep as [f] at every node. *)
Definition deeper (f f' : ndarray float) : Prop :=
  shape f' = shape f /\
  Forall2 (fun d d' => (d <=? d')%float = true) (data f) (data f').

(** Whether the agent that [r] names pumps. *)
Definition is_pumping (l : list FarmerAgent) (r : ref) : bool :=
  match l !! r with
  | Some a => pumping a
  | None => false
  end.

(** The number of agents of a cell that pump. *)
Definition pumping_in (l : list FarmerAgent) (cell : list ref) : Z :=
  Z.of_nat (length (List.filter (is_pumping l) cell)).

(** The two arrays when the cells before the [j]-th have been counted. *)
Definition counted (m : FarmerModel) (nr nc : Z) (j : nat)
    (counts : ndarray Z * ndarray Z) : Prop :=
  let cs := concat (Mesa.cells (grid m)) in
  shape (fst counts) = [nr; nc] /\ shape (snd counts) = [nr; nc] /\
  data (fst counts)
    = ((fun cell => Z.of_nat (length cell)) <$> take j cs) ++ replicate (length cs - j) 0 /\
  data (snd counts)
    = (pumping_in (agents m) <$> take j cs) ++ replicate (length cs - j) 0.

(** A run of [m] from [s] returns with a value and in a state that satisfy
    [Q], or raises [e]. *)
Definition returns_or_raises {S A} (e : exn) (m : prog S A) (s : S)
    (Q : A -> S -> Prop) : Prop :=
  match (m s).2 with
  | Returns a s' => Q a s'
  | Raises e' _ => e' = e
  end.

(** The recharge that the loop writes for a cell: the pumping rate of one
    well as a depth of water per time, negated, times the number of agents
    of the cell that pump. *)
Definition cell_recharge (p : Groundwater.Params) (l : list FarmerAgent)
    (cell : list ref) : float :=
  (- (Groundwater.pumping_rate p / (Groundwater.dx p * Groundwater.dx p))
   * float_of_Z (pumping_in l cell))%float.

(** The three fields that the loop exchanges agree at the end of a year: the
    depth to the water table is the ground elevation less the water table
    elevation, the field the agents observed holds these depths, every
    agent of [order] pumps unless the depth it observes has reached its
    well, and the recharge of every cell is that of its pumping agents. *)
Definition coupled {G} (p : Groundwater.Params) (order : list ref)
    (w : Groundwater.World G) : Prop :=
  let fm := Groundwater.farmer_model w in
  let depth := data (depth_to_water_table fm) in
  depth = zip_with PrimFloat.sub (Groundwater.elev (Groundwater.sim w))
                                 (Groundwater.wt (Groundwater.sim w)) /\
  wt_depth_2d fm
    = Some (NDArray [Z.of_nat (Mesa.width (grid fm)); Z.of_nat (Mesa.height (grid fm))] depth) /\
  (forall r a, r ∈ order -> agents fm !! r = Some a ->
     exists x y d,
       pos a = Some (x, y) /\
       depth !! Z.to_nat (x * Z.of_nat (Mesa.height (grid fm)) + y) = Some d /\
       pumping a = negb (geb d (well_depth a))) /\
  Groundwater.recharge (Groundwater.sim w)
    = cell_recharge p (agents fm) <$> concat (Mesa.cells (grid fm)).

(** [depth_to_wt > well_depth], the last array that the groundwater
    notebook plots. *)
Definition too_deep (depth_to_wt : list float) (well_depth : float) : list bool :=
  (fun d => (well_depth <? d)%float) <$> depth_to_wt.

(** The farm with the water table 8 m below the ground, deeper than the
    wells of its two farmers, which are 5 m deep. *)
Definition dry_farm : Groundwater.World unit :=
  {| Groundwater.sim :=
       {| Groundwater.elev := replicate 16 0%float;
          Groundwater.wt := replicate 16 (-8)%float;
          Groundwater.recharge := replicate 16 0%float;
          Groundwater.gdp := tt |};
     Groundwater.farmer_model := two_farmers |}.

(** The state of the grass patch that a cell shows: that of the last grass
    patch among its agents, if there is one. *)
Definition cell_grass (l : list WolfSheepGrass.WSGAgent) (cell : list ref) : option bool :=
  last (omap (fun r => l !! r ≫= grass_state) cell).

(** The number that [generate_grass_map] writes for it. *)
Definition grass_code (o : option bool) : float :=
  match o with
  | None => 0
  | Some false => 1
  | Some true => 2
  end.

(** The agent model of the wolf-sheep-grass notebook is well formed: its
    dimensions are those of its grid, and the cells of the grid hold
    references to agents of the store. *)
Definition meadow_wf {R} (m : WolfSheepGrass.WolfSheep R) : Prop :=
  WolfSheepGrass.width m = Mesa.width (WolfSheepGrass.grid m) /\
  WolfSheepGrass.height m = Mesa.height (WolfSheepGrass.grid m) /\
  grid_wf (WolfSheepGrass.grid m) /\
  Forall (fun r => (r < length (WolfSheepGrass.agents m))%nat)
         (on_grid (WolfSheepGrass.grid m)).

(** The agents of the cells whose soil is thinner than [min_soil_depth];
    [soil] lists the depths in the order of the cells. *)
Definition thin_cells (cells : list (list ref)) (soil : list float)
    (min_soil_depth : float) : list ref :=
  concat (zip_with (fun cell d => if (d <? min_soil_depth)%float then cell else [])
                   cells soil).

(** The store in which the grass patches among [refs] are not fully grown. *)
Definition damaged (refs : list ref) (l : list WolfSheepGrass.WSGAgent)
    : list WolfSheepGrass.WSGAgent :=
  imap (fun r a => if bool_decide (r ∈ refs) then WolfSheepGrass.set_fully_grown false a
                   else a) l.

(** The store [l'] differs from [l] at most in grass patches that are no
    longer fully grown. *)
Definition only_damaged (l l' : list WolfSheepGrass.WSGAgent) : Prop :=
  Forall2 (fun a a' => a' = a \/ a' = WolfSheepGrass.set_fully_grown false a) l l'.

(** The model [s] is the model [m] but for grass patches that are no longer
    fully grown. *)
Definition kept {R} (m s : WolfSheepGrass.WolfSheep R) : Prop :=
  WolfSheepGrass.width s = WolfSheepGrass.width m /\
  WolfSheepGrass.height s = WolfSheepGrass.height m /\
  WolfSheepGrass.grid s = WolfSheepGrass.grid m /\
  WolfSheepGrass.rest s = WolfSheepGrass.rest m /\
  only_damaged (WolfSheepGrass.agents m) (WolfSheepGrass.agents s).

(** The state of the wolf-sheep-grass notebook when the grid of the
    simulation has been created with the dimensions of the agent grid: the
    agent model is well formed and every field holds one value for each
    cell. *)
Definition wsg_world_wf {R D} (w : WolfSheepGrass.World R D) : Prop :=
  let n := (Mesa.width (WolfSheepGrass.grid (WolfSheepGrass.ws w))
            * Mesa.height (WolfSheepGrass.grid (WolfSheepGrass.ws w)))%nat in
  meadow_wf (WolfSheepGrass.ws w) /\
  length (WolfSheepGrass.elev (WolfSheepGrass.rmg w)) = n /\
  length (WolfSheepGrass.creep_coef (WolfSheepGrass.rmg w)) = n /\
  length (WolfSheepGrass.soil w) = n /\
  length (WolfSheepGrass.prior_elev w) = n.

(** An agent model whose step returns, keeps the dimensions of its grid
    and leaves the model well formed. *)
Definition population_total {R} (pop : WolfSheepGrass.Population R) : Prop :=
  forall m, meadow_wf m ->
    exists m',
      WolfSheepGrass.ws_step m = Returns tt m' /\ meadow_wf m' /\
      Mesa.width (WolfSheepGrass.grid m') = Mesa.width (WolfSheepGrass.grid m) /\
      Mesa.height (WolfSheepGrass.grid m') = Mesa.height (WolfSheepGrass.grid m).

(** A diffuser that returns from every call and keeps the sizes of the
    fields. *)
Definition diffuser_total {D} (sim : WolfSheepGrass.Simulation D) : Prop :=
  forall dt g, exists g',
    WolfSheepGrass.diffuser_run_one_step dt g = Returns tt g' /\
    length (WolfSheepGrass.elev g') = length (WolfSheepGrass.elev g) /\
    length (WolfSheepGrass.creep_coef g') = length (WolfSheepGrass.creep_coef g).

(** The creep coefficient that the loop writes for a cell before it scales
    it: slow under fully grown grass, fast under damaged grass, and the
    coefficient [c] that the cell had where there is no grass patch. *)
Definition cell_creep (p : WolfSheepGrass.Params) (l : list WolfSheepGrass.WSGAgent)
    (c : float) (cell : list ref) : float :=
  match cell_grass l cell with
  | Some true => WolfSheepGrass.slow_creep p
  | Some false => WolfSheepGrass.fast_creep p
  | None => c
  end.

(** The farmers of [s] are those of [m]: the same agents with the same
    identifiers, positions and wells, on the same grid and in the same
    schedule; only their [pumping] flags may differ. *)
Definition same_farmers (m s : FarmerModel) : Prop :=
  num_agents s = num_agents m /\ grid s = grid m /\ schedule s = schedule m /\
  Forall2 (fun a a' => unique_id a' = unique_id a /\ pos a' = pos a /\
                       well_depth a' = well_depth a)
          (agents m) (agents s).

(** * Properties *)

(** ** Running computations *)

Lemma bind_returns {S A B} (m : prog S A) (f : A -> prog S B) s t a s' :
  m s = (t, Returns a s') ->
  (m ≫= f) s = (let '(t', o) := f a s' in (t ++ t', o)).
Proof. intros H. unfold mbind, prog_bind. now rewrite H. Qed.

Lemma bind_raises {S A B} (m : prog S A) (f : A -> prog S B) s t e s' :
  m s = (t, Raises e s') ->
  (m ≫= f) s = (t, Raises e s').
Proof. intros H. unfold mbind, prog_bind. now rewrite H. Qed.

Ltac run :=
  cbv beta iota delta [mbind mret prog_bind prog_ret result_bind result_ret
                       get put raise emit lift zoom]; cbn beta iota.

(** ** The decision of one farmer *)

Lemma FarmerAgent_step_returns m self a w d :
  agents m !! self = Some a ->
  wt_depth_2d m = Some w ->
  observed w a = Ok d ->
  FarmerAgent_step self m =
    ([], Returns tt (set_agents (alter (set_pumping (negb (geb d (well_depth a)))) self) m)).
Proof.
  intros Ha Hw Hd. unfold FarmerAgent_step, deref, observed in *.
  run. rewrite Ha. run.
  destruct (pos a) as [[x y]|]; [|discriminate]. run. rewrite Hw. run.
  rewrite Hd. run. destruct (geb d (well_depth a)); reflexivity.
Qed.

(** Comparison of floats: [x < y] excludes [x >= y]. *)
Lemma SFcompare_Lt_swap a b :
  SFcompare a b = Some Lt -> SFcompare b a = Some Gt.
Proof.
  destruct a as [sa|sa| |sa ma ea], b as [sb|sb| |sb mb eb]; cbn; intros H;
    try discriminate H;
    repeat match goal with s : bool |- _ => destruct s end;
    try discriminate H; try reflexivity;
    rewrite (Z.compare_antisym ea eb);
    pose proof (Pos.compare_cont_antisym ma mb Eq) as P; cbn [CompOpp] in P;
    rewrite <- P; cbn in *;
    destruct (ea ?= eb); cbn in *; try discriminate H; try reflexivity;
    destruct (Pos.compare_cont Eq ma mb); cbn in *; try discriminate H; reflexivity.
Qed.

Lemma ltb_not_geb (x y : float) : (x <? y)%float = true -> geb x y = false.
Proof.
  unfold geb. rewrite FloatAxioms.ltb_spec, FloatAxioms.leb_spec. unfold SFltb, SFleb.
  destruct (SFcompare (Prim2SF x) (Prim2SF y)) as [[]|] eqn:E; try discriminate.
  intros _. now rewrite (SFcompare_Lt_swap _ _ E).
Qed.

(** ** One pass of the scheduler *)

Lemma observed_set_pumping w b a : observed w (set_pumping b a) = observed w a.
Proof. reflexivity. Qed.

Lemma decided_set_pumping w b a d :
  observed w a = Ok d -> decided w (set_pumping b a) = decided w a.
Proof. intros E. unfold decided. rewrite observed_set_pumping, E. reflexivity. Qed.

Lemma can_step_alter w l r r' b :
  can_step w (alter (set_pumping b) r' l) r <-> can_step w l r.
Proof.
  unfold can_step. destruct (decide (r' = r)) as [->|Hne].
  - rewrite list_lookup_alter_eq. split.
    + intros (a & d & Ha & Hd). destruct (l !! r) as [a0|]; [|discriminate].
      injection Ha as <-. exists a0, d. split; [reflexivity|exact Hd].
    + intros (a & d & Ha & Hd). rewrite Ha. cbn.
      exists (set_pumping b a), d. split; [reflexivity|exact Hd].
  - rewrite list_lookup_alter_ne by done. tauto.
Qed.

Lemma activated_cons w r order l a d :
  l !! r = Some a -> observed w a = Ok d ->
  activated w order (alter (set_pumping (negb (geb d (well_depth a)))) r l)
  = activated w (r :: order) l.
Proof.
  intros Ha Hd. apply list_eq. intros i. unfold activated.
  rewrite !list_lookup_imap.
  destruct (decide (i = r)) as [->|Hne].
  - rewrite list_lookup_alter_eq, Ha. cbn.
    rewrite (bool_decide_eq_true_2 (r ∈ r :: order)) by left.
    assert (Hdec : decided w a = set_pumping (negb (geb d (well_depth a))) a)
      by (unfold decided; now rewrite Hd).
    case_bool_decide.
    + rewrite (decided_set_pumping _ _ _ _ Hd). reflexivity.
    + now rewrite Hdec.
  - rewrite list_lookup_alter_ne by done.
    destruct (l !! i) as [ai|]; [|reflexivity]. cbn.
    destruct (bool_decide (i ∈ order)) eqn:E1, (bool_decide (i ∈ r :: order)) eqn:E2;
      try reflexivity.
    + apply bool_decide_eq_true in E1. apply bool_decide_eq_false in E2.
      exfalso. apply E2. now right.
    + apply bool_decide_eq_false in E1. apply bool_decide_eq_true in E2.
      apply elem_of_cons in E2 as [?|?]; [congruence|contradiction].
Qed.

Lemma for_each_steps_return w order : forall m,
  wt_depth_2d m = Some w ->
  Forall (can_step w (agents m)) order ->
  for_each order FarmerAgent_step m
  = ([], Returns tt (set_agents (activated w order) m)).
Proof.
  induction order as [|r order IH]; intros m Hw Hall.
  - cbn. run. f_equal. f_equal. destruct m; unfold set_agents; cbn. f_equal.
    unfold activated. symmetry. apply list_eq. intros i.
    rewrite list_lookup_imap. now destruct (_ !! i).
  - inversion Hall as [|? ? (a & d & Ha & Hd) Hrest]; subst.
    cbn [for_each].
    rewrite (bind_returns _ _ _ _ _ _ (FarmerAgent_step_returns m r a w d Ha Hw Hd)).
    rewrite IH.
    + cbn. f_equal. f_equal. unfold set_agents; cbn. f_equal.
      now apply activated_cons.
    + exact Hw.
    + cbn. eapply Forall_impl; [exact Hrest|]. intros r' Hr'.
      now apply can_step_alter.
Qed.

Lemma FarmerAgent_step_raises m self w :
  wt_depth_2d m = Some w ->
  ~ can_step w (agents m) self ->
  exists e, FarmerAgent_step self m = ([], Raises e m).
Proof.
  intros Hw Hno. unfold FarmerAgent_step, deref. run.
  destruct (agents m !! self) as [a|] eqn:Ha; run; [|eauto].
  destruct (observed w a) as [d|e] eqn:Hd.
  { exfalso. apply Hno. exists a, d. auto. }
  unfold observed in Hd. destruct (pos a) as [[x y]|]; run; [|eauto].
  rewrite Hw. run. rewrite Hd. run. eauto.
Qed.

Lemma for_each_steps_raise w order : forall m,
  wt_depth_2d m = Some w ->
  ~ Forall (can_step w (agents m)) order ->
  exists e m', for_each order FarmerAgent_step m = ([], Raises e m').
Proof.
  induction order as [|r order IH]; intros m Hw Hno.
  - exfalso. apply Hno. constructor.
  - cbn [for_each].
    destruct (agents m !! r) as [a|] eqn:Ha.
    + destruct (observed w a) as [d|e] eqn:Hd.
      * rewrite (bind_returns _ _ _ _ _ _ (FarmerAgent_step_returns m r a w d Ha Hw Hd)).
        destruct (IH (set_agents (alter (set_pumping (negb (geb d (well_depth a)))) r) m))
          as (e & m' & E).
        { exact Hw. }
        { intros Hall. apply Hno. constructor.
          - exists a, d. auto.
          - eapply Forall_impl; [exact Hall|]. intros r' Hr'.
            cbn in Hr'. now apply can_step_alter in Hr'. }
        rewrite E. cbn. eauto.
      * destruct (FarmerAgent_step_raises m r w Hw) as (e' & E).
        { intros (a' & d & Ha' & Hd'). congruence. }
        rewrite (bind_raises _ _ _ _ _ _ E). eauto.
    + destruct (FarmerAgent_step_raises m r w Hw) as (e' & E).
      { intros (a' & d & Ha' & Hd'). congruence. }
      rewrite (bind_raises _ _ _ _ _ _ E). eauto.
Qed.

Lemma activated_perm w order1 order2 l :
  order1 ≡ₚ order2 -> activated w order1 l = activated w order2 l.
Proof.
  intros Hp. unfold activated. apply imap_ext. intros i a _.
  assert (E : bool_decide (i ∈ order1) = bool_decide (i ∈ order2)).
  { apply bool_decide_ext. now rewrite Hp. }
  now rewrite E.
Qed.

(** [FarmerModel.step] when the reshape succeeds. *)
Lemma FarmerModel_step_reshaped order m w :
  np_reshape2 (depth_to_water_table m)
    (Z.of_nat (Mesa.width (grid m))) (Z.of_nat (Mesa.height (grid m))) = Ok w ->
  FarmerModel_step order m =
    (let '(t, o) := for_each order FarmerAgent_step (set_wt_depth_2d w m) in
     (ev_observe :: ev_schedule_step :: t, o)).
Proof.
  intros Hr. unfold FarmerModel_step, schedule_step. run. rewrite Hr. run.
  destruct (for_each order FarmerAgent_step (set_wt_depth_2d w m)) as [t o].
  reflexivity.
Qed.

Lemma FarmerModel_step_no_reshape order m e :
  np_reshape2 (depth_to_water_table m)
    (Z.of_nat (Mesa.width (grid m))) (Z.of_nat (Mesa.height (grid m))) = Raise e ->
  FarmerModel_step order m = ([ev_observe], Raises e m).
Proof.
  intros Hr. unfold FarmerModel_step. run. rewrite Hr. reflexivity.
Qed.

Lemma FarmerModel_step_returns order m w :
  np_reshape2 (depth_to_water_table m)
    (Z.of_nat (Mesa.width (grid m))) (Z.of_nat (Mesa.height (grid m))) = Ok w ->
  Forall (can_step w (agents m)) order ->
  FarmerModel_step order m =
    ([ev_observe; ev_schedule_step],
     Returns tt (set_agents (activated w order) (set_wt_depth_2d w m))).
Proof.
  intros Hr Hall. rewrite (FarmerModel_step_reshaped _ _ _ Hr).
  rewrite (for_each_steps_return w); [reflexivity|reflexivity|exact Hall].
Qed.

#[global] Instance can_step_dec w l r : Decision (can_step w l r).
Proof.
  unfold can_step. destruct (l !! r) as [a|].
  - destruct (observed w a) as [d|e] eqn:E.
    + left. eauto.
    + right. intros (a' & d & Ha & Hd). congruence.
  - right. intros (a' & d & Ha & Hd). discriminate.
Defined.

Lemma lookup_activated w order l r a :
  l !! r = Some a ->
  activated w order l !! r = Some (if bool_decide (r ∈ order) then decided w a else a).
Proof. intros H. unfold activated. now rewrite list_lookup_imap, H. Qed.

(** C1. When [FarmerModel.step] activates the agents of [order], every one of
    them ends the step with [pumping] false if the depth to the water table
    it observes at its position is greater than or equal to its well depth,
    and with [pumping] true otherwise, in particular when the depth is
    strictly less than the well depth; the flag it had before plays no
    part. *)
Theorem farmer_pumping_follows_depth (m : FarmerModel) (order : list ref) (w : ndarray float) :
  np_reshape2 (depth_to_water_table m)
    (Z.of_nat (Mesa.width (grid m))) (Z.of_nat (Mesa.height (grid m))) = Ok w ->
  Forall (can_step w (agents m)) order ->
  exists m',
    FarmerModel_step order m = ([ev_observe; ev_schedule_step], Returns tt m') /\
    wt_depth_2d m' = Some w /\
    forall r a d, r ∈ order -> agents m !! r = Some a -> observed w a = Ok d ->
      exists a', agents m' !! r = Some a' /\
        (geb d (well_depth a) = true -> pumping a' = false) /\
        (geb d (well_depth a) = false -> pumping a' = true) /\
        ((d <? well_depth a)%float = true -> pumping a' = true).
Proof.
  intros Hr Hall. eexists. split; [apply (FarmerModel_step_returns _ _ w); assumption|].
  split; [reflexivity|]. intros r a d Hin Ha Hd.
  cbn [agents set_agents set_wt_depth_2d].
  rewrite (lookup_activated _ _ _ _ _ Ha), bool_decide_eq_true_2 by exact Hin.
  eexists. split; [reflexivity|]. unfold decided. rewrite Hd. cbn.
  repeat split.
  - now intros ->.
  - now intros ->.
  - intros Hlt. now rewrite (ltb_not_geb _ _ Hlt).
Qed.

Lemma farmer_pumping_follows_depth_witness :
  exists m',
    FarmerModel_step [0%nat] (scenario_model no_draws 6) =
      ([ev_observe; ev_schedule_step], Returns tt m') /\
    wt_depth_2d m' = Some (scenario_field 6) /\
    forall r a d, r ∈ [0%nat] -> agents (scenario_model no_draws 6) !! r = Some a ->
      observed (scenario_field 6) a = Ok d ->
      exists a', agents m' !! r = Some a' /\
        (geb d (well_depth a) = true -> pumping a' = false) /\
        (geb d (well_depth a) = false -> pumping a' = true) /\
        ((d <? well_depth a)%float = true -> pumping a' = true).
Proof.
  apply (farmer_pumping_follows_depth (scenario_model no_draws 6) [0%nat] (scenario_field 6)).
  - reflexivity.
  - constructor; [|constructor]. eexists _, _. split; reflexivity.
Defined.

Lemma scenario_init rng d :
  FarmerModel_init rng 1 3 3 5 (scenario_field d) = ([], Returns tt (scenario_model rng d)).
Proof.
  cbv -[Z.modulo draws cursor]. rewrite !Z.mod_1_r. cbv -[draws cursor]. reflexivity.
Qed.

(** C2. On a 3 x 3 agent grid, the model built with one agent places it at
    (1, 1) whatever the random draws are; with a well depth of 5.0, one model
    step under an observed depth of 6.0 at every cell leaves [pumping] false,
    and one model step under an observed depth of 4.0 leaves it true, also
    when the step starts from the agent that has just stopped pumping. *)
Theorem literal_scenario (rng : Random) :
  (exists m0 m1,
     FarmerModel_init rng 1 3 3 5 (scenario_field 6) = ([], Returns tt m0) /\
     pos <$> agents m0 = [Some (1, 1)] /\
     FarmerModel_step (schedule m0) m0 = ([ev_observe; ev_schedule_step], Returns tt m1) /\
     pumping <$> agents m1 = [false] /\
     exists m2,
       FarmerModel_step (schedule m1) (set_depth_to_water_table (scenario_field 4) m1)
         = ([ev_observe; ev_schedule_step], Returns tt m2) /\
       pumping <$> agents m2 = [true]) /\
  (exists m0 m1,
     FarmerModel_init rng 1 3 3 5 (scenario_field 4) = ([], Returns tt m0) /\
     pos <$> agents m0 = [Some (1, 1)] /\
     FarmerModel_step (schedule m0) m0 = ([ev_observe; ev_schedule_step], Returns tt m1) /\
     pumping <$> agents m1 = [true]).
Proof.
  split.
  - eexists _, _. split; [apply scenario_init|]. split; [reflexivity|].
    split; [reflexivity|]. split; [reflexivity|].
    eexists. split; reflexivity.
  - eexists _, _. split; [apply scenario_init|]. split; [reflexivity|].
    split; reflexivity.
Qed.

(** ** The order of activation *)

Lemma for_each_steps_perm w order1 order2 m :
  wt_depth_2d m = Some w ->
  order1 ≡ₚ order2 ->
  same_outcome (for_each order1 FarmerAgent_step m).2
               (for_each order2 FarmerAgent_step m).2.
Proof.
  intros Hw Hp.
  destruct (decide (Forall (can_step w (agents m)) order1)) as [Hall|Hno].
  - rewrite (for_each_steps_return w order1 m Hw Hall).
    rewrite (for_each_steps_return w order2 m Hw) by now rewrite <- Hp.
    cbn [snd same_outcome]. unfold set_agents.
    now rewrite (activated_perm _ _ _ _ Hp).
  - destruct (for_each_steps_raise w order1 m Hw Hno) as (e1 & m1 & ->).
    destruct (for_each_steps_raise w order2 m Hw) as (e2 & m2 & ->).
    + now rewrite <- Hp.
    + exact I.
Qed.

(** C9. The agents that one call of [FarmerModel.step] leaves behind do not
    depend on the order in which the scheduler activates them: for two
    orders that are permutations of the schedule, both runs return the same
    model state (so the same [pumping] flag for every agent) or both raise;
    and a run that returns leaves every scheduled agent as [decided] makes
    it from the field the step reshaped, the agent's own position and its
    own well depth. *)
Theorem activation_order_irrelevant (m : FarmerModel) (order1 order2 : list ref) :
  order1 ≡ₚ schedule m ->
  order2 ≡ₚ schedule m ->
  same_outcome (FarmerModel_step order1 m).2 (FarmerModel_step order2 m).2 /\
  forall t m1, FarmerModel_step order1 m = (t, Returns tt m1) ->
    exists w,
      wt_depth_2d m1 = Some w /\
      forall r a, agents m !! r = Some a ->
        agents m1 !! r = Some (if bool_decide (r ∈ schedule m) then decided w a else a).
Proof.
  intros H1 H2.
  destruct (np_reshape2 (depth_to_water_table m)
              (Z.of_nat (Mesa.width (grid m))) (Z.of_nat (Mesa.height (grid m)))) as [w|e] eqn:Hr.
  - rewrite !(FarmerModel_step_reshaped _ _ _ Hr). split.
    + pose proof (for_each_steps_perm w order1 order2 (set_wt_depth_2d w m) eq_refl) as P.
      destruct (for_each order1 FarmerAgent_step (set_wt_depth_2d w m)) as [t1 o1].
      destruct (for_each order2 FarmerAgent_step (set_wt_depth_2d w m)) as [t2 o2].
      apply P. now rewrite H1, H2.
    + intros t m1.
      destruct (decide (Forall (can_step w (agents m)) order1)) as [Hall|Hno].
      * rewrite (for_each_steps_return w order1 (set_wt_depth_2d w m) eq_refl Hall).
        intros [= <- <-]. exists w. split; [reflexivity|]. intros r a Ha.
        cbn [agents set_agents set_wt_depth_2d].
        rewrite (lookup_activated _ _ _ _ _ Ha).
        assert (E : bool_decide (r ∈ order1) = bool_decide (r ∈ schedule m))
          by (apply bool_decide_ext; now rewrite H1).
        now rewrite E.
      * destruct (for_each_steps_raise w order1 (set_wt_depth_2d w m) eq_refl Hno)
          as (e1 & m' & ->). discriminate.
  - rewrite !(FarmerModel_step_no_reshape _ _ _ Hr). split; [exact I|]. discriminate.
Qed.

Lemma activation_order_irrelevant_witness :
  same_outcome (FarmerModel_step [0%nat; 1%nat] two_farmers).2
               (FarmerModel_step [1%nat; 0%nat] two_farmers).2 /\
  forall t m1, FarmerModel_step [0%nat; 1%nat] two_farmers = (t, Returns tt m1) ->
    exists w,
      wt_depth_2d m1 = Some w /\
      forall r a, agents two_farmers !! r = Some a ->
        agents m1 !! r =
          Some (if bool_decide (r ∈ schedule two_farmers) then decided w a else a).
Proof.
  apply (activation_order_irrelevant two_farmers [0%nat; 1%nat] [1%nat; 0%nat]).
  - reflexivity.
  - apply perm_swap.
Defined.

Example two_farmers_agents :
  agents two_farmers =
    [ {| unique_id := 0; pos := Some (1, 1); pumping := true; well_depth := 5 |};
      {| unique_id := 1; pos := Some (2, 2); pumping := true; well_depth := 5 |} ].
Proof. reflexivity. Qed.

Example two_farmers_step :
  (pumping <$> agents (match (FarmerModel_step [1%nat; 0%nat] two_farmers).2 with
                        | Returns _ m => m | Raises _ m => m end)) = [false; true].
Proof. reflexivity. Qed.

(** ** Computations that only read *)

Lemma read_only_ret {S A} (a : A) : read_only (mret a : prog S A).
Proof. intros s. reflexivity. Qed.

Lemma read_only_get {S} : read_only (@get S).
Proof. intros s. reflexivity. Qed.

Lemma read_only_emit {S} ev : read_only (@emit S ev).
Proof. intros s. reflexivity. Qed.

Lemma read_only_raise {S A} e : read_only (@raise S A e).
Proof. intros s. reflexivity. Qed.

Lemma read_only_lift {S A} (r : result A) : read_only (@lift S A r).
Proof. intros s. destruct r; reflexivity. Qed.

Lemma read_only_bind {S A B} (m : prog S A) (f : A -> prog S B) :
  read_only m -> (forall a, read_only (f a)) -> read_only (m ≫= f).
Proof.
  intros Hm Hf s. specialize (Hm s). unfold mbind, prog_bind, final_state in *.
  destruct (m s) as [t [a s'|e s']]; cbn in Hm; subst s'.
  - specialize (Hf a s). unfold final_state in Hf.
    destruct (f a s) as [t' o]. exact Hf.
  - reflexivity.
Qed.

Lemma read_only_for_fold {S A B} (l : list A) (body : A -> B -> prog S B) :
  (forall x acc, read_only (body x acc)) ->
  forall acc, read_only (for_fold l body acc).
Proof.
  intros Hb. induction l as [|x l IH]; intros acc; cbn [for_fold].
  - apply read_only_ret.
  - apply read_only_bind; [apply Hb|exact IH].
Qed.

Ltac read_only :=
  repeat first
    [ apply read_only_ret | apply read_only_get | apply read_only_emit
    | apply read_only_raise | apply read_only_lift
    | apply read_only_bind; [|intros ?]
    | apply read_only_for_fold; intros ? ?
    | match goal with |- read_only (match ?x with _ => _ end) => destruct x end
    | match goal with |- read_only (if ?x then _ else _) => destruct x end ].

Lemma read_only_deref r : read_only (deref r).
Proof. unfold deref. read_only. Qed.

Lemma read_only_get_well_count nr nc : read_only (get_well_count nr nc).
Proof.
  unfold get_well_count, count_cell, count_pumping.
  read_only; apply read_only_deref.
Qed.

Lemma read_only_ws_deref {R} r : read_only (@WolfSheepGrass.deref R r).
Proof. unfold WolfSheepGrass.deref. read_only. Qed.

Lemma read_only_generate_grass_map {R} :
  read_only (@WolfSheepGrass.generate_grass_map R).
Proof.
  unfold WolfSheepGrass.generate_grass_map, WolfSheepGrass.mark_cell,
    WolfSheepGrass.mark_grass.
  read_only; apply read_only_ws_deref.
Qed.

(** C6. Counting the wells and generating the grass map leave the agent
    population as it was, whether they return or raise: the model state
    after the call is the state before it, and with it the identity, the
    position and the flags of every agent. *)
Theorem aggregation_only_reads :
  (forall nr nc (m : FarmerModel),
     final_state (get_well_count nr nc m) = m /\
     agents (final_state (get_well_count nr nc m)) = agents m) /\
  (forall R (m : WolfSheepGrass.WolfSheep R),
     final_state (WolfSheepGrass.generate_grass_map m) = m /\
     WolfSheepGrass.agents (final_state (WolfSheepGrass.generate_grass_map m))
       = WolfSheepGrass.agents m).
Proof.
  split.
  - intros nr nc m. now rewrite (read_only_get_well_count nr nc m).
  - intros R m. now rewrite (read_only_generate_grass_map m).
Qed.

(** ** The aggregate as a function of what it reads *)

Lemma agree_same {S A} (m : prog S A) (s s' : S) :
  read_only m -> value_of (m s) = value_of (m s') -> agree m m s s'.
Proof. intros Hr Hv. repeat split; [exact Hv|apply Hr|apply Hr]. Qed.

Lemma agree_bind {S A B} (m m' : prog S A) (f f' : A -> prog S B) s s' :
  agree m m' s s' ->
  (forall a, agree (f a) (f' a) s s') ->
  agree (m ≫= f) (m' ≫= f') s s'.
Proof.
  intros (Hv & Hs & Hs') Hf. unfold agree, value_of, final_state, mbind, prog_bind in *.
  destruct (m s) as [t [a s1|e s1]], (m' s') as [t' [a' s1'|e' s1']];
    cbn in Hv, Hs, Hs'; try discriminate; subst.
  - injection Hv as <-. specialize (Hf a).
    destruct (f a s) as [u o], (f' a s') as [u' o']. exact Hf.
  - injection Hv as <-. cbn. auto.
Qed.

Lemma agree_get_bind {S B} (k k' : S -> prog S B) s s' :
  agree (k s) (k' s') s s' -> agree (get ≫= k) (get ≫= k') s s'.
Proof.
  unfold agree, value_of, final_state, mbind, prog_bind, get. cbn.
  destruct (k s s) as [u o], (k' s' s') as [u' o']. auto.
Qed.

Lemma agree_lift {S A} (r : result A) (s s' : S) : agree (lift r) (lift r) s s'.
Proof. destruct r; repeat split. Qed.

Lemma agree_ret {S A} (a : A) (s s' : S) : agree (mret a) (mret a) s s'.
Proof. repeat split. Qed.

Lemma agree_emit {S} ev (s s' : S) : agree (emit ev) (emit ev) s s'.
Proof. repeat split. Qed.

Lemma agree_for_fold {S A B} (l : list A) (body body' : A -> B -> prog S B) s s' :
  (forall x acc, agree (body x acc) (body' x acc) s s') ->
  forall acc, agree (for_fold l body acc) (for_fold l body' acc) s s'.
Proof.
  intros Hb. induction l as [|x l IH]; intros acc; cbn [for_fold].
  - apply agree_ret.
  - apply agree_bind; [apply Hb|exact IH].
Qed.

Lemma agree_count_pumping xy r acc m m' :
  pumping <$> agents m = pumping <$> agents m' ->
  agree (count_pumping xy r acc) (count_pumping xy r acc) m m'.
Proof.
  intros Hf. unfold count_pumping, deref.
  assert (E : pumping <$> (agents m !! r) = pumping <$> (agents m' !! r))
    by (rewrite <- !list_lookup_fmap; now rewrite Hf).
  unfold agree, value_of, final_state. run.
  destruct (agents m !! r) as [a|], (agents m' !! r) as [a'|]; cbn in E;
    try discriminate; run; [|auto].
  injection E as ->. destruct (pumping a'); run; [|auto].
  destruct (np_getitem2 acc (xy.1) (xy.2)) as [v|e]; run; [|auto].
  destruct (np_setitem2 acc (xy.1) (xy.2) (v + 1)); run; auto.
Qed.

Lemma agree_get_well_count nr nc m m' :
  grid m = grid m' ->
  pumping <$> agents m = pumping <$> agents m' ->
  agree (get_well_count nr nc) (get_well_count nr nc) m m'.
Proof.
  intros Hg Hf. unfold get_well_count.
  apply agree_bind; [apply agree_emit|intros _].
  apply agree_bind; [apply agree_lift|intros wc].
  apply agree_bind; [apply agree_lift|intros pwc].
  apply agree_get_bind. rewrite Hg. apply agree_for_fold. intros xy acc.
  unfold count_cell. apply agree_get_bind. rewrite Hg.
  apply agree_bind; [apply agree_lift|intros cell].
  apply agree_bind; [apply agree_lift|intros wc'].
  apply agree_bind; [|intros ?; apply agree_ret].
  apply agree_for_fold. intros r acc'. now apply agree_count_pumping.
Qed.

Lemma agree_mark_grass {R} xy r acc (m m' : WolfSheepGrass.WolfSheep R) :
  grass_state <$> WolfSheepGrass.agents m = grass_state <$> WolfSheepGrass.agents m' ->
  agree (WolfSheepGrass.mark_grass xy r acc) (WolfSheepGrass.mark_grass xy r acc) m m'.
Proof.
  intros Hf. unfold WolfSheepGrass.mark_grass, WolfSheepGrass.deref.
  assert (E : grass_state <$> (WolfSheepGrass.agents m !! r)
              = grass_state <$> (WolfSheepGrass.agents m' !! r))
    by (rewrite <- !list_lookup_fmap; now rewrite Hf).
  unfold agree, value_of, final_state. run.
  destruct (WolfSheepGrass.agents m !! r) as [a|],
           (WolfSheepGrass.agents m' !! r) as [a'|]; cbn in E;
    try discriminate; run; [|auto].
  injection E as E.
  destruct a as [g|?|?], a' as [g'|?|?]; cbn in E; try discriminate; run; auto.
  injection E as ->. destruct (WolfSheepGrass.fully_grown g'); run;
    match goal with |- context [np_setitem2 ?a ?x ?y ?v] =>
      destruct (np_setitem2 a x y v) end; run; auto.
Qed.

Lemma agree_generate_grass_map {R} (m m' : WolfSheepGrass.WolfSheep R) :
  WolfSheepGrass.grid m = WolfSheepGrass.grid m' ->
  grass_state <$> WolfSheepGrass.agents m = grass_state <$> WolfSheepGrass.agents m' ->
  agree WolfSheepGrass.generate_grass_map WolfSheepGrass.generate_grass_map m m'.
Proof.
  intros Hg Hf. unfold WolfSheepGrass.generate_grass_map.
  apply agree_bind; [apply agree_emit|intros _].
  apply agree_get_bind. rewrite Hg.
  apply agree_bind; [apply agree_lift|intros gm].
  apply agree_for_fold. intros xy acc.
  unfold WolfSheepGrass.mark_cell. apply agree_get_bind. rewrite Hg.
  apply agree_bind; [apply agree_lift|intros cell].
  apply agree_for_fold. intros r acc'. now apply agree_mark_grass.
Qed.

(** C5. Aggregating again, with no agent flag changed in between, gives the
    same aggregate: run from the state that a first run of the aggregation
    leaves, the aggregation does what the first run did, for the well counts
    and for the grass map alike.  The aggregate is a function of the grid
    cells (the positions) and of the flags the agents carry: two model states
    with the same cells and the same flags have the same aggregate. *)
Theorem aggregation_idempotent :
  (forall nr nc (m : FarmerModel),
     get_well_count nr nc (final_state (get_well_count nr nc m))
       = get_well_count nr nc m) /\
  (forall R (m : WolfSheepGrass.WolfSheep R),
     WolfSheepGrass.generate_grass_map
       (final_state (WolfSheepGrass.generate_grass_map m))
       = WolfSheepGrass.generate_grass_map m) /\
  (forall nr nc (m m' : FarmerModel),
     grid m = grid m' ->
     pumping <$> agents m = pumping <$> agents m' ->
     value_of (get_well_count nr nc m) = value_of (get_well_count nr nc m')) /\
  (forall R (m m' : WolfSheepGrass.WolfSheep R),
     WolfSheepGrass.grid m = WolfSheepGrass.grid m' ->
     grass_state <$> WolfSheepGrass.agents m = grass_state <$> WolfSheepGrass.agents m' ->
     value_of (WolfSheepGrass.generate_grass_map m)
       = value_of (WolfSheepGrass.generate_grass_map m')).
Proof.
  repeat split.
  - intros nr nc m. now rewrite (read_only_get_well_count nr nc m).
  - intros R m. now rewrite (read_only_generate_grass_map m).
  - intros nr nc m m' Hg Hf. apply (agree_get_well_count nr nc m m' Hg Hf).
  - intros R m m' Hg Hf. apply (agree_generate_grass_map m m' Hg Hf).
Qed.

Example two_farmers_counts :
  value_of (get_well_count 4 4 (final_state (FarmerModel_step [1%nat; 0%nat] two_farmers)))
  = Ok (NDArray [4; 4] [0; 0; 0; 0;  0; 1; 0; 0;  0; 0; 1; 0;  0; 0; 0; 0],
        NDArray [4; 4] [0; 0; 0; 0;  0; 0; 0; 0;  0; 0; 1; 0;  0; 0; 0; 0]).
Proof. reflexivity. Qed.

(** On a grid that is not square the count overruns its arrays. *)
Example well_count_not_square :
  value_of (get_well_count 2 3 (FarmerModel_new no_draws 0 3 2 (NDArray [2; 3] (replicate 6 0%float))))
  = Raise IndexError.
Proof. reflexivity. Qed.

Lemma aggregation_idempotent_witness :
  value_of (get_well_count 4 4 two_farmers)
  = value_of (get_well_count 4 4 (set_wt_depth_2d two_farmers_field two_farmers)).
Proof.
  apply (proj1 (proj2 (proj2 aggregation_idempotent)) 4 4 two_farmers
           (set_wt_depth_2d two_farmers_field two_farmers)); reflexivity.
Defined.

(** ** Subscripts *)

Lemma norm_index_nonneg len i : 0 <= i -> i < len -> norm_index len i = Ok i.
Proof.
  intros H0 H1. unfold norm_index.
  now rewrite (proj2 (Z.leb_le 0 i) H0), (proj2 (Z.ltb_lt i len) H1).
Qed.

Lemma norm_index_nonneg_inv len i j : 0 <= i -> norm_index len i = Ok j -> j = i /\ i < len.
Proof.
  intros H0. unfold norm_index.
  rewrite (proj2 (Z.leb_le 0 i) H0). cbn.
  destruct (i <? len) eqn:E.
  - intros [= <-]. apply Z.ltb_lt in E. auto.
  - assert ((i <? 0) = false) as -> by lia. rewrite andb_false_r. discriminate.
Qed.

Lemma py_getitem_nonneg {A} (l : list A) i a :
  0 <= i -> py_getitem l i = Ok a -> l !! Z.to_nat i = Some a.
Proof.
  intros H0. unfold py_getitem. run.
  destruct (norm_index _ i) as [j|] eqn:E; [|discriminate].
  apply norm_index_nonneg_inv in E as [-> _]; [|exact H0].
  destruct (l !! Z.to_nat i); [|discriminate]. now intros [= ->].
Qed.

Lemma py_getitem_lookup {A} (l : list A) i a :
  0 <= i -> l !! Z.to_nat i = Some a -> py_getitem l i = Ok a.
Proof.
  intros H0 Hl. unfold py_getitem. run.
  rewrite norm_index_nonneg; [now rewrite Hl|exact H0|].
  apply lookup_lt_Some in Hl. lia.
Qed.

Lemma py_setitem_lookup {A} (l : list A) i a v :
  0 <= i -> l !! Z.to_nat i = Some a -> py_setitem l i v = Ok (<[Z.to_nat i := v]> l).
Proof.
  intros H0 Hl. unfold py_setitem. run.
  rewrite norm_index_nonneg; [reflexivity|exact H0|].
  apply lookup_lt_Some in Hl. lia.
Qed.

(** ** Creating the agents *)

Lemma alter_new_agent (f : FarmerAgent -> FarmerAgent) l a :
  alter f (length l) (l ++ [a]) = l ++ [f a].
Proof.
  replace (length l) with (length l + 0)%nat by lia.
  now rewrite alter_app_r.
Qed.

Lemma create_agent_returns_inv wd i m t m' :
  create_agent wd i m = (t, Returns tt m') ->
  0 < Z.of_nat (Mesa.width (grid m)) - 2 /\
  exists col cell,
    Mesa.cells (grid m) !! Z.to_nat (drawn_x m) = Some col /\
    col !! Z.to_nat (drawn_y m) = Some cell /\
    t = [] /\ m' = placed wd i (drawn_x m) (drawn_y m) col cell m.
Proof.
  destruct m as [N [w h tor cs] d sch [dr cur] w2 ags].
  unfold create_agent, schedule_add, model_randrange, place_agent, next_draw, randrange,
    drawn_x, drawn_y, placed.
  run. cbn -[Z.modulo Z.sub Z.leb Z.of_nat Z.add Z.to_nat].
  destruct (Z.of_nat w - 2 <=? 0) eqn:Ew; [discriminate|].
  cbn -[Z.modulo Z.sub Z.leb Z.of_nat Z.add Z.to_nat]. rewrite Ew.
  apply Z.leb_gt in Ew. cbn -[Z.modulo Z.sub Z.leb Z.of_nat Z.add Z.to_nat].
  set (x := dr cur `mod` (Z.of_nat w - 2) + 1).
  set (y := dr (S cur) `mod` (Z.of_nat w - 2) + 1).
  assert (Hx : 1 <= x <= Z.of_nat w - 2)
    by (pose proof (Z.mod_pos_bound (dr cur) (Z.of_nat w - 2) Ew); lia).
  assert (Hy : 1 <= y <= Z.of_nat w - 2)
    by (pose proof (Z.mod_pos_bound (dr (S cur)) (Z.of_nat w - 2) Ew); lia).
  destruct (py_getitem cs x) as [col|] eqn:Ecol; [|discriminate].
  cbn -[Z.modulo Z.sub Z.leb Z.of_nat Z.add Z.to_nat]. fold y.
  destruct (py_getitem col y) as [cell|] eqn:Ecell; [|discriminate].
  cbn -[Z.modulo Z.sub Z.leb Z.of_nat Z.add Z.to_nat].
  apply py_getitem_nonneg in Ecol; [|lia]. apply py_getitem_nonneg in Ecell; [|lia].
  rewrite (py_setitem_lookup col y cell) by (lia || exact Ecell).
  cbn -[Z.modulo Z.sub Z.leb Z.of_nat Z.add Z.to_nat].
  rewrite (py_setitem_lookup cs x col) by (lia || exact Ecol).
  cbn -[Z.modulo Z.sub Z.leb Z.of_nat Z.add Z.to_nat].
  intros [= <- <-]. split; [exact Ew|]. exists col, cell.
  repeat split; try assumption.
  unfold set_agents, set_cells; cbn. now rewrite alter_new_agent.
Qed.

Lemma create_agent_returns wd i m col cell :
  0 < Z.of_nat (Mesa.width (grid m)) - 2 ->
  Mesa.cells (grid m) !! Z.to_nat (drawn_x m) = Some col ->
  col !! Z.to_nat (drawn_y m) = Some cell ->
  create_agent wd i m = ([], Returns tt (placed wd i (drawn_x m) (drawn_y m) col cell m)).
Proof.
  destruct m as [N [w h tor cs] d sch [dr cur] w2 ags].
  unfold create_agent, schedule_add, model_randrange, place_agent, next_draw, randrange,
    drawn_x, drawn_y, placed.
  cbn -[Z.modulo Z.sub Z.leb Z.of_nat Z.add Z.to_nat]. intros Ew.
  set (x := dr cur `mod` (Z.of_nat w - 2) + 1).
  set (y := dr (S cur) `mod` (Z.of_nat w - 2) + 1).
  assert (Hx : 1 <= x <= Z.of_nat w - 2)
    by (pose proof (Z.mod_pos_bound (dr cur) (Z.of_nat w - 2) Ew); lia).
  assert (Hy : 1 <= y <= Z.of_nat w - 2)
    by (pose proof (Z.mod_pos_bound (dr (S cur)) (Z.of_nat w - 2) Ew); lia).
  intros Ecol Ecell.
  run. cbn -[Z.modulo Z.sub Z.leb Z.of_nat Z.add Z.to_nat].
  rewrite (proj2 (Z.leb_gt _ _) Ew).
  cbn -[Z.modulo Z.sub Z.leb Z.of_nat Z.add Z.to_nat].
  rewrite (proj2 (Z.leb_gt _ _) Ew).
  cbn -[Z.modulo Z.sub Z.leb Z.of_nat Z.add Z.to_nat]. fold x.
  rewrite (py_getitem_lookup cs x col) by (lia || exact Ecol).
  cbn -[Z.modulo Z.sub Z.leb Z.of_nat Z.add Z.to_nat]. fold y.
  rewrite (py_getitem_lookup col y cell) by (lia || exact Ecell).
  cbn -[Z.modulo Z.sub Z.leb Z.of_nat Z.add Z.to_nat].
  rewrite (py_setitem_lookup col y cell) by (lia || exact Ecell).
  cbn -[Z.modulo Z.sub Z.leb Z.of_nat Z.add Z.to_nat].
  rewrite (py_setitem_lookup cs x col) by (lia || exact Ecol).
  cbn -[Z.modulo Z.sub Z.leb Z.of_nat Z.add Z.to_nat].
  unfold set_agents, set_cells; cbn. now rewrite alter_new_agent.
Qed.

Lemma drawn_bounds m :
  0 < Z.of_nat (Mesa.width (grid m)) - 2 ->
  1 <= drawn_x m <= Z.of_nat (Mesa.width (grid m)) - 2 /\
  1 <= drawn_y m <= Z.of_nat (Mesa.width (grid m)) - 2.
Proof.
  intros Ew. unfold drawn_x, drawn_y.
  pose proof (Z.mod_pos_bound (draws (random m) (cursor (random m))) _ Ew).
  pose proof (Z.mod_pos_bound (draws (random m) (S (cursor (random m)))) _ Ew).
  lia.
Qed.

(** ** Every agent is stored once, where its position says *)

Lemma concat_insert_perm {A} (l : list (list A)) i x y z :
  l !! i = Some x -> y ≡ₚ z ++ x -> concat (<[i := y]> l) ≡ₚ z ++ concat l.
Proof.
  revert i. induction l as [|x0 l IH]; intros [|i] Hl Hy; try discriminate; cbn in *.
  - injection Hl as ->. rewrite Hy. now rewrite (assoc app).
  - rewrite (IH i Hl Hy). rewrite !(assoc app). f_equiv. apply Permutation_app_comm.
Qed.

Lemma on_grid_placed wd i x y col cell m :
  Mesa.cells (grid m) !! Z.to_nat x = Some col ->
  col !! Z.to_nat y = Some cell ->
  on_grid (grid (placed wd i x y col cell m)) ≡ₚ length (agents m) :: on_grid (grid m).
Proof.
  intros Hcol Hcell. unfold on_grid, placed. cbn [grid Mesa.cells].
  rewrite list_fmap_insert.
  apply (concat_insert_perm _ _ (concat col) _ [length (agents m)]).
  - now rewrite list_lookup_fmap, Hcol.
  - apply (concat_insert_perm _ _ cell _ [length (agents m)] Hcell).
    apply Permutation_app_comm.
Qed.

Lemma cell_at_lookup g x y cell :
  0 <= x -> 0 <= y ->
  Mesa.cell_at g (x, y) = Ok cell <->
  exists col, Mesa.cells g !! Z.to_nat x = Some col /\ col !! Z.to_nat y = Some cell.
Proof.
  intros Hx Hy. unfold Mesa.cell_at. cbn [fst snd]. run. split.
  - destruct (py_getitem (Mesa.cells g) x) as [col|] eqn:E; [|discriminate].
    intros Hc. exists col. split; now apply py_getitem_nonneg.
  - intros (col & Hcol & Hcell).
    rewrite (py_getitem_lookup _ _ _ Hx Hcol). now apply py_getitem_lookup.
Qed.

Lemma placement_inv_placed w wd i m col cell :
  placement_inv w m ->
  0 < Z.of_nat w - 2 ->
  Mesa.cells (grid m) !! Z.to_nat (drawn_x m) = Some col ->
  col !! Z.to_nat (drawn_y m) = Some cell ->
  placement_inv w (placed wd i (drawn_x m) (drawn_y m) col cell m).
Proof.
  intros (Hw & Hs & Hg & Ha) Ew Hcol Hcell.
  pose proof (drawn_bounds m) as Hb. rewrite Hw in Hb. specialize (Hb Ew).
  set (x := drawn_x m) in *. set (y := drawn_y m) in *.
  set (n := length (agents m)) in *.
  assert (Hlen : length (agents (placed wd i x y col cell m)) = S n).
  { cbn. rewrite length_app. cbn. lia. }
  split; [exact Hw|]. split; [|split].
  - rewrite Hlen. cbn [schedule placed]. rewrite Hs. fold n. now rewrite seq_S.
  - rewrite Hlen, (on_grid_placed _ _ _ _ _ _ _ Hcol Hcell), Hg. fold n.
    rewrite seq_S. cbn. apply Permutation_cons_append.
  - intros r a Hr. cbn [agents placed] in Hr.
    apply lookup_app_Some in Hr as [Hr|[Hge Hr]].
    + destruct (Ha r a Hr) as (x' & y' & cell' & Hp & Hx' & Hy' & Hc & Hin).
      apply cell_at_lookup in Hc as (col' & Hcol' & Hcell'); [|lia|lia].
      destruct (decide (Z.to_nat x' = Z.to_nat x)) as [Ex|Ex].
      * rewrite Ex in Hcol'. assert (col' = col) as -> by congruence.
        destruct (decide (Z.to_nat y' = Z.to_nat y)) as [Ey|Ey].
        -- rewrite Ey in Hcell'. assert (cell' = cell) as -> by congruence.
           exists x', y', (cell ++ [n]). repeat split; try assumption; try lia.
           ++ apply cell_at_lookup; [lia|lia|].
              exists (<[Z.to_nat y := cell ++ [n]]> col). cbn [grid placed Mesa.cells].
              rewrite Ex, Ey. split.
              ** apply list_lookup_insert_eq. now apply lookup_lt_Some in Hcol.
              ** apply list_lookup_insert_eq. now apply lookup_lt_Some in Hcell.
           ++ apply elem_of_app. now left.
        -- exists x', y', cell'. repeat split; try assumption; try lia.
           apply cell_at_lookup; [lia|lia|].
           exists (<[Z.to_nat y := cell ++ [n]]> col). cbn [grid placed Mesa.cells].
           rewrite Ex. split.
           ** apply list_lookup_insert_eq. now apply lookup_lt_Some in Hcol.
           ** rewrite list_lookup_insert_ne by congruence. exact Hcell'.
      * exists x', y', cell'. repeat split; try assumption; try lia.
        apply cell_at_lookup; [lia|lia|].
        exists col'. cbn [grid placed Mesa.cells].
        rewrite list_lookup_insert_ne by congruence. auto.
    + fold n in Hge, Hr. destruct (r - n)%nat as [|k] eqn:Ek; [|destruct k; discriminate].
      injection Hr as <-. exists x, y, (cell ++ [n]). cbn [pos].
      assert (r = n) as -> by lia.
      repeat split; try lia.
      * apply cell_at_lookup; [lia|lia|].
        exists (<[Z.to_nat y := cell ++ [n]]> col). cbn [grid placed Mesa.cells]. split.
        -- apply list_lookup_insert_eq. now apply lookup_lt_Some in Hcol.
        -- apply list_lookup_insert_eq. now apply lookup_lt_Some in Hcell.
      * apply elem_of_app. right. now left.
Qed.

Lemma for_each_returns_inv {S A} (I : list A -> S -> Prop) (body : A -> prog S unit) :
  (forall done x s t s', I done s -> body x s = (t, Returns tt s') -> I (done ++ [x]) s') ->
  forall l done s t s',
    I done s -> for_each l body s = (t, Returns tt s') -> I (done ++ l) s'.
Proof.
  intros Hb. induction l as [|x l IH]; intros done s t s' HI; cbn [for_each].
  - intros [= <- <-]. now rewrite app_nil_r.
  - unfold mbind, prog_bind.
    destruct (body x s) as [t1 [[] s1|e s1]] eqn:E1; [|discriminate].
    destruct (for_each l body s1) as [t2 o2] eqn:E2. intros [= <- ->].
    replace (done ++ x :: l) with ((done ++ [x]) ++ l) by now rewrite <- app_assoc.
    eapply IH; [|exact E2]. eapply Hb; eauto.
Qed.

Lemma on_grid_init w h t : on_grid (Mesa.MultiGrid_init w h t) = [].
Proof.
  unfold on_grid, Mesa.MultiGrid_init. cbn [Mesa.cells].
  assert (E : concat (replicate h ([] : list nat)) = [])
    by (induction h; cbn; auto).
  induction w as [|w IH]; cbn; [reflexivity|]. now rewrite E, IH.
Qed.

Lemma FarmerModel_init_inv rng N w h wd d t m :
  FarmerModel_init rng N w h wd d = (t, Returns tt m) ->
  placement_inv w m /\ unique_id <$> agents m = range N.
Proof.
  unfold FarmerModel_init. intros Hrun.
  apply (for_each_returns_inv
           (fun done s => placement_inv w s /\ unique_id <$> agents s = done)
           (create_agent wd)) with (done := []) in Hrun; [exact Hrun| |].
  - intros done i s t' s' [Hinv Hids] Hc.
    apply create_agent_returns_inv in Hc as (Ew & col & cell & Hcol & Hcell & -> & ->).
    destruct Hinv as (Hw & Hrest). rewrite Hw in Ew. split.
    + apply placement_inv_placed; [split|..]; assumption.
    + cbn [agents placed]. now rewrite fmap_app, Hids.
  - split; [|reflexivity]. split; [reflexivity|]. split; [reflexivity|]. split.
    + cbn [grid FarmerModel_new agents]. now rewrite on_grid_init.
    + intros r a Hr. destruct r; discriminate.
Qed.

Lemma for_each_returns {S A} (I : S -> Prop) (body : A -> prog S unit) :
  (forall x s, I s -> exists s', body x s = ([], Returns tt s') /\ I s') ->
  forall l s, I s -> exists s', for_each l body s = ([], Returns tt s') /\ I s'.
Proof.
  intros Hb. induction l as [|x l IH]; intros s HI; cbn [for_each].
  - exists s. split; [reflexivity|exact HI].
  - destruct (Hb x s HI) as (s1 & E1 & HI1). destruct (IH s1 HI1) as (s2 & E2 & HI2).
    exists s2. split; [|exact HI2].
    rewrite (bind_returns _ _ _ _ _ _ E1). now rewrite E2.
Qed.

Lemma FarmerModel_init_returns rng N w h wd d :
  (3 <= w <= h + 1)%nat ->
  exists m, FarmerModel_init rng N w h wd d = ([], Returns tt m).
Proof.
  intros Hwh. unfold FarmerModel_init.
  destruct (for_each_returns
              (fun s => grid_wf (grid s) /\ Mesa.width (grid s) = w /\ Mesa.height (grid s) = h)
              (create_agent wd)) with (l := range N) (s := FarmerModel_new rng N w h d)
    as (m & E & _).
  - intros i s ((Hlen & Hcols) & Hw & Hh).
    assert (Ew : 0 < Z.of_nat (Mesa.width (grid s)) - 2) by lia.
    destruct (drawn_bounds s Ew) as [Hx Hy].
    destruct (lookup_lt_is_Some_2 (Mesa.cells (grid s)) (Z.to_nat (drawn_x s)))
      as [col Hcol]; [lia|].
    assert (Hc : length col = Mesa.height (grid s)).
    { apply (proj1 (Forall_forall _ _) Hcols).
      apply list_elem_of_lookup. eauto. }
    destruct (lookup_lt_is_Some_2 col (Z.to_nat (drawn_y s))) as [cell Hcell]; [lia|].
    eexists. split; [apply (create_agent_returns _ _ _ _ _ Ew Hcol Hcell)|].
    cbn [grid placed Mesa.width Mesa.height]. split; [|auto].
    split; cbn [Mesa.cells Mesa.width Mesa.height].
    + now rewrite length_insert.
    + apply Forall_insert; [exact Hcols|]. now rewrite length_insert.
  - cbn. split; [|auto]. split; cbn.
    + apply length_replicate.
    + apply Forall_replicate. apply length_replicate.
  - eauto.
Qed.

(** ** What a step leaves in place *)

Lemma invariant_bind {S A B} (I : S -> Prop) (m : prog S A) (f : A -> prog S B) :
  invariant I m -> (forall a, invariant I (f a)) -> invariant I (m ≫= f).
Proof.
  intros Hm Hf s HI. specialize (Hm s HI).
  unfold mbind, prog_bind, final_state in *.
  destruct (m s) as [t [a s'|e s']]; cbn in Hm.
  - specialize (Hf a s' Hm). unfold final_state in Hf.
    destruct (f a s') as [t' o]. exact Hf.
  - exact Hm.
Qed.

Lemma invariant_read_only {S A} (I : S -> Prop) (m : prog S A) :
  read_only m -> invariant I m.
Proof. intros Hr s HI. now rewrite Hr. Qed.

Lemma invariant_for_each {S A} (I : S -> Prop) (l : list A) (body : A -> prog S unit) :
  (forall x, invariant I (body x)) -> invariant I (for_each l body).
Proof.
  intros Hb. induction l as [|x l IH]; cbn [for_each].
  - apply invariant_read_only, read_only_ret.
  - apply invariant_bind; [apply Hb|intros _; exact IH].
Qed.

Lemma invariant_put {S} (I : S -> Prop) (s' : S) : I s' -> invariant I (put s').
Proof. intros H s _. exact H. Qed.

Lemma invariant_zoom {S T A} (I : S -> Prop) (J : T -> Prop)
    (proj : S -> T) (upd : T -> S -> S) (m : prog T A) :
  invariant J m ->
  (forall s, I s -> J (proj s)) ->
  (forall s x, I s -> J x -> I (upd x s)) ->
  invariant I (zoom proj upd m).
Proof.
  intros Hm Hp Hu s HI. specialize (Hm (proj s) (Hp s HI)).
  unfold zoom, final_state in *.
  destruct (m (proj s)) as [t [a x|e x]]; cbn in *; now apply Hu.
Qed.

Lemma pos_alter_set_pumping b r (l : list FarmerAgent) :
  pos <$> alter (set_pumping b) r l = pos <$> l.
Proof.
  apply list_eq. intros i. rewrite !list_lookup_fmap.
  destruct (decide (r = i)) as [->|Hne].
  - rewrite list_lookup_alter_eq. now destruct (l !! i).
  - now rewrite list_lookup_alter_ne.
Qed.

Lemma FarmerAgent_step_invariant (I : FarmerModel -> Prop) r :
  (forall b m, I m -> I (set_agents (alter (set_pumping b) r) m)) ->
  invariant I (FarmerAgent_step r).
Proof.
  intros HI. unfold FarmerAgent_step.
  apply invariant_bind; [apply invariant_read_only, read_only_deref|intros a].
  apply invariant_bind.
  { apply invariant_read_only. destruct (pos a); [apply read_only_ret|apply read_only_raise]. }
  intros [x y]. intros m Hm. unfold final_state. run.
  destruct (wt_depth_2d m); run; [|exact Hm].
  destruct (np_getitem2 n x y); run; [|exact Hm].
  destruct (geb a0 (well_depth a)); run; now apply HI.
Qed.

Lemma FarmerModel_step_invariant (I : FarmerModel -> Prop) order :
  (forall b r m, I m -> I (set_agents (alter (set_pumping b) r) m)) ->
  (forall w m, I m -> I (set_wt_depth_2d w m)) ->
  invariant I (FarmerModel_step order).
Proof.
  intros Ha Hw. unfold FarmerModel_step, schedule_step. intros m Hm.
  unfold final_state. run.
  destruct (np_reshape2 _ _ _) as [w|e]; run; [|exact Hm].
  pose proof (invariant_for_each I order FarmerAgent_step
                (fun r => FarmerAgent_step_invariant I r (fun b => Ha b r))
                (set_wt_depth_2d w m) (Hw w m Hm)) as H.
  unfold final_state in H.
  destruct (for_each order FarmerAgent_step (set_wt_depth_2d w m)) as [t o]. exact H.
Qed.

Lemma FarmerModel_step_places order m :
  pos <$> agents (final_state (FarmerModel_step order m)) = pos <$> agents m /\
  grid (final_state (FarmerModel_step order m)) = grid m /\
  schedule (final_state (FarmerModel_step order m)) = schedule m.
Proof.
  apply (FarmerModel_step_invariant
           (fun s => pos <$> agents s = pos <$> agents m /\ grid s = grid m /\
                     schedule s = schedule m)).
  - intros b r s (Hp & Hg & Hs). cbn. now rewrite pos_alter_set_pumping.
  - intros w s H. exact H.
  - auto.
Qed.

(** C10. [FarmerModel.__init__] gives every agent the identifier of its turn
    and stores it exactly once on the grid, in the cell named by its
    position (x, y), where 1 <= x <= width - 2 and 1 <= y <= width - 2: both
    bounds come from the width.  The construction succeeds on every grid
    with 3 <= width <= height + 1.  No step of the model changes a position
    or a cell.  On a square grid the position is therefore never on the
    perimeter; on the grid of width 4 and height 3 an agent can be placed at
    y = 2, which is the last row. *)
Theorem farmers_placed_once_inside :
  (forall rng N w h wd d t m,
     FarmerModel_init rng N w h wd d = (t, Returns tt m) ->
     unique_id <$> agents m = range N /\
     on_grid (grid m) ≡ₚ seq 0 (length (agents m)) /\
     forall r a, agents m !! r = Some a ->
       exists x y cell,
         pos a = Some (x, y) /\
         1 <= x <= Z.of_nat w - 2 /\ 1 <= y <= Z.of_nat w - 2 /\
         Mesa.cell_at (grid m) (x, y) = Ok cell /\ r ∈ cell /\
         (w = h -> 1 <= y <= Z.of_nat h - 2)) /\
  (forall rng N w h wd d,
     (3 <= w <= h + 1)%nat ->
     exists m, FarmerModel_init rng N w h wd d = ([], Returns tt m)) /\
  (forall order m,
     pos <$> agents (final_state (FarmerModel_step order m)) = pos <$> agents m /\
     grid (final_state (FarmerModel_step order m)) = grid m) /\
  (exists m a,
     FarmerModel_init {| draws := fun _ => 1; cursor := 0 |} 1 4%nat 3%nat 5
       (NDArray [3; 4] (replicate 12 0%float)) = ([], Returns tt m) /\
     agents m !! 0%nat = Some a /\ pos a = Some (2, 2) /\
     Z.of_nat (Mesa.height (grid m)) - 1 = 2).
Proof.
  split; [|split; [|split]].
  - intros rng N w h wd d t m Hinit.
    destruct (FarmerModel_init_inv _ _ _ _ _ _ _ _ Hinit) as ((Hw & Hs & Hg & Ha) & Hids).
    split; [exact Hids|]. split; [exact Hg|].
    intros r a Hr. destruct (Ha r a Hr) as (x & y & cell & Hp & Hx & Hy & Hc & Hin).
    exists x, y, cell. repeat split; try assumption; try lia.
  - apply FarmerModel_init_returns.
  - intros order m. destruct (FarmerModel_step_places order m) as (Hp & Hg & _). auto.
  - eexists _, _. split; [reflexivity|]. split; [reflexivity|]. split; reflexivity.
Qed.

Lemma farmers_placed_once_inside_witness :
  unique_id <$> agents two_farmers = range 2 /\
  on_grid (grid two_farmers) ≡ₚ seq 0 (length (agents two_farmers)) /\
  forall r a, agents two_farmers !! r = Some a ->
    exists x y cell,
      pos a = Some (x, y) /\
      1 <= x <= Z.of_nat 4%nat - 2 /\ 1 <= y <= Z.of_nat 4%nat - 2 /\
      Mesa.cell_at (grid two_farmers) (x, y) = Ok cell /\ r ∈ cell /\
      (4%nat = 4%nat -> 1 <= y <= Z.of_nat 4%nat - 2).
Proof.
  apply (proj1 farmers_placed_once_inside
           {| draws := fun k => Z.of_nat k / 2; cursor := 0 |} 2 4%nat 4%nat 5%float
           two_farmers_field [] two_farmers).
  vm_compute. reflexivity.
Defined.

(** ** The shape of the field the agents observe *)

Lemma np_reshape2_nonneg {A} (a : ndarray A) d0 d1 v :
  0 <= d0 -> 0 <= d1 ->
  np_reshape2 a d0 d1 = Ok v ->
  np_size v = d0 * d1 /\ shape v = [d0; d1] /\ data v = data a.
Proof.
  intros H0 H1. unfold np_reshape2.
  assert ((d0 <? -1) = false) as -> by lia.
  assert ((d1 <? -1) = false) as -> by lia.
  assert ((d0 =? -1) = false) as -> by lia.
  assert ((d1 =? -1) = false) as -> by lia. cbn.
  destruct (d0 * d1 =? np_size a) eqn:E; [|discriminate].
  intros [= <-]. apply Z.eqb_eq in E. unfold np_size in *. cbn. auto.
Qed.

Lemma np_reshape2_ok {A} (a : ndarray A) d0 d1 :
  0 <= d0 -> 0 <= d1 -> np_size a = d0 * d1 ->
  np_reshape2 a d0 d1 = Ok (NDArray [d0; d1] (data a)).
Proof.
  intros H0 H1 Hs. unfold np_reshape2.
  assert ((d0 <? -1) = false) as -> by lia.
  assert ((d1 <? -1) = false) as -> by lia.
  assert ((d0 =? -1) = false) as -> by lia.
  assert ((d1 =? -1) = false) as -> by lia. cbn.
  now rewrite Hs, Z.eqb_refl.
Qed.

Lemma np_broadcast_length {A} n (v v' : list A) :
  np_broadcast n v = Ok v' -> length v' = n.
Proof.
  unfold np_broadcast. destruct (decide (length v = n)) as [E|E].
  - now intros [= <-].
  - destruct v as [|x [|y v]]; try discriminate.
    intros [= <-]. apply length_replicate.
Qed.

Lemma FarmerModel_step_observes order m v :
  np_reshape2 (depth_to_water_table m)
    (Z.of_nat (Mesa.width (grid m))) (Z.of_nat (Mesa.height (grid m))) = Ok v ->
  wt_depth_2d (final_state (FarmerModel_step order m)) = Some v.
Proof.
  intros Hr. rewrite (FarmerModel_step_reshaped _ _ _ Hr).
  pose proof (invariant_for_each (fun s => wt_depth_2d s = Some v) order FarmerAgent_step
                (fun r => FarmerAgent_step_invariant
                            (fun s => wt_depth_2d s = Some v) r (fun b s H => H))
                (set_wt_depth_2d v m) eq_refl) as H.
  unfold final_state in *.
  destruct (for_each order FarmerAgent_step (set_wt_depth_2d v m)) as [t o]. exact H.
Qed.

Lemma grids_match_reshape nr nc m :
  grids_match nr nc m ->
  np_reshape2 (depth_to_water_table m)
    (Z.of_nat (Mesa.width (grid m))) (Z.of_nat (Mesa.height (grid m)))
  = Ok (NDArray [Z.of_nat (Mesa.width (grid m)); Z.of_nat (Mesa.height (grid m))]
          (data (depth_to_water_table m))).
Proof.
  intros ((_ & Hsize) & Hshape & Hw & Hh).
  apply np_reshape2_ok; [lia|lia|].
  rewrite Hsize, Hshape, Hw, Hh. cbn. lia.
Qed.

Lemma invariant_trivial {S A} (m : prog S A) : invariant (fun _ => True) m.
Proof. intros s _. exact I. Qed.

Section GroundwaterInvariants.
Import Groundwater.
Context {G : Type} `{Simulation G}.
Variable p : Params.

(** A property of the farmer model is kept by what runs on the grid. *)
Lemma invariant_on_sim {A} (J : FarmerModel -> Prop) (m : prog (Landlab G) A) :
  invariant (fun w : World G => J (farmer_model w)) (zoom sim set_sim m).
Proof.
  apply (invariant_zoom _ (fun _ => True)); [apply invariant_trivial|auto|auto].
Qed.

Lemma invariant_on_farmer_model {A} (J : FarmerModel -> Prop) (m : prog FarmerModel A) :
  invariant J m ->
  invariant (fun w : World G => J (farmer_model w)) (zoom farmer_model set_farmer_model m).
Proof. intros Hm. apply (invariant_zoom _ J); auto. Qed.

Lemma update_depth_grids_match nr nc :
  invariant (fun w : World G => grids_match nr nc (farmer_model w)) update_depth.
Proof.
  intros w ((Hdims & Hsize) & Hshape & Hw & Hh). unfold update_depth, final_state. run.
  destruct (np_binop _ _ _) as [v|e]; run; [|repeat split; assumption].
  destruct (np_assign _ v) as [v'|e] eqn:E; run; [|repeat split; assumption].
  apply np_broadcast_length in E.
  repeat split; cbn; try assumption.
  unfold np_size in *. cbn. now rewrite E.
Qed.

Lemma write_recharge_farmer_model (J : FarmerModel -> Prop) c :
  invariant (fun w : World G => J (farmer_model w)) (write_recharge p c).
Proof.
  intros w HJ. unfold write_recharge, final_state. run.
  destruct (py_div _ _) as [r|e]; run; [|exact HJ].
  destruct (np_assign _ _) as [v'|e]; run; exact HJ.
Qed.

Lemma FarmerModel_step_grids_match nr nc order :
  invariant (grids_match nr nc) (FarmerModel_step order).
Proof. apply FarmerModel_step_invariant; intros; assumption. Qed.

Lemma year_grids_match order i :
  invariant (fun w : World G => grids_match (nr p) (nc p) (farmer_model w)) (year p order i).
Proof.
  unfold year.
  apply invariant_bind; [apply invariant_read_only, read_only_emit|intros _].
  apply invariant_bind; [apply invariant_on_sim|intros _].
  apply invariant_bind; [apply update_depth_grids_match|intros _].
  apply invariant_bind;
    [apply invariant_on_farmer_model, FarmerModel_step_grids_match|intros _].
  apply invariant_bind;
    [apply invariant_on_farmer_model, invariant_read_only, read_only_get_well_count|].
  intros counts.
  apply invariant_bind; [apply invariant_read_only, read_only_get|intros w].
  apply invariant_bind; [apply invariant_read_only, read_only_lift|intros _].
  apply write_recharge_farmer_model.
Qed.

Lemma coupling_loop_grids_match orders n :
  invariant (fun w : World G => grids_match (nr p) (nc p) (farmer_model w))
    (coupling_loop p orders n).
Proof. apply invariant_for_each. intros i. apply year_grids_match. Qed.
End GroundwaterInvariants.

Lemma limit_grass_by_soil_no_reshape {R} (m : WolfSheepGrass.WolfSheep R) soil min_depth e :
  np_reshape2 soil (Z.of_nat (WolfSheepGrass.width m)) (Z.of_nat (WolfSheepGrass.height m))
    = Raise e ->
  WolfSheepGrass.limit_grass_by_soil soil min_depth m = ([ev_observe], Raises e m).
Proof.
  intros Hr. unfold WolfSheepGrass.limit_grass_by_soil. run. now rewrite Hr.
Qed.

(** C3. The field that a step hands to the agents has exactly width x height
    cells and the shape of the agent grid: in [FarmerModel.step] the reshape
    either produces such an array, which the step then stores for the agents
    to read, or raises at once with no agent activated; when the field of the
    simulation grid has the shape (nr, nc) and the agent grid the same
    dimensions (width nc, height nr) the reshape returns.  These matching
    dimensions survive the loop and every statement of its body, so they hold
    whenever a step of the loop reshapes.  The same holds of the soil matrix
    of [limit_grass_by_soil]. *)
Theorem observed_field_matches_grid :
  (forall order m,
     let W := Z.of_nat (Mesa.width (grid m)) in
     let H := Z.of_nat (Mesa.height (grid m)) in
     match np_reshape2 (depth_to_water_table m) W H with
     | Ok v =>
         np_size v = W * H /\ shape v = [W; H] /\
         wt_depth_2d (final_state (FarmerModel_step order m)) = Some v
     | Raise e => FarmerModel_step order m = ([ev_observe], Raises e m)
     end) /\
  (forall nr nc m,
     grids_match nr nc m ->
     exists v,
       np_reshape2 (depth_to_water_table m)
         (Z.of_nat (Mesa.width (grid m))) (Z.of_nat (Mesa.height (grid m))) = Ok v) /\
  (forall G (sim : Groundwater.Simulation G) p orders n order i,
     let J := fun w : Groundwater.World G =>
                grids_match (Groundwater.nr p) (Groundwater.nc p)
                  (Groundwater.farmer_model w) in
     invariant J (Groundwater.coupling_loop p orders n) /\
     invariant J (Groundwater.year p order i) /\
     invariant J (zoom Groundwater.sim Groundwater.set_sim
                    (Groundwater.run_for_one_year (Groundwater.dt p))) /\
     invariant J Groundwater.update_depth) /\
  (forall R (m : WolfSheepGrass.WolfSheep R) soil min_depth,
     let W := Z.of_nat (WolfSheepGrass.width m) in
     let H := Z.of_nat (WolfSheepGrass.height m) in
     (np_size soil = W * H -> exists v, np_reshape2 soil W H = Ok v) /\
     match np_reshape2 soil W H with
     | Ok v => np_size v = W * H /\ shape v = [W; H]
     | Raise e =>
         WolfSheepGrass.limit_grass_by_soil soil min_depth m = ([ev_observe], Raises e m)
     end).
Proof.
  split; [|split; [|split]].
  - intros order m W H.
    destruct (np_reshape2 (depth_to_water_table m) W H) as [v|e] eqn:Hr.
    + destruct (np_reshape2_nonneg _ _ _ _ (Nat2Z.is_nonneg _) (Nat2Z.is_nonneg _) Hr)
        as (Hs & Hsh & _).
      repeat split; try assumption. now apply FarmerModel_step_observes.
    + now apply FarmerModel_step_no_reshape.
  - intros nr nc m HJ. eexists. now apply (grids_match_reshape nr nc).
  - intros G sim p orders n order i J. subst J. split; [|split; [|split]].
    + apply (@coupling_loop_grids_match G sim).
    + apply (@year_grids_match G sim).
    + apply (@invariant_on_sim G _ (grids_match (Groundwater.nr p) (Groundwater.nc p))).
    + apply (@update_depth_grids_match G).
  - intros R m soil min_depth W H. split.
    + intros Hs. eexists. apply np_reshape2_ok; [apply Nat2Z.is_nonneg..|exact Hs].
    + destruct (np_reshape2 soil W H) as [v|e] eqn:Hr.
      * destruct (np_reshape2_nonneg _ _ _ _ (Nat2Z.is_nonneg _) (Nat2Z.is_nonneg _) Hr)
          as (Hs & Hsh & _). auto.
      * now apply limit_grass_by_soil_no_reshape.
Qed.

Lemma observed_field_matches_grid_witness :
  exists v,
    np_reshape2 (depth_to_water_table two_farmers)
      (Z.of_nat (Mesa.width (grid two_farmers)))
      (Z.of_nat (Mesa.height (grid two_farmers))) = Ok v.
Proof.
  apply (proj1 (proj2 observed_field_matches_grid) 4 4 two_farmers).
  vm_compute. repeat split; try reflexivity.
  repeat constructor; discriminate.
Defined.

(** ** The events of a computation *)

Lemma emits_ret {S A} (a : A) : emits (mret a : prog S A) [].
Proof. intros s. reflexivity. Qed.

Lemma emits_get {S} : emits (@get S) [].
Proof. intros s. reflexivity. Qed.

Lemma emits_put {S} (s' : S) : emits (put s') [].
Proof. intros s. reflexivity. Qed.

Lemma emits_emit {S} ev : emits (@emit S ev) [ev].
Proof. intros s. reflexivity. Qed.

Lemma emits_raise {S A} e T : emits (@raise S A e) T.
Proof. intros s. apply prefix_nil. Qed.

Lemma emits_lift {S A} (r : result A) : emits (@lift S A r) [].
Proof. intros s. destruct r; [reflexivity|apply prefix_nil]. Qed.

Lemma emits_call {S A} (f : S -> outcome S A) : emits (call f) [].
Proof. intros s. unfold call. destruct (f s); [reflexivity|apply prefix_nil]. Qed.

Lemma emits_bind {S A B} (m : prog S A) (f : A -> prog S B) T1 T2 :
  emits m T1 -> (forall a, emits (f a) T2) -> emits (m ≫= f) (T1 ++ T2).
Proof.
  intros Hm Hf s. specialize (Hm s). unfold mbind, prog_bind.
  destruct (m s) as [t [a s'|e s']].
  - subst t. specialize (Hf a s'). destruct (f a s') as [t' [b s''|e s'']].
    + now subst.
    + now apply prefix_app.
  - now apply prefix_app_r.
Qed.

Lemma emits_zoom {S T A} (proj : S -> T) (upd : T -> S -> S) (m : prog T A) Tr :
  emits m Tr -> emits (zoom proj upd m) Tr.
Proof.
  intros Hm s. specialize (Hm (proj s)). unfold zoom.
  destruct (m (proj s)) as [t [a x|e x]]; exact Hm.
Qed.

Lemma emits_for_each {S A} (l : list A) (body : A -> prog S unit) (T : A -> list event) :
  (forall x, emits (body x) (T x)) -> emits (for_each l body) (concat (T <$> l)).
Proof.
  intros Hb. induction l as [|x l IH]; cbn [for_each].
  - apply emits_ret.
  - cbn. apply emits_bind; [apply Hb|intros _; exact IH].
Qed.

Lemma emits_for_each_silent {S A} (l : list A) (body : A -> prog S unit) :
  (forall x, emits (body x) []) -> emits (for_each l body) [].
Proof.
  intros Hb. induction l as [|x l IH]; cbn [for_each].
  - apply emits_ret.
  - apply (emits_bind _ _ [] []); [apply Hb|intros _; exact IH].
Qed.

Lemma emits_for_fold_silent {S A B} (l : list A) (body : A -> B -> prog S B) :
  (forall x acc, emits (body x acc) []) -> forall acc, emits (for_fold l body acc) [].
Proof.
  intros Hb. induction l as [|x l IH]; intros acc; cbn [for_fold].
  - apply emits_ret.
  - apply (emits_bind _ _ [] []); [apply Hb|exact IH].
Qed.

Ltac silent :=
  repeat first
    [ apply emits_ret | apply emits_get | apply emits_put | apply emits_raise
    | apply emits_lift | apply emits_call
    | apply (emits_bind _ _ [] []); [|intros ?]
    | apply emits_for_fold_silent; intros ? ?
    | apply emits_for_each_silent; intros ?
    | match goal with |- emits (match ?x with _ => _ end) _ => destruct x end
    | match goal with |- emits (if ?x then _ else _) _ => destruct x end ].

Lemma emits_FarmerAgent_step r : emits (FarmerAgent_step r) [].
Proof. unfold FarmerAgent_step, deref. silent. Qed.

Lemma emits_FarmerModel_step order :
  emits (FarmerModel_step order) [ev_observe; ev_schedule_step].
Proof.
  unfold FarmerModel_step, schedule_step.
  apply (emits_bind _ _ [] [ev_observe; ev_schedule_step]); [apply emits_get|intros m].
  apply (emits_bind _ _ [ev_observe] [ev_schedule_step]); [apply emits_emit|intros _].
  apply (emits_bind _ _ [] [ev_schedule_step]); [apply emits_lift|intros a].
  apply (emits_bind _ _ [] [ev_schedule_step]); [apply emits_put|intros _].
  apply (emits_bind _ _ [ev_schedule_step] []); [apply emits_emit|intros _].
  apply emits_for_each_silent. intros r. apply emits_FarmerAgent_step.
Qed.

Lemma emits_get_well_count nr nc : emits (get_well_count nr nc) [ev_aggregate].
Proof.
  unfold get_well_count, count_cell, count_pumping, deref.
  apply (emits_bind _ _ [ev_aggregate] []); [apply emits_emit|intros _]. silent.
Qed.

Lemma emits_generate_grass_map {R} :
  emits (@WolfSheepGrass.generate_grass_map R) [ev_aggregate].
Proof.
  unfold WolfSheepGrass.generate_grass_map, WolfSheepGrass.mark_cell,
    WolfSheepGrass.mark_grass, WolfSheepGrass.deref.
  apply (emits_bind _ _ [ev_aggregate] []); [apply emits_emit|intros _]. silent.
Qed.

Lemma emits_limit_grass_by_soil {R} soil min_depth :
  emits (@WolfSheepGrass.limit_grass_by_soil R soil min_depth) [ev_observe].
Proof.
  unfold WolfSheepGrass.limit_grass_by_soil, WolfSheepGrass.limit_cell,
    WolfSheepGrass.damage_grass, WolfSheepGrass.deref.
  apply (emits_bind _ _ [ev_observe] []); [apply emits_emit|intros _]. silent.
Qed.

Lemma emits_lift_bind {S A B} (r : result A) (f : A -> prog S B) T :
  (forall a, r = Ok a -> emits (f a) T) -> emits (lift r ≫= f) T.
Proof.
  intros Hf s. destruct r as [a|e]; run.
  - specialize (Hf a eq_refl s). destruct (f a s) as [t o]. exact Hf.
  - apply prefix_nil.
Qed.

Lemma concat_singletons {A B} (x : B) (l : list A) :
  concat ((fun _ => [x]) <$> l) = replicate (length l) x.
Proof. induction l as [|a l IH]; cbn; [reflexivity|now rewrite IH]. Qed.

Lemma length_range n : length (range n) = Z.to_nat n.
Proof. unfold range. now rewrite length_fmap, length_seq. Qed.

Section GroundwaterEvents.
Import Groundwater.
Context {G : Type} `{Simulation G}.
Variable p : Params.

Lemma emits_run_one_step dt : emits (run_one_step dt) [ev_run_one_step dt].
Proof.
  unfold run_one_step.
  apply (emits_bind _ _ [ev_run_one_step dt] []); [apply emits_emit|intros _].
  apply emits_call.
Qed.

Lemma emits_run_for_one_year dt :
  emits (run_for_one_year dt) (ev_run_for_one_year :: year_calls dt).
Proof.
  unfold run_for_one_year.
  apply (emits_bind _ _ [ev_run_for_one_year]); [apply emits_emit|intros _].
  apply emits_lift_bind. intros q Hq. apply emits_lift_bind. intros k Hk.
  unfold year_calls. rewrite Hq. cbn [mbind result_bind]. rewrite Hk.
  rewrite <- length_range, <- concat_singletons.
  apply emits_for_each. intros _. apply emits_run_one_step.
Qed.

Lemma emits_update_depth : emits (update_depth (G := G)) [ev_derive_field].
Proof.
  unfold update_depth.
  apply (emits_bind _ _ [ev_derive_field] []); [apply emits_emit|intros _]. silent.
Qed.

Lemma emits_write_recharge c : emits (write_recharge (G := G) p c) [ev_write_forcing].
Proof.
  unfold write_recharge.
  apply (emits_bind _ _ [ev_write_forcing] []); [apply emits_emit|intros _]. silent.
Qed.

Lemma emits_year order i : emits (year p order i) (year_trace (dt p) i).
Proof.
  unfold year, year_trace.
  apply (emits_bind _ _ [ev_iteration i]); [apply emits_emit|intros _].
  change (ev_run_for_one_year :: year_calls (dt p) ++
          [ev_derive_field; ev_observe; ev_schedule_step; ev_aggregate; ev_write_forcing])
    with ((ev_run_for_one_year :: year_calls (dt p)) ++
          [ev_derive_field] ++ [ev_observe; ev_schedule_step] ++ [ev_aggregate] ++
          [] ++ [] ++ [ev_write_forcing]).
  apply emits_bind; [apply emits_zoom, emits_run_for_one_year|intros _].
  apply emits_bind; [apply emits_update_depth|intros _].
  apply emits_bind; [apply emits_zoom, emits_FarmerModel_step|intros _].
  apply emits_bind; [apply emits_zoom, emits_get_well_count|intros counts].
  apply emits_bind; [apply emits_get|intros w].
  apply emits_bind; [apply emits_lift|intros _].
  apply emits_write_recharge.
Qed.

Lemma emits_coupling_loop orders n :
  emits (coupling_loop p orders n) (concat (year_trace (dt p) <$> range n)).
Proof.
  unfold coupling_loop. apply emits_for_each. intros i. apply emits_year.
Qed.
End GroundwaterEvents.

Section WolfSheepGrassEvents.
Import WolfSheepGrass.
Context {R D : Type} `{Population R} `{Simulation D}.
Variable p : Params.

Lemma emits_assign_creep gm k v :
  emits (assign_creep (R := R) (D := D) gm k v) [ev_write_forcing].
Proof.
  unfold assign_creep.
  apply (emits_bind _ _ [ev_write_forcing] []); [apply emits_emit|intros _]. silent.
Qed.

Lemma emits_iteration i : emits (iteration p i) (iteration_trace (dt p) i).
Proof.
  unfold iteration, iteration_trace.
  apply (emits_bind _ _ [ev_iteration i]); [apply emits_emit|intros _].
  apply (emits_bind _ _ [ev_aggregate]);
    [apply emits_zoom, emits_generate_grass_map|intros gm].
  apply (emits_bind _ _ [ev_write_forcing]); [apply emits_assign_creep|intros _].
  apply (emits_bind _ _ [ev_write_forcing]); [apply emits_assign_creep|intros _].
  apply (emits_bind _ _ [ev_write_forcing]).
  { unfold scale_creep.
    apply (emits_bind _ _ [ev_write_forcing] []); [apply emits_emit|intros _]. silent. }
  intros _. apply (emits_bind _ _ [ev_save_prior]).
  { unfold save_prior.
    apply (emits_bind _ _ [ev_save_prior] []); [apply emits_emit|intros _]. silent. }
  intros _. apply (emits_bind _ _ [ev_run_one_step (dt p)]).
  { apply emits_zoom. unfold run_one_step.
    apply (emits_bind _ _ [ev_run_one_step (dt p)] []); [apply emits_emit|intros _].
    apply emits_call. }
  intros _. apply (emits_bind _ _ [ev_derive_field]).
  { unfold update_soil.
    apply (emits_bind _ _ [ev_derive_field] []); [apply emits_emit|intros _]. silent. }
  intros _. apply (emits_bind _ _ [] [ev_observe; ev_schedule_step]);
    [apply emits_get|intros w].
  apply (emits_bind _ _ [ev_observe] [ev_schedule_step]);
    [apply emits_zoom, emits_limit_grass_by_soil|intros _].
  apply emits_zoom. unfold step_population.
  apply (emits_bind _ _ [ev_schedule_step] []); [apply emits_emit|intros _].
  apply emits_call.
Qed.

Lemma emits_main_loop n :
  emits (main_loop p n) (concat (iteration_trace (dt p) <$> range n)).
Proof.
  unfold main_loop. apply emits_for_each. intros i. apply emits_iteration.
Qed.
End WolfSheepGrassEvents.

(** ** The order of the phases *)

Lemma squash_advance n l :
  squash (replicate (S n) Advance ++ Derive :: l) = Advance :: squash (Derive :: l).
Proof.
  induction n as [|n IH]; [reflexivity|].
  change (replicate (S (S n)) Advance ++ Derive :: l)
    with (Advance :: (replicate (S n) Advance ++ Derive :: l)).
  cbn [squash]. exact IH.
Qed.

Lemma omap_year_calls dt :
  exists n, omap phase_of (year_calls dt) = replicate n Advance.
Proof.
  unfold year_calls. destruct (_ ≫= python_int) as [k|e]; [|now exists 0%nat].
  exists (Z.to_nat k). induction (Z.to_nat k) as [|n IH]; cbn; [reflexivity|].
  now rewrite IH.
Qed.

Lemma phases_year_trace dt i : phases (year_trace dt i) = spec_order.
Proof.
  unfold phases, year_trace.
  change (omap phase_of (ev_iteration i :: ev_run_for_one_year :: year_calls dt ++
            [ev_derive_field; ev_observe; ev_schedule_step; ev_aggregate; ev_write_forcing]))
    with (Advance :: omap phase_of (year_calls dt ++
            [ev_derive_field; ev_observe; ev_schedule_step; ev_aggregate; ev_write_forcing])).
  rewrite omap_app. destruct (omap_year_calls dt) as [n ->].
  change (Advance :: replicate n Advance ++
            omap phase_of [ev_derive_field; ev_observe; ev_schedule_step; ev_aggregate;
                           ev_write_forcing])
    with (replicate (S n) Advance ++ Derive :: [Observe; Update; Aggregate; Force]).
  rewrite squash_advance. reflexivity.
Qed.

Lemma emits_returned {S A} (m : prog S A) T s :
  emits m T -> (m s).1 `prefix_of` T /\ (returned (m s) -> (m s).1 = T).
Proof.
  intros Hm. specialize (Hm s). unfold returned.
  destruct (m s) as [t [a s'|e s']]; cbn.
  - subst. split; [reflexivity|auto].
  - split; [exact Hm|contradiction].
Qed.

(** C4. In the groundwater loop every iteration runs the six phases in the
    order (a) to (f): the events of a run of the body are those of
    [year_trace] up to the point where the run returned or raised, the
    events of a returning run of the loop are those of its iterations one
    after the other, and the phases of [year_trace] are (a), (b), (c), (d),
    (e), (f).  In the wolf-sheep-grass loop the body runs the same phases
    in the rotated order (e), (f), (a), (b), (c), (d): it starts by
    aggregating the grass map and writing the creep coefficient, and ends
    with the step of the agent model. *)
Theorem phases_in_order :
  (forall G (sim : Groundwater.Simulation G) p order i w,
     let r := Groundwater.year p order i w in
     r.1 `prefix_of` year_trace (Groundwater.dt p) i /\
     (returned r -> r.1 = year_trace (Groundwater.dt p) i /\ phases r.1 = spec_order)) /\
  (forall G (sim : Groundwater.Simulation G) p orders n w,
     let r := Groundwater.coupling_loop p orders n w in
     returned r -> r.1 = concat (year_trace (Groundwater.dt p) <$> range n)) /\
  (forall R D (pop : WolfSheepGrass.Population R) (sim : WolfSheepGrass.Simulation D) p i w,
     let r := WolfSheepGrass.iteration p i w in
     r.1 `prefix_of` iteration_trace (WolfSheepGrass.dt p) i /\
     (returned r ->
      r.1 = iteration_trace (WolfSheepGrass.dt p) i /\ phases r.1 = rotated_order)) /\
  (forall R D (pop : WolfSheepGrass.Population R) (sim : WolfSheepGrass.Simulation D) p n w,
     let r := WolfSheepGrass.main_loop p n w in
     returned r -> r.1 = concat (iteration_trace (WolfSheepGrass.dt p) <$> range n)).
Proof.
  split; [|split; [|split]].
  - intros G sim p order i w r.
    destruct (emits_returned _ _ w (@emits_year G sim p order i)) as [Hp Hr].
    split; [exact Hp|]. intros Hret. specialize (Hr Hret). subst r.
    split; [exact Hr|]. rewrite Hr. apply phases_year_trace.
  - intros G sim p orders n w r.
    apply (emits_returned _ _ w (@emits_coupling_loop G sim p orders n)).
  - intros R D pop sim p i w r.
    destruct (emits_returned _ _ w (@emits_iteration R D pop sim p i)) as [Hp Hr].
    split; [exact Hp|]. intros Hret. specialize (Hr Hret). subst r.
    split; [exact Hr|]. now rewrite Hr.
  - intros R D pop sim p n w r.
    apply (emits_returned _ _ w (@emits_main_loop R D pop sim p n)).
Qed.

(** The iteration of the wolf-sheep-grass loop on the meadow returns, and
    its phases are not in the order (a) to (f). *)
Lemma iteration_not_in_spec_order :
  returned meadow_iteration /\ phases meadow_iteration.1 <> spec_order.
Proof.
  split.
  - vm_compute. exact I.
  - vm_compute. discriminate.
Qed.

Lemma phases_in_order_witness :
  meadow_iteration.1 = iteration_trace (WolfSheepGrass.dt meadow_params) 0 /\
  phases meadow_iteration.1 = rotated_order.
Proof.
  apply (proj2 (proj1 (proj2 (proj2 phases_in_order))
                  unit unit idle_population idle_diffuser meadow_params 0 meadow_world)).
  vm_compute. exact I.
Defined.

Example meadow_after_iteration :
  grass_state <$> WolfSheepGrass.agents (WolfSheepGrass.ws (final_state meadow_iteration))
  = [Some false; Some false; Some false; Some false; None]
  /\ WolfSheepGrass.creep_coef (WolfSheepGrass.rmg (final_state meadow_iteration))
      = [0; 0; 0; 0]%float.
Proof. vm_compute. split; reflexivity. Qed.

(** ** Exceptions leave the loop as they were raised *)

Lemma for_each_raises_at {S A} (body : A -> prog S unit) l1 x l2 s t1 s1 t2 e s2 :
  for_each l1 body s = (t1, Returns tt s1) ->
  body x s1 = (t2, Raises e s2) ->
  for_each (l1 ++ x :: l2) body s = (t1 ++ t2, Raises e s2).
Proof.
  revert s t1. induction l1 as [|y l1 IH]; intros s t1 H1 H2; cbn [for_each app] in *.
  - injection H1 as <- <-. now rewrite (bind_raises _ _ _ _ _ _ H2).
  - unfold mbind, prog_bind in H1 |- *.
    destruct (body y s) as [ty [[] sy|ey sy]]; [|discriminate].
    destruct (for_each l1 body sy) as [tr o] eqn:E. injection H1 as <- ->.
    rewrite (IH sy tr E H2). now rewrite app_assoc.
Qed.

Lemma range_split n i :
  0 <= i < n -> exists l2, range n = range i ++ i :: l2.
Proof.
  intros Hi. unfold range.
  replace (Z.to_nat n) with (Z.to_nat i + S (Z.to_nat n - Z.to_nat i - 1))%nat by lia.
  rewrite seq_app, fmap_app. cbn [seq fmap list_fmap plus].
  rewrite Z2Nat.id by lia. eauto.
Qed.

Lemma zoom_returns {S T A} (proj : S -> T) (upd : T -> S -> S) (m : prog T A) s t a x :
  m (proj s) = (t, Returns a x) -> zoom proj upd m s = (t, Returns a (upd x s)).
Proof. intros E. unfold zoom. now rewrite E. Qed.

Lemma zoom_raises {S T A} (proj : S -> T) (upd : T -> S -> S) (m : prog T A) s t e x :
  m (proj s) = (t, Raises e x) -> zoom proj upd m s = (t, Raises e (upd x s)).
Proof. intros E. unfold zoom. now rewrite E. Qed.

Lemma emit_returns {S} ev (s : S) : emit ev s = ([ev], Returns tt s).
Proof. reflexivity. Qed.

Lemma get_returns {S} (s : S) : get s = ([], Returns s s).
Proof. reflexivity. Qed.

Ltac returns H := rewrite (bind_returns _ _ _ _ _ _ H).
Ltac raises H := rewrite (bind_raises _ _ _ _ _ _ H).

Lemma run_for_one_year_raises {G} `{Groundwater.Simulation G} dt (g : Groundwater.Landlab G)
    k j tj gj e g' :
  py_div (365.25 * 3600.0 * 24) dt ≫= python_int = Ok k ->
  (j < Z.to_nat k)%nat ->
  for_each (range (Z.of_nat j)) (fun _ => Groundwater.run_one_step dt) g
    = (tj, Returns tt gj) ->
  Groundwater.gdp_run_one_step dt gj = Raises e g' ->
  Groundwater.run_for_one_year dt g
    = (ev_run_for_one_year :: tj ++ [ev_run_one_step dt], Raises e g').
Proof.
  intros Hk Hj Hpre Hraise. unfold Groundwater.run_for_one_year.
  returns (emit_returns ev_run_for_one_year g).
  destruct (py_div (365.25 * 3600.0 * 24) dt) as [q|] eqn:Hq; [|discriminate].
  cbn [mbind result_bind] in Hk.
  assert (Hstep : Groundwater.run_one_step dt gj = ([ev_run_one_step dt], Raises e g')).
  { unfold Groundwater.run_one_step. returns (emit_returns (ev_run_one_step dt) gj).
    unfold call. now rewrite Hraise. }
  destruct (range_split k (Z.of_nat j)) as [l2 Hl]; [lia|].
  unfold lift at 1. run. unfold lift. rewrite Hk. run. rewrite Hl.
  now rewrite (for_each_raises_at _ _ _ _ _ _ _ _ _ _ Hpre Hstep).
Qed.

(** C7. Nothing in the two loops catches an exception.  In the groundwater
    loop, when a call of the solver raises [e] in the course of
    [run_for_one_year], or when [FarmerModel.step] raises [e] after the
    statements before it returned, the body of the loop raises [e], in the
    state in which the callee raised and with no event after the raise; and
    when the body raises [e] in some iteration, the loop raises [e] in that
    state, the iterations that remain are not run.  The same holds in the
    wolf-sheep-grass loop for the call of the diffuser, for the step of the
    agent model and for the loop. *)
Theorem exceptions_propagate :
  (forall G (sim : Groundwater.Simulation G) p order i (w : Groundwater.World G)
          k j tj gj e g',
     py_div (365.25 * 3600.0 * 24) (Groundwater.dt p) ≫= python_int = Ok k ->
     (j < Z.to_nat k)%nat ->
     for_each (range (Z.of_nat j)) (fun _ => Groundwater.run_one_step (Groundwater.dt p))
       (Groundwater.sim w) = (tj, Returns tt gj) ->
     Groundwater.gdp_run_one_step (Groundwater.dt p) gj = Raises e g' ->
     Groundwater.year p order i w
     = (ev_iteration i :: ev_run_for_one_year :: tj ++ [ev_run_one_step (Groundwater.dt p)],
        Raises e (Groundwater.set_sim g' w))) /\
  (forall G (sim : Groundwater.Simulation G) p order i (w : Groundwater.World G)
          t1 w1 t2 w2 t3 e fm',
     zoom Groundwater.sim Groundwater.set_sim
       (Groundwater.run_for_one_year (Groundwater.dt p)) w = (t1, Returns tt w1) ->
     Groundwater.update_depth w1 = (t2, Returns tt w2) ->
     FarmerModel_step order (Groundwater.farmer_model w2) = (t3, Raises e fm') ->
     Groundwater.year p order i w
     = (ev_iteration i :: t1 ++ t2 ++ t3, Raises e (Groundwater.set_farmer_model fm' w2))) /\
  (forall G (sim : Groundwater.Simulation G) p orders n i (w : Groundwater.World G)
          t1 w1 t2 e w2,
     0 <= i < n ->
     Groundwater.coupling_loop p orders i w = (t1, Returns tt w1) ->
     Groundwater.year p (orders i) i w1 = (t2, Raises e w2) ->
     Groundwater.coupling_loop p orders n w = (t1 ++ t2, Raises e w2)) /\
  (forall R D (pop : WolfSheepGrass.Population R) (sim : WolfSheepGrass.Simulation D)
          p i (w : WolfSheepGrass.World R D) gm t1 w1 t2 w2 t3 w3 t4 w4 t5 w5 e g',
     zoom WolfSheepGrass.ws WolfSheepGrass.set_ws WolfSheepGrass.generate_grass_map w
       = (t1, Returns gm w1) ->
     WolfSheepGrass.assign_creep gm 1 (WolfSheepGrass.fast_creep p) w1 = (t2, Returns tt w2) ->
     WolfSheepGrass.assign_creep gm 2 (WolfSheepGrass.slow_creep p) w2 = (t3, Returns tt w3) ->
     WolfSheepGrass.scale_creep p w3 = (t4, Returns tt w4) ->
     WolfSheepGrass.save_prior w4 = (t5, Returns tt w5) ->
     WolfSheepGrass.diffuser_run_one_step (WolfSheepGrass.dt p) (WolfSheepGrass.rmg w5)
       = Raises e g' ->
     WolfSheepGrass.iteration p i w
     = (ev_iteration i :: t1 ++ t2 ++ t3 ++ t4 ++ t5 ++ [ev_run_one_step (WolfSheepGrass.dt p)],
        Raises e (WolfSheepGrass.set_rmg g' w5)) /\
     forall t6 w6 t7 w7 t8 w8 e' m',
       zoom WolfSheepGrass.rmg WolfSheepGrass.set_rmg
         (WolfSheepGrass.run_one_step (WolfSheepGrass.dt p)) w5 = (t6, Returns tt w6) ->
       WolfSheepGrass.update_soil w6 = (t7, Returns tt w7) ->
       zoom WolfSheepGrass.ws WolfSheepGrass.set_ws
         (WolfSheepGrass.limit_grass_by_soil
            (NDArray [Z.of_nat (length (WolfSheepGrass.soil w7))] (WolfSheepGrass.soil w7))
            (WolfSheepGrass.min_depth_for_grass p)) w7 = (t8, Returns tt w8) ->
       WolfSheepGrass.ws_step (WolfSheepGrass.ws w8) = Raises e' m' ->
       WolfSheepGrass.iteration p i w
       = (ev_iteration i :: t1 ++ t2 ++ t3 ++ t4 ++ t5 ++ t6 ++ t7 ++ t8 ++ [ev_schedule_step],
          Raises e' (WolfSheepGrass.set_ws m' w8))) /\
  (forall R D (pop : WolfSheepGrass.Population R) (sim : WolfSheepGrass.Simulation D)
          p n i (w : WolfSheepGrass.World R D) t1 w1 t2 e w2,
     0 <= i < n ->
     WolfSheepGrass.main_loop p i w = (t1, Returns tt w1) ->
     WolfSheepGrass.iteration p i w1 = (t2, Raises e w2) ->
     WolfSheepGrass.main_loop p n w = (t1 ++ t2, Raises e w2)).
Proof.
  split; [|split; [|split; [|split]]].
  - intros G sim p order i w k j tj gj e g' Hk Hj Hpre Hraise.
    unfold Groundwater.year. returns (emit_returns (ev_iteration i) w).
    raises (zoom_raises Groundwater.sim Groundwater.set_sim _ w _ _ _
              (run_for_one_year_raises _ _ _ _ _ _ _ _ Hk Hj Hpre Hraise)).
    reflexivity.
  - intros G sim p order i w t1 w1 t2 w2 t3 e fm' H1 H2 H3.
    unfold Groundwater.year. returns (emit_returns (ev_iteration i) w).
    returns H1. returns H2.
    raises (zoom_raises Groundwater.farmer_model Groundwater.set_farmer_model _ w2 _ _ _ H3).
    reflexivity.
  - intros G sim p orders n i w t1 w1 t2 e w2 Hi H1 H2.
    unfold Groundwater.coupling_loop in *.
    destruct (range_split n i Hi) as [l2 ->].
    exact (for_each_raises_at (fun i => Groundwater.year p (orders i) i)
             _ _ _ _ _ _ _ _ _ H1 H2).
  - intros R D pop sim p i w gm t1 w1 t2 w2 t3 w3 t4 w4 t5 w5 e g' H1 H2 H3 H4 H5 Hd.
    split.
    + unfold WolfSheepGrass.iteration. returns (emit_returns (ev_iteration i) w).
      returns H1. returns H2. returns H3. returns H4. returns H5.
      assert (H6 : zoom WolfSheepGrass.rmg WolfSheepGrass.set_rmg
                     (WolfSheepGrass.run_one_step (WolfSheepGrass.dt p)) w5
                   = ([ev_run_one_step (WolfSheepGrass.dt p)],
                      Raises e (WolfSheepGrass.set_rmg g' w5))).
      { apply zoom_raises. unfold WolfSheepGrass.run_one_step.
        returns (emit_returns (ev_run_one_step (WolfSheepGrass.dt p)) (WolfSheepGrass.rmg w5)).
        unfold call. now rewrite Hd. }
      raises H6. reflexivity.
    + intros t6 w6 t7 w7 t8 w8 e' m' H6 H7 H8 Hs.
      unfold WolfSheepGrass.iteration. returns (emit_returns (ev_iteration i) w).
      returns H1. returns H2. returns H3. returns H4. returns H5. returns H6. returns H7.
      returns (get_returns w7). returns H8.
      assert (H9 : zoom WolfSheepGrass.ws WolfSheepGrass.set_ws
                     WolfSheepGrass.step_population w8
                   = ([ev_schedule_step], Raises e' (WolfSheepGrass.set_ws m' w8))).
      { apply zoom_raises. unfold WolfSheepGrass.step_population.
        returns (emit_returns ev_schedule_step (WolfSheepGrass.ws w8)).
        unfold call. now rewrite Hs. }
      rewrite H9. reflexivity.
  - intros R D pop sim p n i w t1 w1 t2 e w2 Hi H1 H2.
    unfold WolfSheepGrass.main_loop in *.
    destruct (range_split n i Hi) as [l2 ->].
    exact (for_each_raises_at (WolfSheepGrass.iteration p) _ _ _ _ _ _ _ _ _ H1 H2).
Qed.

Lemma exceptions_propagate_witness :
  @Groundwater.year unit failing_solver farm_params [0%nat; 1%nat] 0 farm
  = (ev_iteration 0 :: ev_run_for_one_year :: [] ++ [ev_run_one_step (Groundwater.dt farm_params)],
     Raises (LibraryError "RuntimeError") (Groundwater.set_sim (Groundwater.sim farm) farm)).
Proof.
  apply (proj1 exceptions_propagate unit failing_solver farm_params [0%nat; 1%nat] 0 farm
           8766 0%nat [] (Groundwater.sim farm)).
  - reflexivity.
  - vm_compute. lia.
  - reflexivity.
  - reflexivity.
Defined.

(** A diffuser that raises stops the iteration on the meadow after the
    elevations were saved: the soil is not updated, the grass is not limited
    and the agent model does not step. *)
Example meadow_diffuser_raises :
  let sim := {| WolfSheepGrass.diffuser_run_one_step :=
                  fun _ g => Raises (LibraryError "ValueError") g;
                WolfSheepGrass.np_exp := fun _ => 1%float |} in
  @WolfSheepGrass.main_loop unit unit idle_population sim meadow_params 3 meadow_world
  = ([ev_iteration 0; ev_aggregate; ev_write_forcing; ev_write_forcing;
      ev_write_forcing; ev_save_prior; ev_run_one_step 2],
     Raises (LibraryError "ValueError") meadow_world).
Proof. vm_compute. reflexivity. Qed.

(** ** Runs that return *)

Lemma succeeds_ret {S A} (a : A) (s : S) Q : Q a s -> succeeds (mret a) s Q.
Proof. intros H. exact H. Qed.

Lemma succeeds_get {S} (s : S) Q : Q s s -> succeeds get s Q.
Proof. intros H. exact H. Qed.

Lemma succeeds_put {S} (s s' : S) Q : Q tt s' -> succeeds (put s') s Q.
Proof. intros H. exact H. Qed.

Lemma succeeds_emit {S} ev (s : S) Q : Q tt s -> succeeds (emit ev) s Q.
Proof. intros H. exact H. Qed.

Lemma succeeds_lift {S A} (r : result A) a (s : S) Q :
  r = Ok a -> Q a s -> succeeds (lift r) s Q.
Proof. intros -> H. exact H. Qed.

Lemma succeeds_call {S A} (f : S -> outcome S A) s a s' Q :
  f s = Returns a s' -> Q a s' -> succeeds (call f) s Q.
Proof. intros E H. unfold succeeds, call. cbn. now rewrite E. Qed.

Lemma succeeds_bind {S A B} (m : prog S A) (f : A -> prog S B) s Q :
  succeeds m s (fun a s' => succeeds (f a) s' Q) -> succeeds (m ≫= f) s Q.
Proof.
  unfold succeeds, mbind, prog_bind.
  destruct (m s) as [t [a s'|e s']]; cbn; [|contradiction].
  destruct (f a s') as [t' o]. auto.
Qed.

Lemma succeeds_weaken {S A} (m : prog S A) s (Q Q' : A -> S -> Prop) :
  succeeds m s Q -> (forall a s', Q a s' -> Q' a s') -> succeeds m s Q'.
Proof.
  unfold succeeds. destruct ((m s).2); [|contradiction]. auto.
Qed.

Lemma succeeds_zoom {S T A} (proj : S -> T) (upd : T -> S -> S) (m : prog T A) s Q :
  succeeds m (proj s) (fun a x => Q a (upd x s)) -> succeeds (zoom proj upd m) s Q.
Proof.
  unfold succeeds, zoom. destruct (m (proj s)) as [t [a x|e x]]; cbn; auto.
Qed.

Lemma succeeds_for_each {S A} (I : S -> Prop) (l : list A) (body : A -> prog S unit) :
  (forall x s, x ∈ l -> I s -> succeeds (body x) s (fun _ s' => I s')) ->
  forall s, I s -> succeeds (for_each l body) s (fun _ s' => I s').
Proof.
  induction l as [|x l IH]; intros Hb s HI; cbn [for_each].
  - exact HI.
  - apply succeeds_bind. eapply succeeds_weaken; [apply Hb; [left|exact HI]|].
    intros ? s' HI'. apply IH; [|exact HI'].
    intros y s0 Hy. apply Hb. now right.
Qed.

Lemma succeeds_for_fold {S A B} (I : B -> S -> Prop) (l : list A)
    (body : A -> B -> prog S B) :
  (forall x acc s, x ∈ l -> I acc s -> succeeds (body x acc) s I) ->
  forall acc s, I acc s -> succeeds (for_fold l body acc) s I.
Proof.
  induction l as [|x l IH]; intros Hb acc s HI; cbn [for_fold].
  - exact HI.
  - apply succeeds_bind. eapply succeeds_weaken; [apply Hb; [left|exact HI]|].
    intros acc' s' HI'. apply IH; [|exact HI'].
    intros y acc0 s0 Hy. apply Hb. now right.
Qed.

Lemma succeeds_returned {S A} (m : prog S A) s Q T :
  succeeds m s Q -> emits m T ->
  exists a s', m s = (T, Returns a s') /\ Q a s'.
Proof.
  intros Hs He. specialize (He s). unfold succeeds in Hs.
  destruct (m s) as [t [a s'|e s']]; cbn in Hs; [|contradiction].
  subst t. eauto.
Qed.

(** ** Subscripts of arrays *)

Lemma np_offset2_ok {A} (a : ndarray A) d0 d1 x y :
  shape a = [d0; d1] -> 0 <= x < d0 -> 0 <= y < d1 ->
  np_offset2 a x y = Ok (x * d1 + y).
Proof.
  intros Hs Hx Hy. unfold np_offset2. rewrite Hs. run.
  rewrite (norm_index_nonneg d0 x) by lia. rewrite (norm_index_nonneg d1 y) by lia.
  reflexivity.
Qed.

Lemma np_setitem2_ok {A} (a : ndarray A) d0 d1 x y v :
  array_ok d0 d1 a -> 0 <= x < d0 -> 0 <= y < d1 ->
  exists a', np_setitem2 a x y v = Ok a' /\ array_ok d0 d1 a'.
Proof.
  intros [Hs Hn] Hx Hy. unfold np_setitem2. run.
  rewrite (np_offset2_ok a d0 d1 x y Hs Hx Hy). eexists. split; [reflexivity|].
  split; [exact Hs|]. unfold np_size in *. cbn. now rewrite length_insert.
Qed.

Lemma np_getitem2_ok {A} (a : ndarray A) d0 d1 x y :
  array_ok d0 d1 a -> 0 <= x < d0 -> 0 <= y < d1 ->
  exists v, np_getitem2 a x y = Ok v.
Proof.
  intros [Hs Hn] Hx Hy. unfold np_getitem2. run.
  rewrite (np_offset2_ok a d0 d1 x y Hs Hx Hy).
  destruct (lookup_lt_is_Some_2 (data a) (Z.to_nat (x * d1 + y))) as [v Hv].
  - unfold np_size in Hn. nia.
  - rewrite Hv. eauto.
Qed.

Lemma np_zeros2_ok {A} (z : A) d0 d1 :
  0 <= d0 -> 0 <= d1 ->
  exists a, np_zeros2 z d0 d1 = Ok a /\ array_ok d0 d1 a.
Proof.
  intros H0 H1. unfold np_zeros2.
  assert ((d0 <? 0) = false) as -> by lia. assert ((d1 <? 0) = false) as -> by lia.
  eexists. split; [reflexivity|]. split; [reflexivity|].
  unfold np_size. cbn. rewrite length_replicate. nia.
Qed.

(** ** Counting the wells of a well-formed farm *)

Lemma elem_of_range z n : z ∈ range n -> 0 <= z < n.
Proof.
  unfold range. intros Hz. apply list_elem_of_fmap in Hz as (k & -> & Hk).
  apply elem_of_seq in Hk. lia.
Qed.

Lemma elem_of_coords g x y :
  (x, y) ∈ Mesa.coords g ->
  0 <= x < Z.of_nat (Mesa.width g) /\ 0 <= y < Z.of_nat (Mesa.height g).
Proof.
  unfold Mesa.coords. intros H.
  apply list_elem_of_bind in H as (x' & H & Hx).
  apply list_elem_of_bind in H as (y' & H & Hy).
  apply list_elem_of_singleton in H as [= -> ->].
  split; now apply elem_of_range.
Qed.

Lemma cell_in_grid g x y :
  grid_wf g ->
  0 <= x < Z.of_nat (Mesa.width g) -> 0 <= y < Z.of_nat (Mesa.height g) ->
  exists cell, Mesa.cell_at g (x, y) = Ok cell /\ forall r, r ∈ cell -> r ∈ on_grid g.
Proof.
  intros [Hlen Hcols] Hx Hy.
  destruct (lookup_lt_is_Some_2 (Mesa.cells g) (Z.to_nat x)) as [col Hcol]; [lia|].
  assert (Hc : length col = Mesa.height g).
  { apply (proj1 (Forall_forall _ _) Hcols). apply list_elem_of_lookup. eauto. }
  destruct (lookup_lt_is_Some_2 col (Z.to_nat y)) as [cell Hcell]; [lia|].
  exists cell. split.
  - apply cell_at_lookup; [lia|lia|]. eauto.
  - intros r Hr. unfold on_grid. apply list_elem_of_In, in_concat.
    exists (concat col). split.
    + apply list_elem_of_In, list_elem_of_fmap. exists col. split; [reflexivity|].
      apply list_elem_of_lookup. eauto.
    + apply in_concat. exists cell. split; apply list_elem_of_In; [|exact Hr].
      apply list_elem_of_lookup. eauto.
Qed.

Lemma count_pumping_succeeds nr nc m x y r acc :
  (r < length (agents m))%nat ->
  array_ok nr nc acc -> 0 <= x < nr -> 0 <= y < nc ->
  succeeds (count_pumping (x, y) r acc) m (fun acc' m' => m' = m /\ array_ok nr nc acc').
Proof.
  intros Hr Hacc Hx Hy. unfold count_pumping, deref, succeeds. run.
  destruct (lookup_lt_is_Some_2 (agents m) r Hr) as [a Ha]. rewrite Ha. run.
  destruct (pumping a); run; [|cbn; auto].
  destruct (np_getitem2_ok acc nr nc x y Hacc Hx Hy) as [v Hv]. cbn [fst snd].
  rewrite Hv. run.
  destruct (np_setitem2_ok acc nr nc x y (v + 1) Hacc Hx Hy) as (a' & Ha' & Hok).
  rewrite Ha'. run. cbn. auto.
Qed.

Lemma get_well_count_succeeds nr nc m :
  farm_wf nr nc m ->
  succeeds (get_well_count nr nc) m
    (fun counts m' => m' = m /\ array_ok nr nc (fst counts) /\ array_ok nr nc (snd counts)).
Proof.
  intros ((_ & _ & Hw & Hh) & Hsq & Hpos & Hgrid & Hrefs & _ & _).
  unfold get_well_count.
  apply succeeds_bind, succeeds_emit.
  destruct (np_zeros2_ok 0 nr nc) as (z & Hz & Hzok); [lia|lia|].
  apply succeeds_bind, (succeeds_lift _ z); [exact Hz|].
  apply succeeds_bind, (succeeds_lift _ z); [exact Hz|].
  apply succeeds_bind, succeeds_get.
  apply (succeeds_for_fold
           (fun counts m' => m' = m /\ array_ok nr nc (fst counts) /\ array_ok nr nc (snd counts)));
    [|auto].
  intros [x y] [wc pwc] m' Hxy (-> & Hwc & Hpwc). cbn [fst snd] in *.
  apply elem_of_coords in Hxy as [Hx Hy].
  destruct (cell_in_grid (grid m) x y Hgrid Hx Hy) as (cell & Hcell & Hin).
  unfold count_cell. apply succeeds_bind, succeeds_get.
  apply succeeds_bind, (succeeds_lift _ cell); [exact Hcell|].
  destruct (np_setitem2_ok wc nr nc x y (Z.of_nat (length cell)) Hwc) as (wc' & Hwc' & Hok);
    [lia|lia|].
  cbn [fst snd]. apply succeeds_bind, (succeeds_lift _ wc'); [exact Hwc'|].
  apply succeeds_bind.
  eapply succeeds_weaken.
  - apply (succeeds_for_fold (fun acc m' => m' = m /\ array_ok nr nc acc));
      [|split; [reflexivity|exact Hpwc]].
    intros r acc m' Hr [-> Hacc].
    apply count_pumping_succeeds; [|exact Hacc|lia|lia].
    apply (proj1 (Forall_forall _ _) Hrefs). now apply Hin.
  - intros acc m' [-> Hacc]. apply succeeds_ret. auto.
Qed.

(** ** A step of a well-formed farm *)

Lemma pos_decided w a : pos (decided w a) = pos a.
Proof. unfold decided. now destruct (observed w a). Qed.

Lemma can_step_farm nr nc m w2d r :
  farm_wf nr nc m -> array_ok nc nr w2d ->
  (r < length (agents m))%nat -> can_step w2d (agents m) r.
Proof.
  intros (_ & _ & _ & _ & _ & _ & Hpos) Hw Hr.
  destruct (lookup_lt_is_Some_2 (agents m) r Hr) as [a Ha].
  destruct (Hpos r a Ha) as (x & y & Hp & Hx & Hy).
  destruct (np_getitem2_ok w2d nc nr x y Hw Hx Hy) as [d Hd].
  exists a, d. split; [exact Ha|]. unfold observed. now rewrite Hp.
Qed.

Lemma farm_wf_activated nr nc m w order :
  farm_wf nr nc m ->
  farm_wf nr nc (set_agents (activated w order) (set_wt_depth_2d w m)).
Proof.
  intros (Hg & Hsq & Hpos & Hgrid & Hrefs & Hsch & Hag).
  assert (Hlen : length (activated w order (agents m)) = length (agents m))
    by apply length_imap.
  split; [exact Hg|]. split; [exact Hsq|]. split; [exact Hpos|]. split; [exact Hgrid|].
  cbn [agents set_agents set_wt_depth_2d grid schedule]. rewrite Hlen.
  split; [exact Hrefs|]. split; [exact Hsch|].
  intros r a' Hr. unfold activated in Hr. rewrite list_lookup_imap in Hr.
  destruct (agents m !! r) as [a|] eqn:Ha; [|discriminate]. cbn in Hr.
  injection Hr as <-. destruct (Hag r a Ha) as (x & y & Hp & Hxy).
  exists x, y. split; [|exact Hxy].
  destruct (bool_decide _); [now rewrite pos_decided|exact Hp].
Qed.

Lemma FarmerModel_step_succeeds nr nc m order :
  farm_wf nr nc m ->
  Forall (fun r => (r < length (agents m))%nat) order ->
  succeeds (FarmerModel_step order) m
    (fun _ m' => farm_wf nr nc m' /\ length (agents m') = length (agents m)).
Proof.
  intros Hwf Hord. pose proof Hwf as ((Hv & Hshape & Hw & Hh) & _).
  pose proof (grids_match_reshape nr nc m (proj1 Hwf)) as Hr.
  unfold succeeds. rewrite (FarmerModel_step_returns order m _ Hr).
  - cbn [snd]. split; [now apply farm_wf_activated|apply length_imap].
  - eapply Forall_impl; [exact Hord|]. intros r Hlt.
    apply (can_step_farm nr nc); [exact Hwf| |exact Hlt].
    split; [cbn [shape]; now rewrite Hw, Hh|].
    destruct Hv as [_ Hsize]. unfold np_size in *. cbn [data].
    rewrite Hsize, Hshape. cbn. lia.
Qed.

(** ** The loop of a well-formed world returns *)

Lemma np_binop_same_length f (a b : list float) :
  length a = length b -> np_binop f a b = Ok (zip_with f a b).
Proof.
  intros E. unfold np_binop, np_broadcast.
  destruct (decide (length a = 1%nat)) as [E1|E1]; run.
  - rewrite decide_True by congruence. run. now rewrite decide_True.
  - rewrite decide_True by reflexivity. run. rewrite decide_True by congruence.
    reflexivity.
Qed.

Lemma np_assign_same_length {A} (t v : list A) :
  length v = length t -> np_assign t v = Ok v.
Proof. intros E. unfold np_assign, np_broadcast. now rewrite decide_True. Qed.

Lemma grids_match_length nr nc m :
  grids_match nr nc m -> length (data (depth_to_water_table m)) = Z.to_nat (nr * nc).
Proof.
  intros ((_ & Hsize) & Hshape & _). unfold np_size in Hsize.
  rewrite Hshape in Hsize. cbn in Hsize. lia.
Qed.

Section GroundwaterTermination.
Import Groundwater.
Context {G : Type} {Hsim : Simulation G}.
Variable p : Params.
Variable k : Z.
Hypothesis Hsolver : solver_total Hsim.
Hypothesis Hparams : params_ok p k.

Lemma run_for_one_year_succeeds (g : Landlab G) :
  succeeds (run_for_one_year (dt p)) g
    (fun _ g' => length (elev g') = length (elev g) /\
                 length (wt g') = length (wt g) /\
                 length (recharge g') = length (recharge g)).
Proof.
  destruct Hparams as [Hk _]. unfold run_for_one_year.
  apply succeeds_bind, succeeds_emit.
  destruct (py_div (365.25 * 3600.0 * 24) (dt p)) as [q|] eqn:Hq; [|discriminate].
  cbn [mbind result_bind] in Hk.
  apply succeeds_bind, (succeeds_lift _ q); [reflexivity|].
  apply succeeds_bind, (succeeds_lift _ k); [exact Hk|].
  apply (succeeds_for_each
           (fun g' => length (elev g') = length (elev g) /\
                      length (wt g') = length (wt g) /\
                      length (recharge g') = length (recharge g))); [|auto].
  intros _ g1 _ (H1 & H2 & H3). unfold run_one_step.
  apply succeeds_bind, succeeds_emit.
  destruct (Hsolver (dt p) g1) as (g2 & E & L1 & L2 & L3).
  apply (succeeds_call _ _ tt g2 _ E). repeat split; congruence.
Qed.

Lemma update_depth_succeeds (w : World G) :
  world_wf p w ->
  succeeds update_depth w
    (fun _ w' => world_wf p w' /\
                 agents (farmer_model w') = agents (farmer_model w)).
Proof.
  intros (Hfarm & He & Hw & Hr). unfold update_depth.
  apply succeeds_bind, succeeds_emit. apply succeeds_bind, succeeds_get.
  apply succeeds_bind, (succeeds_lift _ (zip_with PrimFloat.sub (elev (sim w)) (wt (sim w))));
    [apply np_binop_same_length; congruence|].
  pose proof (grids_match_length _ _ _ (proj1 Hfarm)) as Hd.
  assert (Hz : length (zip_with PrimFloat.sub (elev (sim w)) (wt (sim w)))
               = Z.to_nat (nr p * nc p))
    by (rewrite length_zip_with_l_eq; congruence).
  apply succeeds_bind, (succeeds_lift _ (zip_with PrimFloat.sub (elev (sim w)) (wt (sim w))));
    [apply np_assign_same_length; congruence|].
  apply succeeds_put. split; [|reflexivity].
  split; [|cbn; auto].
  destruct Hfarm as (((Hdims & Hsize) & Hshape & Hwd & Hht) & Hsq & Hpos & Hgrid & Hrest).
  cbn [farmer_model set_farmer_model].
  split; [|split; [exact Hsq|split; [exact Hpos|split; [exact Hgrid|exact Hrest]]]].
  split; [|split; [exact Hshape|split; [exact Hwd|exact Hht]]].
  split; [exact Hdims|]. unfold np_size in *. cbn [data depth_to_water_table
    set_depth_to_water_table shape]. rewrite Hz, <- Hd. exact Hsize.
Qed.

Lemma write_recharge_succeeds (w : World G) c :
  world_wf p w -> array_ok (nr p) (nc p) c ->
  succeeds (write_recharge p c) w
    (fun _ w' => world_wf p w' /\ farmer_model w' = farmer_model w).
Proof.
  intros (Hfarm & He & Hw & Hr) [Hshape Hsize]. destruct Hparams as [_ Hdx].
  unfold write_recharge.
  apply succeeds_bind, succeeds_emit. apply succeeds_bind, succeeds_get.
  unfold py_div. rewrite Hdx.
  apply succeeds_bind.
  apply (succeeds_lift _ (pumping_rate p / (dx p * dx p))%float); [reflexivity|].
  apply succeeds_bind. eapply succeeds_lift.
  - apply np_assign_same_length. rewrite length_map. unfold np_flatten, np_size in *. lia.
  - apply succeeds_put. split; [|reflexivity].
    split; [exact Hfarm|]. cbn [sim set_sim set_recharge elev wt recharge].
    split; [exact He|]. split; [exact Hw|].
    rewrite length_map. unfold np_flatten, np_size in *. lia.
Qed.

Lemma year_succeeds order i (w : World G) :
  world_wf p w ->
  Forall (fun r => (r < length (agents (farmer_model w)))%nat) order ->
  succeeds (year p order i) w
    (fun _ w' => world_wf p w' /\
                 length (agents (farmer_model w')) = length (agents (farmer_model w))).
Proof.
  intros Hwf Hord. unfold year.
  apply succeeds_bind, succeeds_emit.
  apply succeeds_bind, succeeds_zoom.
  eapply succeeds_weaken; [apply run_for_one_year_succeeds|].
  intros ? g1 (L1 & L2 & L3).
  assert (Hwf1 : world_wf p (set_sim g1 w)).
  { destruct Hwf as (Hfarm & He & Hw & Hr). split; [exact Hfarm|].
    cbn [sim set_sim]. repeat split; congruence. }
  apply succeeds_bind.
  eapply succeeds_weaken; [apply (update_depth_succeeds _ Hwf1)|].
  intros ? w2 [Hwf2 Hag2]. cbn [farmer_model set_sim] in Hag2.
  apply succeeds_bind, succeeds_zoom.
  eapply succeeds_weaken;
    [apply (FarmerModel_step_succeeds (nr p) (nc p) _ order (proj1 Hwf2));
     now rewrite Hag2|].
  intros ? m3 [Hfarm3 Hlen3]. rewrite Hag2 in Hlen3.
  assert (Hwf3 : world_wf p (set_farmer_model m3 w2)).
  { split; [exact Hfarm3|]. apply Hwf2. }
  apply succeeds_bind, succeeds_zoom.
  eapply succeeds_weaken; [apply (get_well_count_succeeds _ _ _ Hfarm3)|].
  intros counts m4 (-> & Hwc & Hpwc).
  replace (set_farmer_model m3 (set_farmer_model m3 w2)) with (set_farmer_model m3 w2)
    by reflexivity.
  apply succeeds_bind, succeeds_get.
  assert (Hne : exists d, np_amax (data (depth_to_water_table m3)) = Ok d).
  { pose proof (grids_match_length _ _ _ (proj1 Hfarm3)) as Hd.
    destruct Hfarm3 as (_ & Hsq & Hpos & _).
    destruct (data (depth_to_water_table m3)) as [|x l]; [cbn in Hd; nia|].
    cbn. eauto. }
  destruct Hne as [d Hd].
  apply succeeds_bind, (succeeds_lift _ d); [exact Hd|].
  eapply succeeds_weaken; [apply (write_recharge_succeeds _ _ Hwf3 Hpwc)|].
  intros ? w5 [Hwf5 Hfm5]. split; [exact Hwf5|]. now rewrite Hfm5.
Qed.

Lemma coupling_loop_succeeds orders n (w : World G) :
  world_wf p w ->
  (forall i, Forall (fun r => (r < length (agents (farmer_model w)))%nat) (orders i)) ->
  succeeds (coupling_loop p orders n) w (fun _ w' => world_wf p w').
Proof.
  intros Hwf Hord. unfold coupling_loop.
  eapply succeeds_weaken.
  - apply (succeeds_for_each
             (fun w' => world_wf p w' /\
                        length (agents (farmer_model w')) = length (agents (farmer_model w))));
      [|auto].
    intros i w1 _ [Hwf1 Hlen1].
    eapply succeeds_weaken; [apply (year_succeeds _ _ _ Hwf1); now rewrite Hlen1|].
    intros ? w2 [Hwf2 Hlen2]. split; [exact Hwf2|congruence].
  - intros ? w' [Hwf' _]. exact Hwf'.
Qed.
End GroundwaterTermination.

(** ** Counting iterations and solver calls *)

Lemma omap_replicate_None {A B} (f : A -> option B) n x :
  f x = None -> omap f (replicate n x) = [].
Proof. intros E. induction n as [|n IH]; cbn; [reflexivity|now rewrite E]. Qed.

Lemma omap_replicate_Some {A B} (f : A -> option B) n x y :
  f x = Some y -> omap f (replicate n x) = replicate n y.
Proof. intros E. induction n as [|n IH]; cbn; [reflexivity|now rewrite E, IH]. Qed.

Lemma year_trace_app dt i :
  year_trace dt i
  = [ev_iteration i; ev_run_for_one_year] ++ year_calls dt ++
    [ev_derive_field; ev_observe; ev_schedule_step; ev_aggregate; ev_write_forcing].
Proof. reflexivity. Qed.

Lemma iterations_year_trace dt i : iterations (year_trace dt i) = [i].
Proof.
  unfold iterations. rewrite year_trace_app, !omap_app.
  unfold year_calls. destruct (_ ≫= python_int) as [k|e]; [|reflexivity].
  now rewrite omap_replicate_None.
Qed.

Lemma iterations_loop dt l : iterations (concat (year_trace dt <$> l)) = l.
Proof.
  induction l as [|i l IH]; [reflexivity|].
  cbn [fmap list_fmap concat]. unfold iterations in *.
  rewrite omap_app. fold (iterations (year_trace dt i)).
  now rewrite iterations_year_trace, IH.
Qed.

Lemma solver_calls_year_trace dt i k :
  py_div (365.25 * 3600.0 * 24) dt ≫= python_int = Ok k ->
  solver_calls (year_trace dt i) = Z.to_nat k.
Proof.
  intros Hk. unfold solver_calls. rewrite year_trace_app, !omap_app.
  unfold year_calls. rewrite Hk.
  rewrite (omap_replicate_Some _ _ _ dt) by reflexivity.
  cbn. rewrite length_app, length_replicate. cbn. lia.
Qed.

Lemma solver_calls_loop dt l k :
  py_div (365.25 * 3600.0 * 24) dt ≫= python_int = Ok k ->
  solver_calls (concat (year_trace dt <$> l)) = (length l * Z.to_nat k)%nat.
Proof.
  intros Hk. induction l as [|i l IH]; [reflexivity|].
  cbn [fmap list_fmap concat length]. unfold solver_calls in *.
  rewrite omap_app, length_app. fold (solver_calls (year_trace dt i)).
  rewrite (solver_calls_year_trace dt i k Hk), IH. lia.
Qed.

(** ** The number of steps in a year is not negative *)

Lemma binary_round_aux_sign mx ex lx :
  match binary_round_aux prec emax false mx ex lx with
  | S754_zero s => s = false
  | S754_finite s _ _ => s = false
  | _ => True
  end.
Proof.
  unfold binary_round_aux.
  destruct (shr_fexp prec emax mx ex lx) as [mrs' e'].
  destruct (shr_fexp prec emax _ e' loc_Exact) as [mrs'' e''].
  destruct (shr_m mrs''); [reflexivity| |exact I].
  destruct (e'' <=? emax - prec); [reflexivity|exact I].
Qed.

Lemma python_int_nonneg x k :
  match Prim2SF x with
  | S754_zero _ => True
  | S754_finite s _ _ => s = false
  | _ => True
  end ->
  python_int x = Ok k -> 0 <= k.
Proof.
  unfold python_int. destruct (Prim2SF x) as [s|s| |s m e]; try discriminate.
  - intros _ [= <-]. lia.
  - intros -> [= <-]. destruct (0 <=? e) eqn:E.
    + apply Z.mul_nonneg_nonneg; [lia|]. apply Z.pow_nonneg. lia.
    + apply Z.div_pos; [lia|]. apply Z.pow_pos_nonneg; lia.
Qed.

Lemma year_steps_nonneg dt k :
  (0 <? dt)%float = true ->
  py_div (365.25 * 3600.0 * 24) dt ≫= python_int = Ok k ->
  0 <= k.
Proof.
  intros Hdt. unfold py_div. destruct (PrimFloat.is_zero dt); [discriminate|].
  cbn [mbind result_bind]. apply python_int_nonneg.
  rewrite FloatAxioms.div_spec.
  rewrite FloatAxioms.ltb_spec in Hdt. unfold SFltb in Hdt.
  change (Prim2SF 0) with (S754_zero false) in Hdt.
  remember (Prim2SF (365.25 * 3600.0 * 24)) as c eqn:Hc. vm_compute in Hc. subst c.
  destruct (Prim2SF dt) as [s|s| |s m e]; cbn in Hdt; try discriminate.
  - destruct s; [discriminate|]. exact I.
  - destruct s; [discriminate|]. cbn [SF64div SFdiv xorb].
    destruct (SFdiv_core_binary prec emax _ _ (Z.pos m) e) as [[mz ez] lz].
    pose proof (binary_round_aux_sign mz ez lz) as H.
    destruct (binary_round_aux prec emax false mz ez lz); auto.
Qed.

(** ** The loop runs its iterations and stops *)

Lemma idle_solver_total : solver_total idle_solver.
Proof. intros dt g. exists g. repeat split. Qed.

Lemma farm_is_wf : world_wf farm_params farm.
Proof.
  split; [|repeat split].
  split; [|split; [reflexivity|split; [reflexivity|split; [|split; [|split]]]]].
  - split; [|repeat split]. split; [|reflexivity].
    cbn. repeat constructor; discriminate.
  - split; [reflexivity|]. vm_compute. repeat constructor.
  - vm_compute. repeat constructor.
  - vm_compute. repeat constructor.
  - intros r a Hr. vm_compute in Hr.
    destruct r as [|[|r]]; try discriminate; injection Hr as <-.
    + exists 1, 1. repeat split; cbn; lia.
    + exists 2, 2. repeat split; cbn; lia.
Qed.

(** C8. With parameters for which the year holds [k = int(365.25 * 3600 * 24
    / dt)] steps and the cell area [dx * dx] is not zero as a float, a
    solver that returns from every call and keeps the sizes of its fields,
    both collaborators set up on the same square grid that is not empty,
    every agent at a position on that grid, and cells, schedule and
    activation orders that name agents of the model, the loop over [n] years
    returns after the iterations 0, 1, ..., n - 1 and no other, each of
    which calls the solver [k] times, so [n * k] calls in all; and [k] is
    not negative when [dt] is positive. *)
Theorem coupling_loop_terminates :
  forall G (sim : Groundwater.Simulation G) p k orders n (w : Groundwater.World G),
    solver_total sim ->
    params_ok p k ->
    world_wf p w ->
    (forall i, Forall (fun r => (r < length (agents (Groundwater.farmer_model w)))%nat)
                      (orders i)) ->
    exists w',
      Groundwater.coupling_loop p orders n w
        = (concat (year_trace (Groundwater.dt p) <$> range n), Returns tt w') /\
      world_wf p w' /\
      iterations (concat (year_trace (Groundwater.dt p) <$> range n)) = range n /\
      length (range n) = Z.to_nat n /\
      (forall i, solver_calls (year_trace (Groundwater.dt p) i) = Z.to_nat k) /\
      solver_calls (concat (year_trace (Groundwater.dt p) <$> range n))
        = (Z.to_nat n * Z.to_nat k)%nat /\
      ((0 <? Groundwater.dt p)%float = true -> 0 <= k).
Proof.
  intros G sim p k orders n w Hsolver Hparams Hwf Hord.
  destruct (succeeds_returned _ w _ _
              (coupling_loop_succeeds p k Hsolver Hparams orders n w Hwf Hord)
              (@emits_coupling_loop G sim p orders n)) as ([] & w' & Hrun & Hwf').
  exists w'. split; [exact Hrun|]. split; [exact Hwf'|].
  split; [apply iterations_loop|]. split; [apply length_range|].
  split; [intros i; apply solver_calls_year_trace, Hparams|].
  split.
  - rewrite (solver_calls_loop _ _ k (proj1 Hparams)). now rewrite length_range.
  - intros Hdt. exact (year_steps_nonneg _ _ Hdt (proj1 Hparams)).
Qed.

(** With a positive time step of 2^-1040 seconds the number of steps in a
    year overflows: the loop over one year raises in its first iteration,
    before any call of the solver. *)
Lemma tiny_step_overflows :
  (0 <? Groundwater.dt tiny_step_params)%float = true /\
  py_div (365.25 * 3600.0 * 24) (Groundwater.dt tiny_step_params) ≫= python_int
    = Raise OverflowError /\
  @Groundwater.coupling_loop unit idle_solver tiny_step_params farm_orders 1 farm
    = ([ev_iteration 0; ev_run_for_one_year], Raises OverflowError farm) /\
  world_wf tiny_step_params farm.
Proof.
  split; [reflexivity|]. split; [reflexivity|]. split; [vm_compute; reflexivity|].
  exact farm_is_wf.
Qed.

Lemma coupling_loop_terminates_witness :
  exists w',
    @Groundwater.coupling_loop unit idle_solver farm_params farm_orders 2 farm
      = (concat (year_trace (Groundwater.dt farm_params) <$> range 2), Returns tt w') /\
    world_wf farm_params w' /\
    iterations (concat (year_trace (Groundwater.dt farm_params) <$> range 2)) = range 2 /\
    length (range 2) = Z.to_nat 2 /\
    (forall i, solver_calls (year_trace (Groundwater.dt farm_params) i) = Z.to_nat 8766) /\
    solver_calls (concat (year_trace (Groundwater.dt farm_params) <$> range 2))
      = (Z.to_nat 2 * Z.to_nat 8766)%nat /\
    ((0 <? Groundwater.dt farm_params)%float = true -> 0 <= 8766).
Proof.
  apply (coupling_loop_terminates unit idle_solver farm_params 8766 farm_orders 2 farm).
  - exact idle_solver_total.
  - split; reflexivity.
  - exact farm_is_wf.
  - intros i. vm_compute. repeat constructor.
Defined.

(** One year on the farm with half-year time steps: the water table is 2 m
    deep everywhere, both farmers pump, and their two cells get a negative
    recharge. *)
Example farm_one_year :
  let p := {| Groundwater.nr := 4; Groundwater.nc := 4; Groundwater.dx := 100;
              Groundwater.pumping_rate := 0.00390625; Groundwater.dt := 15778800 |} in
  let r := @Groundwater.coupling_loop unit idle_solver p farm_orders 1 farm in
  r.1 = [ev_iteration 0; ev_run_for_one_year; ev_run_one_step 15778800;
         ev_run_one_step 15778800; ev_derive_field; ev_observe; ev_schedule_step;
         ev_aggregate; ev_write_forcing] /\
  returned r /\
  pumping <$> agents (Groundwater.farmer_model (final_state r)) = [true; true] /\
  data (depth_to_water_table (Groundwater.farmer_model (final_state r)))
    = replicate 16 2%float /\
  Groundwater.recharge (Groundwater.sim (final_state r))
    = [-0; -0; -0; -0;  -0; -0x1p-8 / 10000; -0; -0;
       -0; -0; -0x1p-8 / 10000; -0;  -0; -0; -0; -0]%float.
Proof. vm_compute. repeat split. Qed.

(** On a grid of 2 rows and 3 columns the first year stops in the count of
    the wells, which subscripts its (nr, nc) arrays with [x][y]. *)
Example wide_farm_one_year :
  let p := {| Groundwater.nr := 2; Groundwater.nc := 3; Groundwater.dx := 100;
              Groundwater.pumping_rate := 0.00390625; Groundwater.dt := 15778800 |} in
  let w := {| Groundwater.sim :=
                {| Groundwater.elev := replicate 6 0%float;
                   Groundwater.wt := replicate 6 (-2)%float;
                   Groundwater.recharge := replicate 6 0%float;
                   Groundwater.gdp := tt |};
              Groundwater.farmer_model :=
                final_state (FarmerModel_init no_draws 1 3 2 5
                               (NDArray [2; 3] (replicate 6 2%float))) |} in
  let r := @Groundwater.coupling_loop unit idle_solver p (fun _ => [0%nat]) 1 w in
  r.1 = [ev_iteration 0; ev_run_for_one_year; ev_run_one_step 15778800;
         ev_run_one_step 15778800; ev_derive_field; ev_observe; ev_schedule_step;
         ev_aggregate] /\
  value_of r = Raise IndexError.
Proof. vm_compute. split; reflexivity. Qed.

(** With a grid spacing of 2^-600 m, which is positive, the cell area
    [dx * dx] underflows to zero: the first year runs the solver, steps the
    agents and counts the wells, and then stops in the division that writes
    the recharge. *)
Example tiny_cell_divides_by_zero :
  let p := {| Groundwater.nr := 4; Groundwater.nc := 4; Groundwater.dx := 0x1p-600;
              Groundwater.pumping_rate := 0.00390625; Groundwater.dt := 15778800 |} in
  let r := @Groundwater.coupling_loop unit idle_solver p farm_orders 1 farm in
  (0 <? Groundwater.dx p)%float = true /\
  PrimFloat.is_zero (Groundwater.dx p * Groundwater.dx p) = true /\
  py_div (365.25 * 3600.0 * 24) (Groundwater.dt p) ≫= python_int = Ok 2 /\
  r.1 = [ev_iteration 0; ev_run_for_one_year; ev_run_one_step 15778800;
         ev_run_one_step 15778800; ev_derive_field; ev_observe; ev_schedule_step;
         ev_aggregate; ev_write_forcing] /\
  value_of r = Raise ZeroDivisionError.
Proof. vm_compute. repeat split. Qed.

(** * Further properties of the two notebooks *)

Section Steps.
Import Groundwater.
Context {G : Type} {Hsim : Simulation G}.

Lemma run_steps_total {A} dt (l : list A) (g : Landlab G) :
  solver_total Hsim ->
  exists g',
    for_each l (fun _ => run_one_step dt) g
      = (replicate (length l) (ev_run_one_step dt), Returns tt g') /\
    same_sizes g g'.
Proof.
  intros Hs. revert g. induction l as [|x l IH]; intros g.
  - exists g. split; [reflexivity|]. repeat split.
  - destruct (Hs dt g) as (g1 & E1 & L1 & L2 & L3).
    destruct (IH g1) as (g2 & E2 & M1 & M2 & M3).
    exists g2. split.
    + cbn [for_each length replicate].
      assert (E : run_one_step dt g = ([ev_run_one_step dt], Returns tt g1)).
      { unfold run_one_step, call. run. now rewrite E1. }
      returns E. now rewrite E2.
    + repeat split; congruence.
Qed.

Lemma run_for_one_day_total dt k (g : Landlab G) :
  solver_total Hsim ->
  py_div (3600.0 * 24) dt ≫= python_int = Ok k ->
  exists g',
    run_for_one_day dt g = (replicate (Z.to_nat k) (ev_run_one_step dt), Returns tt g') /\
    same_sizes g g'.
Proof.
  intros Hs Hk. unfold run_for_one_day.
  destruct (py_div (3600.0 * 24) dt) as [q|] eqn:Hq; [|discriminate].
  cbn [mbind result_bind] in Hk.
  destruct (run_steps_total dt (range k) g Hs) as (g' & E & L).
  exists g'. split; [|exact L].
  run. rewrite Hk. rewrite E. now rewrite length_range.
Qed.

Lemma run_for_one_year_total dt k (g : Landlab G) :
  solver_total Hsim ->
  py_div (365.25 * 3600.0 * 24) dt ≫= python_int = Ok k ->
  exists g',
    run_for_one_year dt g
      = (ev_run_for_one_year :: replicate (Z.to_nat k) (ev_run_one_step dt), Returns tt g') /\
    same_sizes g g'.
Proof.
  intros Hs Hk. unfold run_for_one_year.
  destruct (py_div (365.25 * 3600.0 * 24) dt) as [q|] eqn:Hq; [|discriminate].
  cbn [mbind result_bind] in Hk.
  destruct (run_steps_total dt (range k) g Hs) as (g' & E & L).
  exists g'. split; [|exact L].
  run. rewrite Hk. rewrite E. now rewrite length_range.
Qed.
End Steps.

(** ** Floats *)

Lemma SFcompare_refl x : x <> S754_nan -> SFcompare x x = Some Eq.
Proof.
  destruct x as [s|s| |s m e]; intros H; try congruence; cbn.
  - now destruct s.
  - now destruct s.
  - destruct s; rewrite Z.compare_refl.
    + now rewrite Pos.compare_cont_refl.
    + now rewrite Pos.compare_cont_refl.
Qed.

Lemma is_nan_spec x : PrimFloat.is_nan x = true -> Prim2SF x = S754_nan.
Proof.
  unfold PrimFloat.is_nan. rewrite FloatAxioms.eqb_spec. unfold SFeqb. intros H.
  destruct (Prim2SF x) as [s|s| |s m e] eqn:E; try reflexivity;
    rewrite SFcompare_refl in H by discriminate; discriminate.
Qed.

Lemma is_zero_spec x : PrimFloat.is_zero x = true <-> exists s, Prim2SF x = S754_zero s.
Proof.
  unfold PrimFloat.is_zero. rewrite FloatAxioms.eqb_spec. unfold SFeqb.
  change (Prim2SF zero) with (S754_zero false).
  destruct (Prim2SF x) as [s|s| |s m e]; cbn; split; intros H; eauto;
    try discriminate; try (destruct H; discriminate).
  - now destruct s.
  - now destruct s.
Qed.

Lemma binary_round_aux_signed s mx ex lx :
  match binary_round_aux prec emax s mx ex lx with
  | S754_zero s' => s' = s
  | S754_finite s' _ _ => s' = s
  | S754_infinity s' => s' = s
  | S754_nan => True
  end.
Proof.
  unfold binary_round_aux.
  destruct (shr_fexp prec emax mx ex lx) as [mrs' e'].
  destruct (shr_fexp prec emax _ e' loc_Exact) as [mrs'' e''].
  destruct (shr_m mrs''); [reflexivity| |exact I].
  destruct (e'' <=? emax - prec); reflexivity.
Qed.

(** The quotient of a positive number by a negative one is not positive. *)
Lemma python_int_quotient_nonpos c dt mc ec k :
  Prim2SF c = S754_finite false mc ec ->
  (dt <? 0)%float = true ->
  python_int (c / dt) = Ok k -> k <= 0.
Proof.
  intros Hc Hdt. unfold python_int. rewrite FloatAxioms.div_spec, Hc.
  rewrite FloatAxioms.ltb_spec in Hdt. unfold SFltb in Hdt.
  change (Prim2SF 0) with (S754_zero false) in Hdt.
  destruct (Prim2SF dt) as [s|s| |s m e]; cbn in Hdt; try discriminate.
  - destruct s; [|discriminate]. cbn. intros [= <-]. lia.
  - destruct s; [|discriminate]. cbn [SF64div SFdiv xorb].
    destruct (SFdiv_core_binary prec emax _ _ (Z.pos m) e) as [[mz ez] lz].
    pose proof (binary_round_aux_signed true mz ez lz) as H.
    destruct (binary_round_aux prec emax true mz ez lz) as [s'|s'| |s' m' e'];
      try discriminate.
    + intros [= <-]. lia.
    + subst s'. intros [= <-].
      assert (0 <= if 0 <=? e' then Z.pos m' * 2 ^ e' else Z.pos m' / 2 ^ (- e')); [|lia].
      destruct (0 <=? e') eqn:E.
      * apply Z.mul_nonneg_nonneg; [lia|]. apply Z.pow_nonneg. lia.
      * apply Z.div_pos; [lia|]. apply Z.pow_pos_nonneg; lia.
Qed.

Lemma range_nonpos k : k <= 0 -> range k = [].
Proof. intros H. unfold range. now replace (Z.to_nat k) with 0%nat by lia. Qed.

Lemma negative_dt_not_zero dt : (dt <? 0)%float = true -> PrimFloat.is_zero dt = false.
Proof.
  intros H. destruct (PrimFloat.is_zero dt) eqn:E; [|reflexivity].
  apply is_zero_spec in E as [s E].
  rewrite FloatAxioms.ltb_spec in H. unfold SFltb in H. rewrite E in H.
  change (Prim2SF 0) with (S754_zero false) in H. now destruct s.
Qed.

(** X1. With a solver that returns from every call, [run_for_one_day] calls
    it int(3600.0 * 24 / dt) times and [run_for_one_year] calls it
    int(365.25 * 3600.0 * 24 / dt) times, every call with the step [dt], and
    both return; the fields of the grid keep their sizes. *)
Theorem a_day_and_a_year_of_steps :
  forall G (sim : Groundwater.Simulation G) dt kd ky (g : Groundwater.Landlab G),
    solver_total sim ->
    py_div (3600.0 * 24) dt ≫= python_int = Ok kd ->
    py_div (365.25 * 3600.0 * 24) dt ≫= python_int = Ok ky ->
    (exists g',
       Groundwater.run_for_one_day dt g
         = (replicate (Z.to_nat kd) (ev_run_one_step dt), Returns tt g') /\
       same_sizes g g') /\
    (exists g',
       Groundwater.run_for_one_year dt g
         = (ev_run_for_one_year :: replicate (Z.to_nat ky) (ev_run_one_step dt),
            Returns tt g') /\
       same_sizes g g').
Proof.
  intros G sim dt kd ky g Hs Hd Hy. split.
  - now apply run_for_one_day_total.
  - now apply run_for_one_year_total.
Qed.

Lemma a_day_and_a_year_of_steps_witness :
  (exists g',
     @Groundwater.run_for_one_day unit idle_solver 3600 (Groundwater.sim farm)
       = (replicate (Z.to_nat 24) (ev_run_one_step 3600), Returns tt g') /\
     same_sizes (Groundwater.sim farm) g') /\
  (exists g',
     @Groundwater.run_for_one_year unit idle_solver 3600 (Groundwater.sim farm)
       = (ev_run_for_one_year :: replicate (Z.to_nat 8766) (ev_run_one_step 3600),
          Returns tt g') /\
     same_sizes (Groundwater.sim farm) g').
Proof.
  apply (a_day_and_a_year_of_steps unit idle_solver 3600 24 8766 (Groundwater.sim farm)).
  - exact idle_solver_total.
  - reflexivity.
  - reflexivity.
Defined.

(** X2. With a step of zero (0.0 or -0.0) [run_for_one_day] and
    [run_for_one_year] raise ZeroDivisionError, and with a step that is not a
    number they raise ValueError: in both cases before any call of the
    solver, and the grid is left as it was. *)
Theorem no_steps_without_a_count :
  forall G (sim : Groundwater.Simulation G) dt (g : Groundwater.Landlab G),
    (PrimFloat.is_zero dt = true ->
       Groundwater.run_for_one_day dt g = ([], Raises ZeroDivisionError g) /\
       Groundwater.run_for_one_year dt g
         = ([ev_run_for_one_year], Raises ZeroDivisionError g)) /\
    (PrimFloat.is_nan dt = true ->
       Groundwater.run_for_one_day dt g = ([], Raises ValueError g) /\
       Groundwater.run_for_one_year dt g = ([ev_run_for_one_year], Raises ValueError g)).
Proof.
  intros G sim dt g. split.
  - intros Hz. unfold Groundwater.run_for_one_day, Groundwater.run_for_one_year, py_div.
    rewrite Hz. split; reflexivity.
  - intros Hn.
    assert (Hz : PrimFloat.is_zero dt = false).
    { destruct (PrimFloat.is_zero dt) eqn:E; [|reflexivity].
      apply is_zero_spec in E as [s E]. apply is_nan_spec in Hn. congruence. }
    assert (Hq : forall c, python_int (c / dt) = Raise ValueError).
    { intros c. unfold python_int. rewrite FloatAxioms.div_spec, (is_nan_spec _ Hn).
      unfold SF64div, SFdiv. now destruct (Prim2SF c). }
    unfold Groundwater.run_for_one_day, Groundwater.run_for_one_year, py_div.
    rewrite Hz. run. rewrite !Hq. split; reflexivity.
Qed.

Lemma no_steps_without_a_count_witness :
  @Groundwater.run_for_one_day unit idle_solver 0 (Groundwater.sim farm)
    = ([], Raises ZeroDivisionError (Groundwater.sim farm)) /\
  @Groundwater.run_for_one_year unit idle_solver 0 (Groundwater.sim farm)
    = ([ev_run_for_one_year], Raises ZeroDivisionError (Groundwater.sim farm)).
Proof.
  apply (proj1 (no_steps_without_a_count unit idle_solver 0 (Groundwater.sim farm))).
  reflexivity.
Defined.

(** X3. With a negative step neither function calls the solver or changes
    the grid: the number of steps that [int] gives is not positive, so the
    range of the loop is empty and the function returns at once; when the
    quotient is infinite or not a number, [int] raises instead. *)
Theorem negative_step_never_runs :
  forall G (sim : Groundwater.Simulation G) dt (g : Groundwater.Landlab G),
    (dt <? 0)%float = true ->
    (Groundwater.run_for_one_day dt g).1 = [] /\
    final_state (Groundwater.run_for_one_day dt g) = g /\
    (Groundwater.run_for_one_year dt g).1 = [ev_run_for_one_year] /\
    final_state (Groundwater.run_for_one_year dt g) = g /\
    (forall k, py_div (3600.0 * 24) dt ≫= python_int = Ok k ->
       Groundwater.run_for_one_day dt g = ([], Returns tt g)) /\
    (forall k, py_div (365.25 * 3600.0 * 24) dt ≫= python_int = Ok k ->
       Groundwater.run_for_one_year dt g = ([ev_run_for_one_year], Returns tt g)).
Proof.
  intros G sim dt g Hdt.
  assert (Hday : exists m e, Prim2SF (3600.0 * 24) = S754_finite false m e)
    by (vm_compute; eauto).
  assert (Hyear : exists m e, Prim2SF (365.25 * 3600.0 * 24) = S754_finite false m e)
    by (vm_compute; eauto).
  destruct Hday as (md & ed & Hday). destruct Hyear as (my & ey & Hyear).
  pose proof (negative_dt_not_zero _ Hdt) as Hz.
  unfold Groundwater.run_for_one_day, Groundwater.run_for_one_year, py_div.
  rewrite Hz. run.
  split; [|split; [|split; [|split; [|split]]]].
  - destruct (python_int (3600.0 * 24 / dt)) as [k|e] eqn:Hk; run; [|reflexivity].
    now rewrite (range_nonpos k (python_int_quotient_nonpos _ _ _ _ _ Hday Hdt Hk)).
  - destruct (python_int (3600.0 * 24 / dt)) as [k|e] eqn:Hk; run; [|reflexivity].
    now rewrite (range_nonpos k (python_int_quotient_nonpos _ _ _ _ _ Hday Hdt Hk)).
  - destruct (python_int (365.25 * 3600.0 * 24 / dt)) as [k|e] eqn:Hk; run; [|reflexivity].
    now rewrite (range_nonpos k (python_int_quotient_nonpos _ _ _ _ _ Hyear Hdt Hk)).
  - destruct (python_int (365.25 * 3600.0 * 24 / dt)) as [k|e] eqn:Hk; run; [|reflexivity].
    now rewrite (range_nonpos k (python_int_quotient_nonpos _ _ _ _ _ Hyear Hdt Hk)).
  - intros k Hk. rewrite Hk.
    now rewrite (range_nonpos k (python_int_quotient_nonpos _ _ _ _ _ Hday Hdt Hk)).
  - intros k Hk. rewrite Hk.
    now rewrite (range_nonpos k (python_int_quotient_nonpos _ _ _ _ _ Hyear Hdt Hk)).
Qed.

Lemma negative_step_never_runs_witness :
  (@Groundwater.run_for_one_day unit idle_solver (-3600) (Groundwater.sim farm)).1 = [] /\
  final_state (@Groundwater.run_for_one_day unit idle_solver (-3600) (Groundwater.sim farm))
    = Groundwater.sim farm /\
  (@Groundwater.run_for_one_year unit idle_solver (-3600) (Groundwater.sim farm)).1
    = [ev_run_for_one_year] /\
  final_state (@Groundwater.run_for_one_year unit idle_solver (-3600) (Groundwater.sim farm))
    = Groundwater.sim farm /\
  (forall k, py_div (3600.0 * 24) (-3600) ≫= python_int = Ok k ->
     @Groundwater.run_for_one_day unit idle_solver (-3600) (Groundwater.sim farm)
       = ([], Returns tt (Groundwater.sim farm))) /\
  (forall k, py_div (365.25 * 3600.0 * 24) (-3600) ≫= python_int = Ok k ->
     @Groundwater.run_for_one_year unit idle_solver (-3600) (Groundwater.sim farm)
       = ([ev_run_for_one_year], Returns tt (Groundwater.sim farm))).
Proof.
  apply (negative_step_never_runs unit idle_solver (-3600) (Groundwater.sim farm)).
  reflexivity.
Defined.

(** ** The model that [FarmerModel.__init__] builds *)

Lemma emits_create_agent wd i : emits (create_agent wd i) [].
Proof.
  unfold create_agent, schedule_add, model_randrange, place_agent. silent.
Qed.

Lemma created_placed rng N w h wd d k i x y col cell m :
  created rng N w h wd d k m ->
  Mesa.cells (grid m) !! Z.to_nat x = Some col ->
  col !! Z.to_nat y = Some cell ->
  created rng N w h wd d (S k) (placed wd i x y col cell m).
Proof.
  intros (HN & Hlen & Hall & Hd & Hw2 & Hw & Hh & Ht & (Hcl & Hcols) & Hdr & Hcur) Hcol Hcell.
  unfold created, placed; cbn.
  split; [exact HN|]. split; [rewrite length_app; cbn; lia|].
  split; [apply Forall_app; split; [exact Hall|repeat constructor]|].
  split; [exact Hd|]. split; [exact Hw2|]. split; [exact Hw|]. split; [exact Hh|].
  split; [exact Ht|]. split; [|split; [exact Hdr|lia]].
  split; cbn.
  - now rewrite length_insert.
  - apply Forall_insert; [exact Hcols|]. rewrite length_insert.
    apply (proj1 (Forall_forall _ _) Hcols). apply list_elem_of_lookup. eauto.
Qed.

Lemma created_new rng N w h wd d :
  created rng N w h wd d 0 (FarmerModel_new rng N w h d).
Proof.
  unfold created, FarmerModel_new; cbn. repeat split; try reflexivity; try lia.
  - constructor.
  - cbn. apply length_replicate.
  - cbn. apply Forall_replicate, length_replicate.
Qed.

Lemma FarmerModel_init_created rng N w h wd d t m :
  FarmerModel_init rng N w h wd d = (t, Returns tt m) ->
  created rng N w h wd d (Z.to_nat N) m.
Proof.
  unfold FarmerModel_init. intros Hrun.
  apply (for_each_returns_inv
           (fun done s => created rng N w h wd d (length done) s)
           (create_agent wd)) with (done := []) in Hrun.
  - cbn in Hrun. now rewrite length_range in Hrun.
  - intros done i s t' s' Hc Hrun'.
    apply create_agent_returns_inv in Hrun' as (_ & col & cell & Hcol & Hcell & _ & ->).
    rewrite length_app. cbn. replace (length done + 1)%nat with (S (length done)) by lia.
    now apply created_placed.
  - apply created_new.
Qed.

(** X4. The model that [FarmerModel.__init__] returns holds N agents (none
    when N is negative), scheduled in the order of their creation; every
    agent pumps and has the well depth that was given; the model keeps the
    field it was given and has no observed field [wt_depth_2d] yet; its grid
    is a torus of the given width and height with all its columns and cells;
    and two random numbers have been drawn for every agent. *)
Theorem fresh_model :
  forall rng N w h wd d t m,
    FarmerModel_init rng N w h wd d = (t, Returns tt m) ->
    t = [] /\
    num_agents m = N /\
    length (agents m) = Z.to_nat N /\
    schedule m = seq 0 (Z.to_nat N) /\
    Forall (fun a => pumping a = true /\ well_depth a = wd) (agents m) /\
    depth_to_water_table m = d /\
    wt_depth_2d m = None /\
    Mesa.width (grid m) = w /\ Mesa.height (grid m) = h /\ Mesa.torus (grid m) = true /\
    grid_wf (grid m) /\
    draws (random m) = draws rng /\
    cursor (random m) = (cursor rng + 2 * Z.to_nat N)%nat.
Proof.
  intros rng N w h wd d t m Hrun.
  pose proof (FarmerModel_init_created _ _ _ _ _ _ _ _ Hrun)
    as (HN & Hlen & Hall & Hd & Hw2 & Hw & Hh & Ht & Hwf & Hdr & Hcur).
  pose proof (FarmerModel_init_inv _ _ _ _ _ _ _ _ Hrun) as ((_ & Hs & _) & _).
  split.
  { pose proof (emits_for_each_silent (range N) (create_agent wd) (emits_create_agent wd)
                  (FarmerModel_new rng N w h d)) as He.
    unfold FarmerModel_init in Hrun. rewrite Hrun in He. exact He. }
  rewrite Hlen in Hs. auto 20.
Qed.

Lemma fresh_model_witness :
  [] = ([] : list event) /\
  num_agents two_farmers = 2 /\
  length (agents two_farmers) = Z.to_nat 2 /\
  schedule two_farmers = seq 0 (Z.to_nat 2) /\
  Forall (fun a => pumping a = true /\ well_depth a = 5%float) (agents two_farmers) /\
  depth_to_water_table two_farmers = two_farmers_field /\
  wt_depth_2d two_farmers = None /\
  Mesa.width (grid two_farmers) = 4%nat /\ Mesa.height (grid two_farmers) = 4%nat /\
  Mesa.torus (grid two_farmers) = true /\
  grid_wf (grid two_farmers) /\
  draws (random two_farmers) = (fun k => Z.of_nat k / 2) /\
  cursor (random two_farmers) = (0 + 2 * Z.to_nat 2)%nat.
Proof.
  apply (fresh_model {| draws := fun k => Z.of_nat k / 2; cursor := 0 |} 2 4%nat 4%nat 5%float
           two_farmers_field [] two_farmers).
  vm_compute. reflexivity.
Defined.

(** ** When [FarmerModel.__init__] raises *)

Lemma range_pos N : 0 < N -> exists l, range N = 0 :: l.
Proof.
  intros H. unfold range. destruct (Z.to_nat N) as [|k] eqn:E; [lia|].
  cbn. eauto.
Qed.

Lemma create_agent_narrow wd i m :
  Z.of_nat (Mesa.width (grid m)) - 2 <= 0 ->
  value_of (create_agent wd i m) = Raise ValueError.
Proof.
  intros Hw. destruct m as [N [w h tor cs] d sch [dr cur] w2 ags].
  unfold create_agent, schedule_add, model_randrange, place_agent, next_draw, randrange,
    value_of.
  run. cbn -[Z.modulo Z.sub Z.leb Z.of_nat Z.add Z.to_nat] in *.
  now rewrite (proj2 (Z.leb_le _ _) Hw).
Qed.

Lemma create_agent_low wd i m col :
  0 < Z.of_nat (Mesa.width (grid m)) - 2 ->
  Mesa.cells (grid m) !! Z.to_nat (drawn_x m) = Some col ->
  Z.of_nat (length col) <= drawn_y m ->
  value_of (create_agent wd i m) = Raise IndexError.
Proof.
  intros Ew Hcol Hy. pose proof (drawn_bounds m Ew) as [Hbx Hby]. revert Ew Hcol Hy Hbx Hby.
  destruct m as [N [w h tor cs] d sch [dr cur] w2 ags].
  unfold create_agent, schedule_add, model_randrange, place_agent, next_draw, randrange,
    drawn_x, drawn_y, value_of.
  cbn -[Z.modulo Z.sub Z.leb Z.of_nat Z.add Z.to_nat]. intros Ew.
  set (x := dr cur `mod` (Z.of_nat w - 2) + 1).
  set (y := dr (S cur) `mod` (Z.of_nat w - 2) + 1).
  intros Hcol Hy Hbx Hby.
  run. cbn -[Z.modulo Z.sub Z.leb Z.of_nat Z.add Z.to_nat].
  rewrite (proj2 (Z.leb_gt _ _) Ew).
  cbn -[Z.modulo Z.sub Z.leb Z.of_nat Z.add Z.to_nat].
  rewrite (proj2 (Z.leb_gt _ _) Ew).
  cbn -[Z.modulo Z.sub Z.leb Z.of_nat Z.add Z.to_nat]. fold x.
  rewrite (py_getitem_lookup cs x col) by (lia || exact Hcol).
  cbn -[Z.modulo Z.sub Z.leb Z.of_nat Z.add Z.to_nat]. fold y.
  unfold py_getitem, norm_index.
  assert ((y <? Z.of_nat (length col)) = false) as -> by lia.
  assert ((y <? 0) = false) as -> by lia.
  rewrite !andb_false_r. reflexivity.
Qed.

Lemma value_of_for_each_raises {S A} (body : A -> prog S unit) x l s e :
  value_of (body x s) = Raise e -> value_of (for_each (x :: l) body s) = Raise e.
Proof.
  unfold value_of. cbn [for_each]. unfold mbind, prog_bind.
  destruct (body x s) as [t [[] s'|e' s']]; cbn; [discriminate|auto].
Qed.

(** X5. [FarmerModel.__init__] returns whatever the random draws are
    exactly when no agent is asked for or 3 <= width <= height + 1.  With an
    agent to create, a width of at most 2 makes [randrange] raise ValueError
    whatever the draws; and a width of at least 3 that exceeds height + 1
    lets a draw choose a row that the grid does not have, so that placing
    the agent raises IndexError. *)
Theorem init_returns_iff :
  forall N (w h : nat) wd d,
    ((forall rng, returned (FarmerModel_init rng N w h wd d))
       <-> N <= 0 \/ (3 <= w <= h + 1)%nat) /\
    (0 < N -> (w <= 2)%nat ->
       forall rng, value_of (FarmerModel_init rng N w h wd d) = Raise ValueError) /\
    (0 < N -> (3 <= w)%nat -> (h + 1 < w)%nat ->
       value_of (FarmerModel_init {| draws := fun _ => Z.of_nat w - 3; cursor := 0 |}
                   N w h wd d) = Raise IndexError).
Proof.
  intros N w h wd d.
  assert (Hnarrow : 0 < N -> (w <= 2)%nat ->
            forall rng, value_of (FarmerModel_init rng N w h wd d) = Raise ValueError).
  { intros HN Hw rng. destruct (range_pos N HN) as [l Hl].
    unfold FarmerModel_init. rewrite Hl. apply value_of_for_each_raises.
    apply create_agent_narrow. cbn. lia. }
  assert (Hlow : 0 < N -> (3 <= w)%nat -> (h + 1 < w)%nat ->
            value_of (FarmerModel_init {| draws := fun _ => Z.of_nat w - 3; cursor := 0 |}
                        N w h wd d) = Raise IndexError).
  { intros HN Hw Hh. destruct (range_pos N HN) as [l Hl].
    unfold FarmerModel_init. rewrite Hl. apply value_of_for_each_raises.
    assert (Hx : (Z.of_nat w - 3) `mod` (Z.of_nat w - 2) + 1 = Z.of_nat w - 2).
    { rewrite Z.mod_small by lia. lia. }
    apply (create_agent_low _ _ _ (replicate h [])).
    - cbn. lia.
    - unfold drawn_x. cbn -[Z.modulo Z.sub Z.of_nat Z.add Z.to_nat]. rewrite Hx.
      apply lookup_replicate_2. lia.
    - unfold drawn_y. cbn -[Z.modulo Z.sub Z.of_nat Z.add Z.to_nat]. rewrite Hx.
      rewrite length_replicate. lia. }
  split; [|split; assumption]. split.
  - intros Hall. destruct (Z_lt_le_dec 0 N) as [HN|HN]; [|now left]. right.
    destruct (le_lt_dec w 2) as [Hw|Hw].
    + specialize (Hall no_draws). specialize (Hnarrow HN Hw no_draws).
      unfold returned in Hall. unfold value_of in Hnarrow.
      destruct (FarmerModel_init no_draws N w h wd d).2; [discriminate|contradiction].
    + destruct (le_lt_dec w (h + 1)) as [Hh|Hh]; [lia|].
      specialize (Hall {| draws := fun _ => Z.of_nat w - 3; cursor := 0 |}).
      specialize (Hlow HN Hw Hh). unfold returned in Hall. unfold value_of in Hlow.
      destruct (FarmerModel_init _ N w h wd d).2; [discriminate|contradiction].
  - intros [HN|Hwh] rng.
    + unfold FarmerModel_init. rewrite range_nonpos by exact HN. exact I.
    + destruct (FarmerModel_init_returns rng N w h wd d Hwh) as [m ->]. exact I.
Qed.

Lemma init_returns_iff_witness :
  value_of (FarmerModel_init no_draws 1 2 2 5 (NDArray [2; 2] (replicate 4 0%float)))
  = Raise ValueError.
Proof.
  apply (proj1 (proj2 (init_returns_iff 1 2 2 5 (NDArray [2; 2] (replicate 4 0%float))))
           ltac:(lia) ltac:(lia) no_draws).
Defined.

Lemma compare_cont_Eq p q : Pos.compare_cont Eq p q = (p ?= q)%positive.
Proof. reflexivity. Qed.

Lemma SFleb_trans a b c :
  SFleb a b = true -> SFleb b c = true -> SFleb a c = true.
Proof.
  unfold SFleb.
  destruct a as [sa|sa| |sa ma ea], b as [sb|sb| |sb mb eb], c as [sc|sc| |sc mc ec];
    cbn; try discriminate; try reflexivity;
    repeat match goal with s : bool |- _ => destruct s end;
    cbn; try discriminate; try reflexivity;
    repeat match goal with
           | |- context [(?x ?= ?y)%Z] => destruct (Z.compare_spec x y); subst
           | |- context [Pos.compare_cont Eq ?x ?y] =>
               change (Pos.compare_cont Eq x y) with (Pos.compare x y)
           | |- context [(?x ?= ?y)%positive] => destruct (Pos.compare_spec x y); subst
           end; cbn [CompOpp]; try discriminate; try reflexivity; try lia.
Qed.

Lemma leb_trans (x y z : float) :
  (x <=? y)%float = true -> (y <=? z)%float = true -> (x <=? z)%float = true.
Proof. rewrite !FloatAxioms.leb_spec. apply SFleb_trans. Qed.

(** ** A second step under the same field *)

Lemma observed_decided w w' a : observed w (decided w' a) = observed w a.
Proof. unfold decided. now destruct (observed w' a). Qed.

Lemma decided_idem w a : decided w (decided w a) = decided w a.
Proof.
  destruct (observed w a) as [d|e] eqn:E.
  - assert (H : decided w a = set_pumping (negb (geb d (well_depth a))) a)
      by (unfold decided; now rewrite E).
    rewrite H at 1. rewrite (decided_set_pumping _ _ _ _ E). reflexivity.
  - unfold decided. rewrite E. now rewrite E.
Qed.

Lemma can_step_activated w order l r :
  can_step w l r -> can_step w (activated w order l) r.
Proof.
  intros (a & d & Ha & Hd). unfold can_step.
  rewrite (lookup_activated _ _ _ _ _ Ha).
  destruct (bool_decide (r ∈ order)).
  - exists (decided w a), d. split; [reflexivity|]. now rewrite observed_decided.
  - eauto.
Qed.

Lemma activated_absorb w o1 o2 l :
  (forall r, r ∈ o2 -> r ∈ o1) ->
  activated w o2 (activated w o1 l) = activated w o1 l.
Proof.
  intros Hsub. apply list_eq. intros i. unfold activated.
  rewrite !list_lookup_imap. destruct (l !! i) as [a|]; [|reflexivity]. cbn.
  destruct (bool_decide (i ∈ o2)) eqn:E2; [|reflexivity].
  apply bool_decide_eq_true in E2.
  rewrite (bool_decide_eq_true_2 _ (Hsub i E2)). now rewrite decided_idem.
Qed.

Lemma FarmerModel_step_returns_inv order m t m1 :
  FarmerModel_step order m = (t, Returns tt m1) ->
  exists w,
    np_reshape2 (depth_to_water_table m)
      (Z.of_nat (Mesa.width (grid m))) (Z.of_nat (Mesa.height (grid m))) = Ok w /\
    Forall (can_step w (agents m)) order /\
    t = [ev_observe; ev_schedule_step] /\
    m1 = set_agents (activated w order) (set_wt_depth_2d w m).
Proof.
  intros Hrun.
  destruct (np_reshape2 (depth_to_water_table m)
              (Z.of_nat (Mesa.width (grid m))) (Z.of_nat (Mesa.height (grid m))))
    as [w|e] eqn:Hr.
  - exists w. split; [reflexivity|].
    destruct (decide (Forall (can_step w (agents m)) order)) as [Hall|Hno].
    + rewrite (FarmerModel_step_returns _ _ _ Hr Hall) in Hrun.
      injection Hrun as <- <-. auto.
    + rewrite (FarmerModel_step_reshaped _ _ _ Hr) in Hrun.
      destruct (for_each_steps_raise w order (set_wt_depth_2d w m) eq_refl Hno)
        as (e & m' & E).
      rewrite E in Hrun. discriminate.
  - rewrite (FarmerModel_step_no_reshape _ _ _ Hr) in Hrun. discriminate.
Qed.

(** X6. A second [FarmerModel.step] under the same depth field changes
    neither an agent nor a field: when a step has returned, a step that
    activates, in any order, agents that the first one activated returns,
    and every agent (identifier, position, well depth and [pumping] flag),
    the grid, the list of scheduled agents, the depth field and its reshaped
    copy are as the first step left them.  The counters of the scheduler
    and the random generator, which the shuffle of a real step advances, are
    not part of the statement. *)
Theorem second_step_changes_nothing :
  forall m order1 order2 t m1,
    (forall r, r ∈ order2 -> r ∈ order1) ->
    FarmerModel_step order1 m = (t, Returns tt m1) ->
    exists m2,
      FarmerModel_step order2 m1 = ([ev_observe; ev_schedule_step], Returns tt m2) /\
      agents m2 = agents m1 /\
      wt_depth_2d m2 = wt_depth_2d m1 /\
      depth_to_water_table m2 = depth_to_water_table m1 /\
      grid m2 = grid m1 /\
      schedule m2 = schedule m1 /\
      num_agents m2 = num_agents m1.
Proof.
  intros m order1 order2 t m1 Hsub Hrun.
  apply FarmerModel_step_returns_inv in Hrun as (w & Hr & Hall & -> & ->).
  eexists. split.
  - apply (FarmerModel_step_returns order2 _ w); [exact Hr|].
    cbn [agents set_agents set_wt_depth_2d].
    apply Forall_forall. intros r Hr2. apply can_step_activated.
    apply (proj1 (Forall_forall _ _) Hall). now apply Hsub.
  - cbn [agents wt_depth_2d depth_to_water_table grid schedule num_agents
         set_agents set_wt_depth_2d].
    split; [now apply activated_absorb|]. repeat split.
Qed.

Lemma second_step_changes_nothing_witness :
  exists m2,
    FarmerModel_step [0%nat; 1%nat]
      (final_state (FarmerModel_step [1%nat; 0%nat] two_farmers))
    = ([ev_observe; ev_schedule_step], Returns tt m2) /\
    agents m2 = agents (final_state (FarmerModel_step [1%nat; 0%nat] two_farmers)) /\
    wt_depth_2d m2
      = wt_depth_2d (final_state (FarmerModel_step [1%nat; 0%nat] two_farmers)) /\
    depth_to_water_table m2
      = depth_to_water_table (final_state (FarmerModel_step [1%nat; 0%nat] two_farmers)) /\
    grid m2 = grid (final_state (FarmerModel_step [1%nat; 0%nat] two_farmers)) /\
    schedule m2 = schedule (final_state (FarmerModel_step [1%nat; 0%nat] two_farmers)) /\
    num_agents m2
      = num_agents (final_state (FarmerModel_step [1%nat; 0%nat] two_farmers)).
Proof.
  apply (second_step_changes_nothing two_farmers [1%nat; 0%nat] [0%nat; 1%nat]
           [ev_observe; ev_schedule_step]).
  - intros r Hr. apply list_elem_of_In. apply list_elem_of_In in Hr. cbn in *. tauto.
  - vm_compute. reflexivity.
Defined.

(** ** A deeper water table *)

Lemma np_getitem2_data {A} (w : ndarray A) x y d :
  np_getitem2 w x y = Ok d ->
  exists k, np_offset2 w x y = Ok k /\ data w !! Z.to_nat k = Some d.
Proof.
  unfold np_getitem2. destruct (np_offset2 w x y) as [k|e]; [|discriminate].
  cbn. destruct (data w !! Z.to_nat k) as [v|] eqn:E; [|discriminate].
  intros [= <-]. eauto.
Qed.

Lemma np_offset2_shape {A B} (w : ndarray A) (w' : ndarray B) x y :
  shape w' = shape w -> np_offset2 w' x y = np_offset2 w x y.
Proof. intros E. unfold np_offset2. now rewrite E. Qed.

Lemma decided_deeper w w' a d d' :
  observed w a = Ok d -> observed w' a = Ok d' ->
  (d <=? d')%float = true ->
  pumping (decided w' a) = true -> pumping (decided w a) = true.
Proof.
  intros Hd Hd' Hle. unfold decided. rewrite Hd, Hd'. cbn.
  destruct (geb d (well_depth a)) eqn:E; [|reflexivity].
  unfold geb in *. now rewrite (leb_trans _ _ _ E Hle).
Qed.

(** X7. A deeper water table turns no well on: when the field [f'] is at
    least as deep as the field [f] at every node, every activated agent that
    pumps after a step under [f'] also pumps after the step under [f]. *)
Theorem deeper_water_fewer_pumps :
  forall m order f f' t m1 t' m1' r a1 a1',
    deeper f f' ->
    FarmerModel_step order (set_depth_to_water_table f m) = (t, Returns tt m1) ->
    FarmerModel_step order (set_depth_to_water_table f' m) = (t', Returns tt m1') ->
    r ∈ order ->
    agents m1 !! r = Some a1 ->
    agents m1' !! r = Some a1' ->
    pumping a1' = true -> pumping a1 = true.
Proof.
  intros m order f f' t m1 t' m1' r a1 a1' [Hshape Hdata] Hrun Hrun' Hr Ha1 Ha1'.
  apply FarmerModel_step_returns_inv in Hrun as (w & Hw & Hall & _ & ->).
  apply FarmerModel_step_returns_inv in Hrun' as (w' & Hw' & Hall' & _ & ->).
  cbn [agents set_agents set_wt_depth_2d set_depth_to_water_table depth_to_water_table grid]
    in *.
  destruct (np_reshape2_nonneg _ _ _ _ (Nat2Z.is_nonneg _) (Nat2Z.is_nonneg _) Hw)
    as (_ & Hs & Hdt).
  destruct (np_reshape2_nonneg _ _ _ _ (Nat2Z.is_nonneg _) (Nat2Z.is_nonneg _) Hw')
    as (_ & Hs' & Hdt').
  destruct (proj1 (Forall_forall _ _) Hall r Hr) as (a & d & Ha & Hd).
  destruct (proj1 (Forall_forall _ _) Hall' r Hr) as (a' & d' & Ha' & Hd').
  assert (a' = a) as -> by congruence.
  rewrite (lookup_activated _ _ _ _ _ Ha), bool_decide_eq_true_2 in Ha1 by exact Hr.
  rewrite (lookup_activated _ _ _ _ _ Ha), bool_decide_eq_true_2 in Ha1' by exact Hr.
  injection Ha1 as <-. injection Ha1' as <-.
  apply (decided_deeper w w' a d d' Hd Hd').
  unfold observed in Hd, Hd'. destruct (pos a) as [[x y]|]; [|discriminate].
  apply np_getitem2_data in Hd as (k & Hk & Hdk).
  apply np_getitem2_data in Hd' as (k' & Hk' & Hdk').
  rewrite (np_offset2_shape w w') in Hk' by congruence.
  assert (k' = k) as -> by congruence.
  rewrite Hdt in Hdk. rewrite Hdt' in Hdk'.
  exact (Forall2_lookup_lr _ _ _ _ _ _ Hdata Hdk Hdk').
Qed.

Lemma deeper_water_fewer_pumps_witness :
  exists a1,
    agents (final_state (FarmerModel_step [0%nat; 1%nat]
                           (set_depth_to_water_table (NDArray [4; 4] (replicate 16 2%float))
                              two_farmers))) !! 1%nat = Some a1 /\
    pumping a1 = true.
Proof.
  eexists. split; [vm_compute; reflexivity|].
  apply (deeper_water_fewer_pumps two_farmers [0%nat; 1%nat]
           (NDArray [4; 4] (replicate 16 2%float)) two_farmers_field
           [ev_observe; ev_schedule_step]
           (final_state (FarmerModel_step [0%nat; 1%nat]
                           (set_depth_to_water_table (NDArray [4; 4] (replicate 16 2%float))
                              two_farmers)))
           [ev_observe; ev_schedule_step]
           (final_state (FarmerModel_step [0%nat; 1%nat]
                           (set_depth_to_water_table two_farmers_field two_farmers)))
           1%nat _
           {| unique_id := 1; pos := Some (2, 2); pumping := true; well_depth := 5 |}).
  - split; [reflexivity|]. cbn. repeat constructor.
  - vm_compute. reflexivity.
  - vm_compute. reflexivity.
  - right. left.
  - vm_compute. reflexivity.
  - vm_compute. reflexivity.
  - reflexivity.
Defined.

(** ** Loops over the cells of a grid *)

Lemma succeeds_for_fold_indexed {St A B} (I : nat -> B -> St -> Prop) (l : list A)
    (body : A -> B -> prog St B) :
  (forall j x acc s, l !! j = Some x -> I j acc s -> succeeds (body x acc) s (I (S j))) ->
  forall acc s, I 0%nat acc s -> succeeds (for_fold l body acc) s (I (length l)).
Proof.
  revert I. induction l as [|x l IH]; intros I Hb acc s H0; cbn [for_fold length].
  - exact H0.
  - apply succeeds_bind. eapply succeeds_weaken; [apply (Hb 0%nat x); [reflexivity|exact H0]|].
    intros acc' s' H1. apply (IH (fun j => I (S j))); [|exact H1].
    intros j y acc0 s0 Hj. now apply Hb.
Qed.

Lemma succeeds_for_each_indexed {St A} (I : nat -> St -> Prop) (l : list A)
    (body : A -> prog St unit) :
  (forall j x s, l !! j = Some x -> I j s -> succeeds (body x) s (fun _ => I (S j))) ->
  forall s, I 0%nat s -> succeeds (for_each l body) s (fun _ => I (length l)).
Proof.
  revert I. induction l as [|x l IH]; intros I Hb s H0; cbn [for_each length].
  - exact H0.
  - apply succeeds_bind. eapply succeeds_weaken; [apply (Hb 0%nat x); [reflexivity|exact H0]|].
    intros ? s' H1. apply (IH (fun j => I (S j))); [|exact H1].
    intros j y s0 Hj. now apply Hb.
Qed.

Lemma lookup_concat_rows {A} (ls : list (list A)) h i j col c :
  Forall (fun col => length col = h) ls ->
  ls !! i = Some col -> col !! j = Some c ->
  concat ls !! (i * h + j)%nat = Some c.
Proof.
  intros Hall. revert i. induction Hall as [|col0 ls Hlen Hall IH]; intros [|i] Hcol Hc;
    try discriminate; cbn in *.
  - injection Hcol as ->. now apply lookup_app_l_Some.
  - rewrite lookup_app_r by lia.
    replace (h + i * h + j - length col0)%nat with (i * h + j)%nat by lia.
    now apply IH.
Qed.

Lemma length_concat_rows {A} (ls : list (list A)) h :
  Forall (fun col => length col = h) ls -> length (concat ls) = (length ls * h)%nat.
Proof.
  induction 1 as [|col ls Hlen Hall IH]; cbn; [reflexivity|].
  rewrite length_app, IH. lia.
Qed.

Lemma coords_rows g :
  Mesa.coords g
  = concat ((fun x => (fun y => (x, y)) <$> range (Z.of_nat (Mesa.height g)))
              <$> range (Z.of_nat (Mesa.width g))).
Proof.
  unfold Mesa.coords. induction (range (Z.of_nat (Mesa.width g))) as [|x l IH]; cbn.
  - reflexivity.
  - rewrite IH. clear IH. apply (f_equal (fun r => r ++ _)).
    induction (range (Z.of_nat (Mesa.height g))) as [|y l' IH']; cbn; [reflexivity|].
    now rewrite IH'.
Qed.

Lemma lookup_range n (i : nat) : (i < Z.to_nat n)%nat -> range n !! i = Some (Z.of_nat i).
Proof.
  intros H. unfold range. rewrite list_lookup_fmap, lookup_seq_lt by exact H. reflexivity.
Qed.

Lemma length_coords g : length (Mesa.coords g) = (Mesa.width g * Mesa.height g)%nat.
Proof.
  rewrite coords_rows, (length_concat_rows _ (Mesa.height g)).
  - rewrite length_fmap, length_range. lia.
  - apply Forall_fmap, Forall_forall. intros x _. cbn.
    rewrite length_fmap, length_range. lia.
Qed.

Lemma lookup_coords g (i j : nat) :
  (i < Mesa.width g)%nat -> (j < Mesa.height g)%nat ->
  Mesa.coords g !! (i * Mesa.height g + j)%nat = Some (Z.of_nat i, Z.of_nat j).
Proof.
  intros Hi Hj. rewrite coords_rows.
  apply (lookup_concat_rows _ _ _ _
           ((fun y => (Z.of_nat i, y)) <$> range (Z.of_nat (Mesa.height g)))).
  - apply Forall_fmap, Forall_forall. intros x _. cbn.
    rewrite length_fmap, length_range. lia.
  - rewrite list_lookup_fmap, lookup_range by lia. reflexivity.
  - rewrite list_lookup_fmap, lookup_range by lia. reflexivity.
Qed.

Lemma lookup_coords_inv g k x y :
  Mesa.coords g !! k = Some (x, y) ->
  0 <= x < Z.of_nat (Mesa.width g) /\ 0 <= y < Z.of_nat (Mesa.height g) /\
  k = (Z.to_nat x * Mesa.height g + Z.to_nat y)%nat.
Proof.
  intros Hk. pose proof (lookup_lt_Some _ _ _ Hk) as Hlt. rewrite length_coords in Hlt.
  assert (Hh : (0 < Mesa.height g)%nat) by (destruct (Mesa.height g); lia).
  pose proof (Nat.div_mod_eq k (Mesa.height g)) as Hdm.
  pose proof (Nat.mod_upper_bound k (Mesa.height g)) as Hm.
  assert (Hd : (k / Mesa.height g < Mesa.width g)%nat).
  { apply Nat.Div0.div_lt_upper_bound. lia. }
  pose proof (lookup_coords g (k / Mesa.height g) (k mod Mesa.height g) Hd) as Hl.
  replace (k / Mesa.height g * Mesa.height g + k mod Mesa.height g)%nat with k in Hl by lia.
  rewrite Hl in Hk by lia. injection Hk as <- <-. lia.
Qed.

Lemma lookup_cells g k x y :
  grid_wf g -> Mesa.coords g !! k = Some (x, y) ->
  exists cell, Mesa.cell_at g (x, y) = Ok cell /\ concat (Mesa.cells g) !! k = Some cell.
Proof.
  intros [Hlen Hcols] Hk. apply lookup_coords_inv in Hk as (Hx & Hy & ->).
  destruct (lookup_lt_is_Some_2 (Mesa.cells g) (Z.to_nat x)) as [col Hcol]; [lia|].
  assert (Hc : length col = Mesa.height g).
  { apply (proj1 (Forall_forall _ _) Hcols). apply list_elem_of_lookup. eauto. }
  destruct (lookup_lt_is_Some_2 col (Z.to_nat y)) as [cell Hcell]; [lia|].
  exists cell. split.
  - apply cell_at_lookup; [lia|lia|]. eauto.
  - now apply (lookup_concat_rows _ _ _ _ col).
Qed.

Lemma length_cells g :
  grid_wf g -> length (concat (Mesa.cells g)) = (Mesa.width g * Mesa.height g)%nat.
Proof. intros [Hlen Hcols]. rewrite (length_concat_rows _ _ Hcols). now rewrite Hlen. Qed.

(** The array that a loop over the cells has filled up to the cell [j]. *)
Lemma fill_next {A B} (f : A -> B) (z : B) (L : list A) (N j : nat) c :
  length L = N -> L !! j = Some c ->
  <[j := f c]> ((f <$> take j L) ++ replicate (N - j) z)
  = (f <$> take (S j) L) ++ replicate (N - S j) z.
Proof.
  intros HN Hc. pose proof (lookup_lt_Some _ _ _ Hc) as Hlt.
  assert (Hl : length (f <$> take j L) = j) by (rewrite length_fmap, length_take; lia).
  rewrite insert_app_r_alt by lia. rewrite Hl, Nat.sub_diag.
  replace (N - j)%nat with (S (N - S j)) by lia. cbn [replicate].
  rewrite (take_S_r _ _ _ Hc), fmap_app, <- app_assoc. reflexivity.
Qed.

Lemma filled_lookup {A B} (f : A -> B) (z : B) (L : list A) (N j : nat) :
  (j < N)%nat -> length L = N ->
  ((f <$> take j L) ++ replicate (N - j) z) !! j = Some z.
Proof.
  intros Hj HN.
  assert (Hl : length (f <$> take j L) = j) by (rewrite length_fmap, length_take; lia).
  rewrite lookup_app_r by lia. rewrite Hl, Nat.sub_diag.
  apply lookup_replicate_2. lia.
Qed.

(** ** What [get_well_count] counts *)

Lemma pumping_in_cons l r cell :
  pumping_in l (r :: cell) = (if is_pumping l r then 1 else 0) + pumping_in l cell.
Proof.
  unfold pumping_in. cbn [List.filter]. destruct (is_pumping l r); cbn [length]; lia.
Qed.

Lemma np_getitem2_at {A} (a : ndarray A) d0 d1 x y v :
  shape a = [d0; d1] -> 0 <= x < d0 -> 0 <= y < d1 ->
  data a !! Z.to_nat (x * d1 + y) = Some v ->
  np_getitem2 a x y = Ok v.
Proof.
  intros Hs Hx Hy Hv. unfold np_getitem2. run.
  rewrite (np_offset2_ok a d0 d1 x y Hs Hx Hy). now rewrite Hv.
Qed.

Lemma np_setitem2_at {A} (a : ndarray A) d0 d1 x y v :
  shape a = [d0; d1] -> 0 <= x < d0 -> 0 <= y < d1 ->
  np_setitem2 a x y v = Ok (NDArray (shape a) (<[Z.to_nat (x * d1 + y) := v]> (data a))).
Proof.
  intros Hs Hx Hy. unfold np_setitem2. run.
  now rewrite (np_offset2_ok a d0 d1 x y Hs Hx Hy).
Qed.

Lemma count_pumping_fold nr nc m x y cell : forall acc v,
  Forall (fun r => (r < length (agents m))%nat) cell ->
  shape acc = [nr; nc] -> 0 <= x < nr -> 0 <= y < nc ->
  data acc !! Z.to_nat (x * nc + y) = Some v ->
  succeeds (for_fold cell (count_pumping (x, y)) acc) m
    (fun acc' m' =>
       m' = m /\ shape acc' = [nr; nc] /\
       data acc' = <[Z.to_nat (x * nc + y) := v + pumping_in (agents m) cell]> (data acc)).
Proof.
  induction cell as [|r cell IH]; intros acc v Hrefs Hs Hx Hy Hv; cbn [for_fold].
  - apply succeeds_ret. split; [reflexivity|]. split; [exact Hs|].
    unfold pumping_in. cbn. rewrite Z.add_0_r. symmetry. now apply list_insert_id.
  - inversion Hrefs as [|? ? Hr Hrest]; subst.
    destruct (lookup_lt_is_Some_2 (agents m) r Hr) as [a Ha].
    rewrite pumping_in_cons. unfold is_pumping. rewrite Ha.
    apply succeeds_bind. unfold count_pumping at 1, deref.
    apply succeeds_bind. apply succeeds_bind, succeeds_get. rewrite Ha.
    apply succeeds_ret. cbn [fst snd].
    destruct (pumping a).
    + apply succeeds_bind, (succeeds_lift _ v); [now apply (np_getitem2_at _ nr nc)|].
      eapply succeeds_lift; [now apply (np_setitem2_at _ nr nc)|].
      eapply succeeds_weaken.
      * apply (IH _ (v + 1) Hrest); [exact Hs|exact Hx|exact Hy|].
        cbn [data]. apply list_lookup_insert_eq. now apply lookup_lt_Some in Hv.
      * cbn [data shape]. intros acc' m' (-> & Hs' & Hd'). split; [reflexivity|].
        split; [exact Hs'|]. rewrite Hd', list_insert_insert_eq. f_equal. lia.
    + apply succeeds_ret. eapply succeeds_weaken; [apply (IH _ v Hrest); assumption|].
      intros acc' m' (-> & Hs' & Hd'). split; [reflexivity|]. split; [exact Hs'|].
      rewrite Hd'. f_equal.
Qed.

Lemma get_well_count_counted nr nc m :
  farm_wf nr nc m ->
  succeeds (get_well_count nr nc) m
    (fun counts m' =>
       m' = m /\ counted m nr nc (length (concat (Mesa.cells (grid m)))) counts).
Proof.
  intros ((_ & _ & Hw & Hh) & Hsq & Hpos & Hgrid & Hrefs & _ & _).
  pose proof (length_cells _ Hgrid) as Hlen.
  unfold get_well_count.
  apply succeeds_bind, succeeds_emit.
  assert (Hz : np_zeros2 0 nr nc = Ok (NDArray [nr; nc] (replicate (Z.to_nat (nr * nc)) 0))).
  { unfold np_zeros2.
    assert ((nr <? 0) = false) as -> by lia. now assert ((nc <? 0) = false) as -> by lia. }
  apply succeeds_bind, (succeeds_lift _ _ _ _ Hz).
  apply succeeds_bind, (succeeds_lift _ _ _ _ Hz).
  apply succeeds_bind, succeeds_get.
  assert (Hlen' : length (concat (Mesa.cells (grid m))) = Z.to_nat (nr * nc)) by nia.
  rewrite <- length_coords in Hlen.
  eapply succeeds_weaken.
  - apply (succeeds_for_fold_indexed
             (fun j counts m' => m' = m /\ counted m nr nc j counts)).
    + intros j [x y] [wc pc] m' Hj (-> & Hs1 & Hs2 & Hd1 & Hd2). cbn [fst snd] in *.
      destruct (lookup_cells _ _ _ _ Hgrid Hj) as (cell & Hcell & Hc).
      pose proof (lookup_coords_inv _ _ _ _ Hj) as (Hx & Hy & Ej).
      assert (Ek : Z.to_nat (x * nc + y) = j) by (subst j; nia).
      assert (Hcr : Forall (fun r => (r < length (agents m))%nat) cell).
      { apply Forall_forall. intros r Hr.
        apply (proj1 (Forall_forall _ _) Hrefs).
        destruct (cell_in_grid (grid m) x y Hgrid Hx Hy) as (cell' & Hcell' & Hin).
        apply Hin. congruence. }
      unfold count_cell. apply succeeds_bind, succeeds_get.
      apply succeeds_bind, (succeeds_lift _ cell); [exact Hcell|].
      cbn [fst snd].
      apply succeeds_bind. eapply succeeds_lift;
        [apply (np_setitem2_at _ nr nc); [exact Hs1|lia|lia]|].
      apply succeeds_bind. eapply succeeds_weaken.
      * apply (count_pumping_fold nr nc m x y cell pc 0 Hcr Hs2); [lia|lia|].
        rewrite Ek, Hd2. apply filled_lookup; [|reflexivity].
        apply lookup_lt_Some in Hc. exact Hc.
      * intros pc' m' (-> & Hs2' & Hd2'). apply succeeds_ret.
        split; [reflexivity|]. unfold counted. cbn [fst snd shape data].
        split; [exact Hs1|]. split; [exact Hs2'|]. split.
        -- rewrite Ek, Hd1.
           now apply (fill_next (fun cell : list nat => Z.of_nat (length cell))).
        -- rewrite Hd2', Ek, Hd2, Z.add_0_l.
           now apply (fill_next (pumping_in (agents m))).
    + split; [reflexivity|]. unfold counted. cbn [fst snd shape data take fmap list_fmap app].
      rewrite Nat.sub_0_r.
      split; [reflexivity|]. split; [reflexivity|]. now rewrite Hlen'.
  - intros counts m' [-> Hc]. split; [reflexivity|]. now rewrite Hlen.
Qed.

Lemma pumping_in_bounds l cell : 0 <= pumping_in l cell <= Z.of_nat (length cell).
Proof.
  unfold pumping_in. pose proof (List.filter_length_le (is_pumping l) cell). lia.
Qed.

Lemma cell_at_flat g x y cell :
  grid_wf g -> 0 <= x -> 0 <= y ->
  Mesa.cell_at g (x, y) = Ok cell ->
  x < Z.of_nat (Mesa.width g) /\ y < Z.of_nat (Mesa.height g) /\
  concat (Mesa.cells g) !! (Z.to_nat x * Mesa.height g + Z.to_nat y)%nat = Some cell.
Proof.
  intros [Hlen Hcols] Hx Hy Hc.
  apply cell_at_lookup in Hc as (col & Hcol & Hcell); [|lia|lia].
  assert (Hh : length col = Mesa.height g).
  { apply (proj1 (Forall_forall _ _) Hcols). apply list_elem_of_lookup. eauto. }
  pose proof (lookup_lt_Some _ _ _ Hcol). pose proof (lookup_lt_Some _ _ _ Hcell).
  split; [lia|]. split; [lia|]. now apply (lookup_concat_rows _ _ _ _ col).
Qed.

(** X8. On a well-formed farm, whose grid is square, [get_well_count]
    returns and leaves the model alone; its two arrays have the shape
    (nr, nc); [well_count[x][y]] is the number of agents of the cell (x, y)
    and [pumping_well_count[x][y]] the number of those that pump, which lies
    between 0 and the former; flattened, the arrays list the cells in the
    order of [coord_iter]. *)
Theorem well_count_per_cell :
  forall nr nc m,
    farm_wf nr nc m ->
    exists wc pc,
      get_well_count nr nc m = ([ev_aggregate], Returns (wc, pc) m) /\
      shape wc = [nr; nc] /\ shape pc = [nr; nc] /\
      data wc = (fun cell => Z.of_nat (length cell)) <$> concat (Mesa.cells (grid m)) /\
      data pc = pumping_in (agents m) <$> concat (Mesa.cells (grid m)) /\
      forall x y cell,
        0 <= x -> 0 <= y -> Mesa.cell_at (grid m) (x, y) = Ok cell ->
        np_getitem2 wc x y = Ok (Z.of_nat (length cell)) /\
        np_getitem2 pc x y = Ok (pumping_in (agents m) cell) /\
        0 <= pumping_in (agents m) cell <= Z.of_nat (length cell).
Proof.
  intros nr nc m Hwf.
  destruct (succeeds_returned _ m _ _ (get_well_count_counted nr nc m Hwf)
              (emits_get_well_count nr nc)) as ([wc pc] & m' & Hrun & -> & Hs1 & Hs2 & Hd1 & Hd2).
  cbn [fst snd] in *. rewrite Nat.sub_diag, firstn_all, app_nil_r in Hd1, Hd2.
  exists wc, pc. split; [exact Hrun|]. split; [exact Hs1|]. split; [exact Hs2|].
  split; [exact Hd1|]. split; [exact Hd2|].
  intros x y cell Hx Hy Hc.
  destruct Hwf as ((_ & _ & Hw & Hh) & Hsq & Hpos & Hgrid & _).
  destruct (cell_at_flat _ _ _ _ Hgrid Hx Hy Hc) as (Hxw & Hyh & Hflat).
  assert (Ek : Z.to_nat (x * nc + y) = (Z.to_nat x * Mesa.height (grid m) + Z.to_nat y)%nat)
    by nia.
  split; [|split; [|apply pumping_in_bounds]].
  - apply (np_getitem2_at _ nr nc); [exact Hs1|lia|lia|].
    rewrite Ek, Hd1, list_lookup_fmap, Hflat. reflexivity.
  - apply (np_getitem2_at _ nr nc); [exact Hs2|lia|lia|].
    rewrite Ek, Hd2, list_lookup_fmap, Hflat. reflexivity.
Qed.

Lemma farm_wf_two_farmers : farm_wf 4 4 two_farmers.
Proof.
  split; [|split; [reflexivity|split; [reflexivity|split; [|split; [|split]]]]].
  - split; [|repeat split]. split; [|reflexivity].
    cbn. repeat constructor; discriminate.
  - split; [reflexivity|]. vm_compute. repeat constructor.
  - vm_compute. repeat constructor.
  - vm_compute. repeat constructor.
  - intros r a Hr. vm_compute in Hr.
    destruct r as [|[|r]]; try discriminate; injection Hr as <-.
    + exists 1, 1. repeat split; cbn; lia.
    + exists 2, 2. repeat split; cbn; lia.
Qed.

Lemma well_count_per_cell_witness :
  exists wc pc,
    get_well_count 4 4 two_farmers = ([ev_aggregate], Returns (wc, pc) two_farmers) /\
    shape wc = [4; 4] /\ shape pc = [4; 4] /\
    data wc = (fun cell => Z.of_nat (length cell)) <$> concat (Mesa.cells (grid two_farmers)) /\
    data pc = pumping_in (agents two_farmers) <$> concat (Mesa.cells (grid two_farmers)) /\
    forall x y cell,
      0 <= x -> 0 <= y -> Mesa.cell_at (grid two_farmers) (x, y) = Ok cell ->
      np_getitem2 wc x y = Ok (Z.of_nat (length cell)) /\
      np_getitem2 pc x y = Ok (pumping_in (agents two_farmers) cell) /\
      0 <= pumping_in (agents two_farmers) cell <= Z.of_nat (length cell).
Proof.
  apply (well_count_per_cell 4 4 two_farmers). exact farm_wf_two_farmers.
Defined.

(** ** The totals of the counts *)

Lemma sum_lengths {A} (ls : list (list A)) :
  fold_right Z.add 0 ((fun l => Z.of_nat (length l)) <$> ls) = Z.of_nat (length (concat ls)).
Proof.
  induction ls as [|l ls IH]; cbn; [reflexivity|]. rewrite IH, length_app. lia.
Qed.

Lemma sum_pumping_in l (ls : list (list nat)) :
  fold_right Z.add 0 (pumping_in l <$> ls) = pumping_in l (concat ls).
Proof.
  induction ls as [|c ls IH]; cbn; [reflexivity|]. rewrite IH. unfold pumping_in.
  rewrite List.filter_app, length_app. lia.
Qed.

Lemma on_grid_flat g : on_grid g = concat (concat (Mesa.cells g)).
Proof.
  unfold on_grid. induction (Mesa.cells g) as [|col ls IH]; cbn; [reflexivity|].
  now rewrite IH, concat_app.
Qed.

Lemma cells_on_grid g cell r :
  cell ∈ concat (Mesa.cells g) -> r ∈ cell -> r ∈ on_grid g.
Proof.
  intros Hc Hr. rewrite on_grid_flat. apply list_elem_of_In, in_concat.
  exists cell. split; now apply list_elem_of_In.
Qed.

Lemma pumping_in_perm l c1 c2 : c1 ≡ₚ c2 -> pumping_in l c1 = pumping_in l c2.
Proof.
  intros Hp. unfold pumping_in. f_equal.
  induction Hp as [|x c1 c2 Hp IH|x y c|c1 c2 c3 H1 IH1 H2 IH2]; cbn.
  - reflexivity.
  - destruct (is_pumping l x); cbn; now rewrite IH.
  - destruct (is_pumping l x), (is_pumping l y); reflexivity.
  - congruence.
Qed.

Lemma pumping_in_all l1 l2 :
  pumping_in (l1 ++ l2) (seq (length l1) (length l2))
  = Z.of_nat (length (List.filter pumping l2)).
Proof.
  revert l1. induction l2 as [|a l2 IH]; intros l1; [reflexivity|].
  cbn [length seq]. rewrite pumping_in_cons.
  assert (E : is_pumping (l1 ++ a :: l2) (length l1) = pumping a).
  { unfold is_pumping. now rewrite list_lookup_middle. }
  rewrite E. specialize (IH (l1 ++ [a])).
  rewrite <- app_assoc, length_app in IH. cbn [app length] in IH.
  replace (length l1 + 1)%nat with (S (length l1)) in IH by lia.
  rewrite IH. cbn [List.filter]. destruct (pumping a); cbn [length]; lia.
Qed.

(** X9. When every agent is stored once on the grid, the sum of
    [well_count] is the number of agents, and the sum of
    [pumping_well_count], the [total_pumping_wells] of the loop, is the
    number of agents that pump. *)
Theorem well_count_totals :
  forall nr nc m,
    farm_wf nr nc m ->
    on_grid (grid m) ≡ₚ seq 0 (length (agents m)) ->
    exists wc pc,
      value_of (get_well_count nr nc m) = Ok (wc, pc) /\
      np_sum wc = Z.of_nat (length (agents m)) /\
      np_sum pc = Z.of_nat (length (List.filter pumping (agents m))).
Proof.
  intros nr nc m Hwf Hperm.
  destruct (succeeds_returned _ m _ _ (get_well_count_counted nr nc m Hwf)
              (emits_get_well_count nr nc)) as ([wc pc] & m' & Hrun & -> & Hs1 & Hs2 & Hd1 & Hd2).
  cbn [fst snd] in *. rewrite Nat.sub_diag, firstn_all, app_nil_r in Hd1, Hd2.
  exists wc, pc. split; [unfold value_of; now rewrite Hrun|].
  unfold np_sum. rewrite Hd1, Hd2, sum_lengths, sum_pumping_in, <- on_grid_flat.
  split.
  - now rewrite Hperm, length_seq.
  - rewrite (pumping_in_perm _ _ _ Hperm). apply (pumping_in_all []).
Qed.

Lemma well_count_totals_witness :
  exists wc pc,
    value_of (get_well_count 4 4 two_farmers) = Ok (wc, pc) /\
    np_sum wc = Z.of_nat (length (agents two_farmers)) /\
    np_sum pc = Z.of_nat (length (List.filter pumping (agents two_farmers))).
Proof.
  apply (well_count_totals 4 4 two_farmers).
  - exact farm_wf_two_farmers.
  - vm_compute. reflexivity.
Defined.

(** ** Runs that raise one kind of exception *)

Lemma ror_ret {S A} e (a : A) (s : S) Q : Q a s -> returns_or_raises e (mret a) s Q.
Proof. intros H. exact H. Qed.

Lemma ror_get {S} e (s : S) Q : Q s s -> returns_or_raises e get s Q.
Proof. intros H. exact H. Qed.

Lemma ror_emit {S} e ev (s : S) Q : Q tt s -> returns_or_raises e (emit ev) s Q.
Proof. intros H. exact H. Qed.

Lemma ror_lift {S A} e (r : result A) (s : S) Q :
  match r with Ok a => Q a s | Raise e' => e' = e end ->
  returns_or_raises e (lift r) s Q.
Proof. intros H. unfold returns_or_raises, lift. destruct r; exact H. Qed.

Lemma ror_bind {S A B} e (m : prog S A) (f : A -> prog S B) s Q :
  returns_or_raises e m s (fun a s' => returns_or_raises e (f a) s' Q) ->
  returns_or_raises e (m ≫= f) s Q.
Proof.
  unfold returns_or_raises, mbind, prog_bind.
  destruct (m s) as [t [a s'|e' s']]; cbn; [|auto].
  destruct (f a s') as [t' o]. auto.
Qed.

Lemma ror_weaken {S A} e (m : prog S A) s (Q Q' : A -> S -> Prop) :
  returns_or_raises e m s Q -> (forall a s', Q a s' -> Q' a s') ->
  returns_or_raises e m s Q'.
Proof.
  unfold returns_or_raises. destruct ((m s).2); auto.
Qed.

Lemma ror_for_fold {S A B} e (I : B -> S -> Prop) (l : list A) (body : A -> B -> prog S B) :
  (forall x acc s, x ∈ l -> I acc s -> returns_or_raises e (body x acc) s I) ->
  forall acc s, I acc s -> returns_or_raises e (for_fold l body acc) s I.
Proof.
  induction l as [|x l IH]; intros Hb acc s HI; cbn [for_fold].
  - exact HI.
  - apply ror_bind. eapply ror_weaken; [apply Hb; [left|exact HI]|].
    intros acc' s' HI'. apply IH; [|exact HI'].
    intros y acc0 s0 Hy. apply Hb. now right.
Qed.

Lemma for_fold_raises {S A B} e (I : B -> S -> Prop) (l : list A)
    (body : A -> B -> prog S B) x0 :
  x0 ∈ l ->
  (forall x acc s, x ∈ l -> I acc s -> returns_or_raises e (body x acc) s I) ->
  (forall acc s, I acc s -> value_of (body x0 acc s) = Raise e) ->
  forall acc s, I acc s -> value_of (for_fold l body acc s) = Raise e.
Proof.
  induction l as [|x l IH]; intros Hin Hb H0 acc s HI.
  - now apply elem_of_nil in Hin.
  - cbn [for_fold]. pose proof (Hb x acc s (list_elem_of_here _ _) HI) as Hx.
    unfold returns_or_raises in Hx. unfold value_of, mbind, prog_bind in *.
    destruct (body x acc s) as [t [acc' s'|e' s']] eqn:E; cbn in Hx.
    + apply elem_of_cons in Hin as [->|Hin].
      * specialize (H0 acc s HI). rewrite E in H0. discriminate.
      * specialize (IH Hin (fun y acc0 s0 Hy => Hb y acc0 s0 (list_elem_of_further _ _ _ Hy))
                      H0 acc' s' Hx).
        destruct (for_fold l body acc' s') as [t' o]. exact IH.
    + cbn. now subst.
Qed.

Lemma py_getitem_raises {A} (l : list A) i e : py_getitem l i = Raise e -> e = IndexError.
Proof.
  unfold py_getitem, norm_index.
  destruct ((0 <=? i) && (i <? Z.of_nat (length l))); cbn.
  - destruct (l !! Z.to_nat i); [discriminate|now intros [= <-]].
  - destruct ((- Z.of_nat (length l) <=? i) && (i <? 0)); cbn.
    + destruct (l !! Z.to_nat (i + Z.of_nat (length l))); [discriminate|now intros [= <-]].
    + now intros [= <-].
Qed.

Lemma cell_at_raises g xy e : Mesa.cell_at g xy = Raise e -> e = IndexError.
Proof.
  unfold Mesa.cell_at. destruct (py_getitem (Mesa.cells g) xy.1) as [col|e'] eqn:E; cbn.
  - apply py_getitem_raises.
  - intros [= <-]. now apply py_getitem_raises in E.
Qed.

Lemma norm_index_raises len i e : norm_index len i = Raise e -> e = IndexError.
Proof.
  unfold norm_index. destruct ((0 <=? i) && (i <? len)); [discriminate|].
  destruct ((- len <=? i) && (i <? 0)); [discriminate|]. now intros [= <-].
Qed.

Lemma np_offset2_raises {A} (a : ndarray A) x y e :
  np_offset2 a x y = Raise e -> e = IndexError.
Proof.
  unfold np_offset2. destruct (shape a) as [|d0 [|d1 [|]]]; try (now intros [= <-]).
  destruct (norm_index d0 x) as [i|e'] eqn:Ei; cbn.
  - destruct (norm_index d1 y) as [j|e''] eqn:Ej; cbn; [discriminate|].
    intros [= <-]. now apply norm_index_raises in Ej.
  - intros [= <-]. now apply norm_index_raises in Ei.
Qed.

Lemma np_setitem2_cases {A} (a : ndarray A) x y v :
  match np_setitem2 a x y v with
  | Ok a' => shape a' = shape a
  | Raise e => e = IndexError
  end.
Proof.
  unfold np_setitem2. destruct (np_offset2 a x y) as [k|e] eqn:E; cbn; [reflexivity|].
  now apply np_offset2_raises in E.
Qed.

Lemma np_getitem2_raises {A} (a : ndarray A) x y e :
  np_getitem2 a x y = Raise e -> e = IndexError.
Proof.
  unfold np_getitem2. destruct (np_offset2 a x y) as [k|e'] eqn:E; cbn.
  - destruct (data a !! Z.to_nat k); [discriminate|now intros [= <-]].
  - intros [= <-]. now apply np_offset2_raises in E.
Qed.

Lemma count_cell_returns_or_raises nr nc m x y wc pc :
  Forall (fun r => (r < length (agents m))%nat) (on_grid (grid m)) ->
  0 <= x -> 0 <= y ->
  shape wc = [nr; nc] -> shape pc = [nr; nc] ->
  returns_or_raises IndexError (count_cell (x, y) (wc, pc)) m
    (fun counts m' => m' = m /\ shape (fst counts) = [nr; nc] /\ shape (snd counts) = [nr; nc]).
Proof.
  intros Hrefs Hx Hy Hs1 Hs2. unfold count_cell.
  apply ror_bind, ror_get. apply ror_bind, ror_lift.
  destruct (Mesa.cell_at (grid m) (x, y)) as [cell|e] eqn:Hcell;
    [|now apply cell_at_raises in Hcell].
  apply ror_bind, ror_lift. cbn [fst snd].
  pose proof (np_setitem2_cases wc x y (Z.of_nat (length cell))) as Hset.
  destruct (np_setitem2 wc x y (Z.of_nat (length cell))) as [wc'|e]; [|exact Hset].
  apply ror_bind. eapply ror_weaken.
  - apply (ror_for_fold IndexError (fun acc m' => m' = m /\ shape acc = [nr; nc]));
      [|split; [reflexivity|exact Hs2]].
    intros r acc m' Hr [-> Hacc]. unfold count_pumping, deref.
    apply ror_bind. apply ror_bind, ror_get.
    assert (Hlt : (r < length (agents m))%nat).
    { apply (proj1 (Forall_forall _ _) Hrefs).
      apply cell_at_lookup in Hcell as (col & Hcol & Hc); [|lia|lia].
      unfold on_grid. apply list_elem_of_In, in_concat.
      exists (concat col). split.
      - apply list_elem_of_In, list_elem_of_fmap. exists col. split; [reflexivity|].
        apply list_elem_of_lookup. eauto.
      - apply in_concat. exists cell. split; apply list_elem_of_In; [|exact Hr].
        apply list_elem_of_lookup. eauto. }
    destruct (lookup_lt_is_Some_2 (agents m) r Hlt) as [a Ha]. rewrite Ha.
    apply ror_ret. destruct (pumping a); [|apply ror_ret; auto].
    apply ror_bind, ror_lift. cbn [fst snd].
    destruct (np_getitem2 acc x y) as [v|e] eqn:Hv; [|now apply np_getitem2_raises in Hv].
    apply ror_lift. pose proof (np_setitem2_cases acc x y (v + 1)) as Hset'.
    destruct (np_setitem2 acc x y (v + 1)) as [acc'|e]; [|exact Hset'].
    split; [reflexivity|congruence].
  - intros acc m' [-> Hacc]. apply ror_ret. cbn [fst snd]. split; [reflexivity|].
    split; [congruence|exact Hacc].
Qed.

Lemma count_cell_outside nr nc m x y wc pc :
  0 <= x -> 0 <= y -> nr <= x \/ nc <= y ->
  shape wc = [nr; nc] ->
  value_of (count_cell (x, y) (wc, pc) m) = Raise IndexError.
Proof.
  intros Hx Hy Hout Hs. unfold count_cell, value_of. run.
  destruct (Mesa.cell_at (grid m) (x, y)) as [cell|e] eqn:Hcell; run;
    [|now apply cell_at_raises in Hcell as ->].
  cbn [fst snd]. unfold np_setitem2, np_offset2. rewrite Hs. run. unfold norm_index.
  destruct Hout as [Hout|Hout].
  - assert ((x <? nr) = false) as -> by lia. assert ((x <? 0) = false) as -> by lia.
    rewrite !andb_false_r. reflexivity.
  - assert ((y <? nc) = false) as -> by lia. assert ((y <? 0) = false) as -> by lia.
    rewrite !andb_false_r. destruct ((0 <=? x) && (x <? nr)); [reflexivity|].
    destruct ((- nr <=? x) && (x <? 0)); reflexivity.
Qed.

(** X10. [get_well_count] raises IndexError whenever the agent grid is
    wider than the arrays have rows, or higher than they have columns: the
    arrays are created with the shape (nr, nc) and subscripted [x][y].  With
    the agent grid of the notebook, of width nc and height nr, this is the
    case of every grid that is not square. *)
Theorem well_count_overruns :
  forall nr nc m,
    0 <= nr -> 0 <= nc ->
    Forall (fun r => (r < length (agents m))%nat) (on_grid (grid m)) ->
    (nr < Z.of_nat (Mesa.width (grid m)) /\ (0 < Mesa.height (grid m))%nat) \/
    (nc < Z.of_nat (Mesa.height (grid m)) /\ (0 < Mesa.width (grid m))%nat) ->
    value_of (get_well_count nr nc m) = Raise IndexError.
Proof.
  intros nr nc m Hnr Hnc Hrefs Hout.
  assert (Hz : np_zeros2 0 nr nc = Ok (NDArray [nr; nc] (replicate (Z.to_nat (nr * nc)) 0))).
  { unfold np_zeros2.
    assert ((nr <? 0) = false) as -> by lia. now assert ((nc <? 0) = false) as -> by lia. }
  assert (Hbad : exists x y, (x, y) ∈ Mesa.coords (grid m) /\ 0 <= x /\ 0 <= y /\
                             (nr <= x \/ nc <= y)).
  { destruct Hout as [[Hw Hh]|[Hh Hw]].
    - exists nr, 0. split; [|lia].
      pose proof (lookup_coords (grid m) (Z.to_nat nr) 0) as Hl.
      rewrite Z2Nat.id in Hl by lia. eapply list_elem_of_lookup_2. apply Hl; lia.
    - exists 0, nc. split; [|lia].
      pose proof (lookup_coords (grid m) 0 (Z.to_nat nc)) as Hl.
      rewrite Z2Nat.id in Hl by lia. eapply list_elem_of_lookup_2. apply Hl; lia. }
  destruct Hbad as (x0 & y0 & Hin & Hx0 & Hy0 & Hbad).
  unfold get_well_count.
  assert (E : value_of
                (for_fold (Mesa.coords (grid m)) count_cell
                   (NDArray [nr; nc] (replicate (Z.to_nat (nr * nc)) 0),
                    NDArray [nr; nc] (replicate (Z.to_nat (nr * nc)) 0)) m)
              = Raise IndexError).
  { apply (for_fold_raises IndexError
             (fun counts m' => m' = m /\ shape (fst counts) = [nr; nc] /\
                               shape (snd counts) = [nr; nc]) _ _ (x0, y0) Hin).
    - intros [x y] [wc pc] m' Hxy (-> & Hs1 & Hs2).
      apply elem_of_coords in Hxy as [Hx Hy].
      apply count_cell_returns_or_raises; (assumption || lia).
    - intros [wc pc] m' (-> & Hs1 & Hs2).
      now apply (count_cell_outside nr nc).
    - repeat split. }
  unfold value_of in *. run. rewrite Hz. run.
  destruct (for_fold _ _ _ m) as [t o]. exact E.
Qed.

Lemma well_count_overruns_witness :
  value_of (get_well_count 2 3
              (FarmerModel_new no_draws 0 3 2 (NDArray [2; 3] (replicate 6 0%float))))
  = Raise IndexError.
Proof.
  apply (well_count_overruns 2 3
           (FarmerModel_new no_draws 0 3 2 (NDArray [2; 3] (replicate 6 0%float)))).
  - lia.
  - lia.
  - vm_compute. constructor.
  - left. cbn. lia.
Defined.

(** ** The wells of a fresh model *)

Lemma init_farm_wf rng N (w : nat) wd d t m :
  FarmerModel_init rng N w w wd d = (t, Returns tt m) ->
  valid_ndarray d -> shape d = [Z.of_nat w; Z.of_nat w] -> (0 < w)%nat ->
  farm_wf (Z.of_nat w) (Z.of_nat w) m.
Proof.
  intros Hrun Hv Hs Hw.
  pose proof (FarmerModel_init_created _ _ _ _ _ _ _ _ Hrun)
    as (_ & _ & _ & Hd & _ & Hwd & Hht & _ & Hwf & _).
  pose proof (FarmerModel_init_inv _ _ _ _ _ _ _ _ Hrun) as ((_ & Hsch & Hg & Hpos) & _).
  split; [|split; [reflexivity|split; [lia|split; [exact Hwf|split; [|split]]]]].
  - rewrite <- Hd in Hv, Hs. split; [exact Hv|]. split; [exact Hs|].
    rewrite Hwd, Hht. auto.
  - rewrite Hg. apply Forall_forall. intros r Hr. apply elem_of_seq in Hr. lia.
  - rewrite Hsch. apply Forall_forall. intros r Hr. apply elem_of_seq in Hr. lia.
  - intros r a Hr. destruct (Hpos r a Hr) as (x & y & cell & Hp & Hx & Hy & _).
    exists x, y. split; [exact Hp|lia].
Qed.

Lemma pumping_in_all_pump l cell :
  Forall (fun a => pumping a = true) l ->
  Forall (fun r => (r < length l)%nat) cell ->
  pumping_in l cell = Z.of_nat (length cell).
Proof.
  intros Hall Hrefs. unfold pumping_in. f_equal.
  induction Hrefs as [|r cell Hr Hrefs IH]; cbn; [reflexivity|].
  destruct (lookup_lt_is_Some_2 l r Hr) as [a Ha].
  unfold is_pumping at 1. rewrite Ha.
  rewrite (proj1 (Forall_forall _ _) Hall a) by (apply list_elem_of_lookup; eauto).
  cbn. now rewrite IH.
Qed.

(** X11. The wells of a fresh model: on a square grid of width at least 3
    [FarmerModel.__init__] returns and [get_well_count] returns on the model
    it built; the two arrays are equal, since every agent pumps, and their
    sum is the number of agents. *)
Theorem fresh_wells_all_pump :
  forall rng N (w : nat) wd d,
    (3 <= w)%nat ->
    valid_ndarray d -> shape d = [Z.of_nat w; Z.of_nat w] ->
    exists m wc,
      FarmerModel_init rng N w w wd d = ([], Returns tt m) /\
      get_well_count (Z.of_nat w) (Z.of_nat w) m = ([ev_aggregate], Returns (wc, wc) m) /\
      np_sum wc = Z.of_nat (Z.to_nat N).
Proof.
  intros rng N w wd d Hw Hv Hs.
  destruct (FarmerModel_init_returns rng N w w wd d) as [m Hrun]; [lia|].
  pose proof (init_farm_wf _ _ _ _ _ _ _ Hrun Hv Hs) as Hwf. specialize (Hwf ltac:(lia)).
  pose proof (FarmerModel_init_created _ _ _ _ _ _ _ _ Hrun)
    as (_ & Hlen & Hall & _).
  pose proof (FarmerModel_init_inv _ _ _ _ _ _ _ _ Hrun) as ((_ & _ & Hg & _) & _).
  destruct (succeeds_returned _ m _ _ (get_well_count_counted _ _ m Hwf)
              (emits_get_well_count _ _)) as ([wc pc] & m' & Hc & -> & Hs1 & Hs2 & Hd1 & Hd2).
  cbn [fst snd] in *. rewrite Nat.sub_diag, firstn_all, app_nil_r in Hd1, Hd2.
  assert (Hpc : pc = wc).
  { destruct wc as [s1 d1], pc as [s2 d2]. cbn in *. f_equal; [congruence|].
    rewrite Hd1, Hd2. apply list_fmap_ext. intros k cell Hk.
    apply pumping_in_all_pump.
    - eapply Forall_impl; [exact Hall|]. now intros a [Ha _].
    - apply Forall_forall. intros r Hr.
      destruct Hwf as (_ & _ & _ & _ & Hrefs & _).
      apply (proj1 (Forall_forall _ _) Hrefs).
      apply (cells_on_grid _ cell); [|exact Hr]. apply list_elem_of_lookup. eauto. }
  subst pc. exists m, wc. split; [exact Hrun|]. split; [exact Hc|].
  unfold np_sum. rewrite Hd1, sum_lengths, <- on_grid_flat, Hg, length_seq. congruence.
Qed.

Lemma fresh_wells_all_pump_witness :
  exists m wc,
    FarmerModel_init {| draws := fun k => Z.of_nat k / 2; cursor := 0 |} 2 4 4 5
      two_farmers_field = ([], Returns tt m) /\
    get_well_count (Z.of_nat 4) (Z.of_nat 4) m = ([ev_aggregate], Returns (wc, wc) m) /\
    np_sum wc = Z.of_nat (Z.to_nat 2).
Proof.
  apply (fresh_wells_all_pump {| draws := fun k => Z.of_nat k / 2; cursor := 0 |} 2 4%nat 5%float
           two_farmers_field).
  - lia.
  - split; [repeat constructor; discriminate|reflexivity].
  - reflexivity.
Defined.

Section GroundwaterYear.
Import Groundwater.
Context {G : Type} {Hsim : Simulation G}.
Variable p : Params.
Variable k : Z.
Hypothesis Hsolver : solver_total Hsim.
Hypothesis Hparams : params_ok p k.

Lemma update_depth_result (w : World G) :
  world_wf p w ->
  succeeds update_depth w
    (fun _ w' =>
       w' = set_farmer_model
              (set_depth_to_water_table
                 (NDArray (shape (depth_to_water_table (farmer_model w)))
                    (zip_with PrimFloat.sub (elev (sim w)) (wt (sim w))))
                 (farmer_model w)) w).
Proof.
  intros (Hfarm & He & Hw & Hr). unfold update_depth.
  apply succeeds_bind, succeeds_emit. apply succeeds_bind, succeeds_get.
  apply succeeds_bind, (succeeds_lift _ (zip_with PrimFloat.sub (elev (sim w)) (wt (sim w))));
    [apply np_binop_same_length; congruence|].
  pose proof (grids_match_length _ _ _ (proj1 Hfarm)) as Hd.
  assert (Hz : length (zip_with PrimFloat.sub (elev (sim w)) (wt (sim w)))
               = Z.to_nat (nr p * nc p))
    by (rewrite length_zip_with_l_eq; congruence).
  apply succeeds_bind, (succeeds_lift _ (zip_with PrimFloat.sub (elev (sim w)) (wt (sim w))));
    [apply np_assign_same_length; congruence|].
  now apply succeeds_put.
Qed.

Lemma succeeds_and {S A} (m : prog S A) s (Q Q' : A -> S -> Prop) :
  succeeds m s Q -> succeeds m s Q' -> succeeds m s (fun a s' => Q a s' /\ Q' a s').
Proof. unfold succeeds. destruct ((m s).2); [auto|contradiction]. Qed.

Lemma write_recharge_result (w : World G) c :
  world_wf p w -> array_ok (nr p) (nc p) c ->
  succeeds (write_recharge p c) w
    (fun _ w' =>
       w' = set_sim (set_recharge
                       ((fun n => (- (pumping_rate p / (dx p * dx p)) * float_of_Z n)%float)
                          <$> data c) (sim w)) w).
Proof.
  intros (Hfarm & He & Hw & Hr) [Hshape Hsize]. destruct Hparams as [_ Hdx].
  unfold write_recharge.
  apply succeeds_bind, succeeds_emit. apply succeeds_bind, succeeds_get.
  unfold py_div. rewrite Hdx.
  apply succeeds_bind.
  apply (succeeds_lift _ (pumping_rate p / (dx p * dx p))%float); [reflexivity|].
  apply succeeds_bind. eapply succeeds_lift.
  - apply np_assign_same_length. rewrite length_map. unfold np_flatten, np_size in *. lia.
  - now apply succeeds_put.
Qed.

Lemma year_coupled order i (w : World G) :
  world_wf p w ->
  Forall (fun r => (r < length (agents (farmer_model w)))%nat) order ->
  succeeds (year p order i) w (fun _ w' => world_wf p w' /\ coupled p order w').
Proof.
  intros Hwf Hord. unfold year.
  apply succeeds_bind, succeeds_emit.
  apply succeeds_bind, succeeds_zoom.
  eapply succeeds_weaken; [apply (run_for_one_year_succeeds p k Hsolver Hparams)|].
  intros ? g1 (L1 & L2 & L3).
  assert (Hwf1 : world_wf p (set_sim g1 w)).
  { destruct Hwf as (Hfarm & He & Hw & Hr). split; [exact Hfarm|].
    cbn [sim set_sim]. repeat split; congruence. }
  apply succeeds_bind.
  eapply succeeds_weaken;
    [apply (succeeds_and _ _ _ _ (update_depth_succeeds p _ Hwf1)
              (update_depth_result _ Hwf1))|].
  intros ? w2 [[Hwf2 Hag2] Ew2]. cbn [farmer_model set_sim sim] in Hag2, Ew2.
  set (depth := zip_with PrimFloat.sub (elev g1) (wt g1)) in *.
  assert (Hdepth : data (depth_to_water_table (farmer_model w2)) = depth)
    by (now rewrite Ew2).
  assert (Hsim2 : sim w2 = g1) by (now rewrite Ew2).
  assert (Hgrid2 : grid (farmer_model w2) = grid (farmer_model w)) by (now rewrite Ew2).
  clear Ew2.
  pose proof (grids_match_reshape _ _ _ (proj1 (proj1 Hwf2))) as Hresh.
  rewrite Hdepth in Hresh.
  set (w2d := NDArray [Z.of_nat (Mesa.width (grid (farmer_model w2)));
                       Z.of_nat (Mesa.height (grid (farmer_model w2)))] depth) in *.
  assert (Hcan : Forall (can_step w2d (agents (farmer_model w2))) order).
  { eapply Forall_impl; [exact Hord|]. intros r Hlt. rewrite <- Hag2 in Hlt.
    apply (can_step_farm (nr p) (nc p)); [exact (proj1 Hwf2)| |exact Hlt].
    destruct (proj1 Hwf2) as ((Hv & Hshape & Hw & Hh) & _).
    split; [cbn [shape w2d]; now rewrite Hw, Hh|].
    destruct Hv as [_ Hsize]. unfold np_size in *. cbn [data w2d].
    rewrite <- Hdepth, Hsize, Hshape. cbn. lia. }
  apply succeeds_bind, succeeds_zoom.
  unfold succeeds at 1.
  rewrite (FarmerModel_step_returns order _ _ Hresh Hcan). cbn [snd].
  set (m3 := set_agents (activated w2d order) (set_wt_depth_2d w2d (farmer_model w2))).
  assert (Hfarm3 : farm_wf (nr p) (nc p) m3) by (apply farm_wf_activated, Hwf2).
  assert (Hwf3 : world_wf p (set_farmer_model m3 w2)).
  { split; [exact Hfarm3|]. apply Hwf2. }
  apply succeeds_bind, succeeds_zoom.
  eapply succeeds_weaken;
    [apply (succeeds_and _ _ _ _ (get_well_count_succeeds _ _ _ Hfarm3)
              (get_well_count_counted _ _ _ Hfarm3))|].
  intros [wc pc] m4 [(-> & Hwc & Hpwc) (_ & _ & _ & _ & Hd2)]. cbn [fst snd] in *.
  rewrite Nat.sub_diag, firstn_all, app_nil_r in Hd2.
  replace (set_farmer_model m3 (set_farmer_model m3 w2)) with (set_farmer_model m3 w2)
    by reflexivity.
  apply succeeds_bind, succeeds_get.
  assert (Hne : exists d, np_amax (data (depth_to_water_table m3)) = Ok d).
  { pose proof (grids_match_length _ _ _ (proj1 Hfarm3)) as Hd.
    destruct Hfarm3 as (_ & Hsq & Hpos & _).
    destruct (data (depth_to_water_table m3)) as [|x l]; [cbn in Hd; nia|].
    cbn. eauto. }
  destruct Hne as [d Hd].
  apply succeeds_bind, (succeeds_lift _ d); [exact Hd|].
  eapply succeeds_weaken;
    [apply (succeeds_and _ _ _ _ (write_recharge_succeeds p k Hparams _ _ Hwf3 Hpwc)
              (write_recharge_result _ _ Hwf3 Hpwc))|].
  intros ? w5 [[Hwf5 Hfm5] ->]. split; [exact Hwf5|].
  unfold coupled.
  cbn [farmer_model sim set_sim set_farmer_model set_recharge elev wt recharge].
  assert (E3 : data (depth_to_water_table m3) = depth) by exact Hdepth.
  assert (G3 : grid m3 = grid (farmer_model w2)) by reflexivity.
  rewrite E3, G3, Hsim2. split; [reflexivity|]. split; [reflexivity|]. split.
  - intros r a' Hr Ha'. cbn [agents m3 set_agents set_wt_depth_2d] in Ha'.
    destruct (proj1 (Forall_forall _ _) Hcan r Hr) as (ag & dr & Hag & Hdr).
    rewrite (lookup_activated _ _ _ _ _ Hag), bool_decide_eq_true_2 in Ha' by exact Hr.
    injection Ha' as <-.
    assert (Hdec : decided w2d ag = set_pumping (negb (geb dr (well_depth ag))) ag)
      by (unfold decided; now rewrite Hdr).
    rewrite Hdec. cbn [pos pumping well_depth set_pumping].
    unfold observed in Hdr. destruct (pos ag) as [[x y]|] eqn:Hp; [|discriminate].
    exists x, y, dr. split; [reflexivity|]. split; [|reflexivity].
    apply np_getitem2_data in Hdr as (j & Hj & Hdj).
    unfold np_offset2 in Hj. cbn [shape w2d] in Hj.
    destruct (norm_index _ x) as [x'|] eqn:Ex; [|discriminate].
    destruct (norm_index _ y) as [y'|] eqn:Ey; [|discriminate].
    cbn in Hj. injection Hj as <-.
    destruct (proj1 Hwf2) as ((_ & _ & Hw & Hh) & _ & _ & _ & _ & _ & Hpos).
    destruct (Hpos r ag Hag) as (x0 & y0 & Hp0 & Hx0 & Hy0).
    rewrite Hp in Hp0. injection Hp0 as <- <-.
    rewrite norm_index_nonneg in Ex by lia. rewrite norm_index_nonneg in Ey by lia.
    injection Ex as <-. injection Ey as <-. exact Hdj.
  - rewrite Hd2. rewrite <- list_fmap_compose. reflexivity.
Qed.
End GroundwaterYear.



(** ** When every well has run dry *)

Lemma ltb_geb (x y : float) : (x <? y)%float = true -> geb y x = true.
Proof.
  unfold geb. rewrite FloatAxioms.ltb_spec, FloatAxioms.leb_spec. unfold SFltb, SFleb.
  now destruct (SFcompare (Prim2SF x) (Prim2SF y)) as [[]|].
Qed.

Lemma is_nan_complete x : Prim2SF x = S754_nan -> PrimFloat.is_nan x = true.
Proof.
  intros H. unfold PrimFloat.is_nan. rewrite FloatAxioms.eqb_spec, H. reflexivity.
Qed.

Lemma is_finite_spec x :
  PrimFloat.is_finite x = true ->
  (exists s, Prim2SF x = S754_zero s) \/ (exists s m e, Prim2SF x = S754_finite s m e).
Proof.
  unfold PrimFloat.is_finite. intros H. apply negb_true_iff, orb_false_iff in H as [Hn Hi].
  destruct (Prim2SF x) as [s|s| |s m e] eqn:E; eauto.
  - unfold PrimFloat.is_infinity in Hi.
    rewrite FloatAxioms.eqb_spec, FloatAxioms.abs_spec, E in Hi. discriminate.
  - rewrite (is_nan_complete _ E) in Hn. discriminate.
Qed.

Lemma no_well_no_recharge r :
  PrimFloat.is_finite r = true -> PrimFloat.is_zero (- r * float_of_Z 0) = true.
Proof.
  intros Hf. apply is_zero_spec.
  rewrite FloatAxioms.mul_spec, FloatAxioms.opp_spec.
  change (Prim2SF (float_of_Z 0)) with (S754_zero false).
  destruct (is_finite_spec r Hf) as [[s ->]|(s & m & e & ->)]; cbn; eauto.
Qed.

Lemma pumping_in_none l cell :
  Forall (fun a => pumping a = false) l -> pumping_in l cell = 0.
Proof.
  intros Hall. unfold pumping_in.
  replace (List.filter (is_pumping l) cell) with ([] : list nat); [reflexivity|].
  induction cell as [|r cell IH]; [reflexivity|]. cbn.
  unfold is_pumping at 1. destruct (l !! r) as [a|] eqn:Ha; [|exact IH].
  rewrite (proj1 (Forall_forall _ _) Hall a) by (apply list_elem_of_lookup; eauto).
  exact IH.
Qed.

Section DryWells.
Import Groundwater.
Context {G : Type} {Hsim : Simulation G}.
Variable p : Params.

Lemma update_depth_keeps_agents (J : list FarmerAgent -> Prop) :
  invariant (fun w : World G => J (agents (farmer_model w))) update_depth.
Proof.
  intros w HJ. unfold update_depth, final_state. run.
  destruct (np_binop _ _ _) as [v|e]; run; [|exact HJ].
  destruct (np_assign _ v) as [v'|e]; run; exact HJ.
Qed.

Lemma year_keeps_well_depths order i wds :
  invariant (fun w : World G => well_depth <$> agents (farmer_model w) = wds)
    (year p order i).
Proof.
  unfold year.
  apply invariant_bind; [apply invariant_read_only, read_only_emit|intros _].
  apply invariant_bind;
    [apply (invariant_on_sim (fun m => well_depth <$> agents m = wds))|intros _].
  apply invariant_bind;
    [apply (update_depth_keeps_agents (fun l => well_depth <$> l = wds))|intros _].
  apply invariant_bind.
  { apply (invariant_on_farmer_model (fun m => well_depth <$> agents m = wds)).
    apply FarmerModel_step_invariant; [|auto].
    intros b r m <-. cbn [agents set_agents]. apply list_eq. intros j.
    rewrite !list_lookup_fmap. destruct (decide (r = j)) as [->|Hne].
    - rewrite list_lookup_alter_eq. now destruct (agents m !! j).
    - now rewrite list_lookup_alter_ne. }
  intros _. apply invariant_bind.
  { apply (invariant_on_farmer_model (fun m => well_depth <$> agents m = wds)).
    apply invariant_read_only, read_only_get_well_count. }
  intros counts.
  apply invariant_bind; [apply invariant_read_only, read_only_get|intros w].
  apply invariant_bind; [apply invariant_read_only, read_only_lift|intros _].
  apply (write_recharge_farmer_model p (fun m => well_depth <$> agents m = wds)).
Qed.
End DryWells.

(** X13. When an iteration of the groundwater loop has activated every
    agent and leaves the water table deeper than the wells at every node
    (the array [too_deep] of the notebook is true everywhere), no agent pumps
    and the recharge is zero at every node, for a finite pumping rate per
    cell area. *)
Theorem dry_wells_stop_the_pumping :
  forall G (sim : Groundwater.Simulation G) p k order i (w : Groundwater.World G) wd,
    solver_total sim ->
    params_ok p k ->
    world_wf p w ->
    Forall (fun r => (r < length (agents (Groundwater.farmer_model w)))%nat) order ->
    (forall r, (r < length (agents (Groundwater.farmer_model w)))%nat -> r ∈ order) ->
    Forall (fun a => well_depth a = wd) (agents (Groundwater.farmer_model w)) ->
    PrimFloat.is_finite (Groundwater.pumping_rate p / (Groundwater.dx p * Groundwater.dx p))
      = true ->
    exists w',
      Groundwater.year p order i w = (year_trace (Groundwater.dt p) i, Returns tt w') /\
      (Forall (fun b => b = true)
         (too_deep (data (depth_to_water_table (Groundwater.farmer_model w'))) wd) ->
       Forall (fun a => pumping a = false) (agents (Groundwater.farmer_model w')) /\
       Forall (fun x => PrimFloat.is_zero x = true)
         (Groundwater.recharge (Groundwater.sim w'))).
Proof.
  intros G sim p k order i w wd Hsolver Hparams Hwf Hord Hall Hwd Hfin.
  destruct (succeeds_returned _ w _ _
              (year_coupled p k Hsolver Hparams order i w Hwf Hord)
              (@emits_year G sim p order i)) as ([] & w' & Hrun & Hwf' & Hc).
  destruct (succeeds_returned _ w _ _
              (year_succeeds p k Hsolver Hparams order i w Hwf Hord)
              (@emits_year G sim p order i)) as ([] & w'' & Hrun' & _ & Hlen).
  assert (w'' = w') as -> by congruence. clear Hrun'.
  pose proof (year_keeps_well_depths p order i _ w eq_refl) as Hwds.
  rewrite Hrun in Hwds. cbn [final_state snd] in Hwds.
  exists w'. split; [exact Hrun|]. intros Hdeep.
  destruct Hc as (_ & _ & Hpump & Hrech).
  assert (Hdry : Forall (fun a => pumping a = false) (agents (Groundwater.farmer_model w'))).
  { apply Forall_forall. intros a Ha. apply list_elem_of_lookup in Ha as [r Hr].
    pose proof (lookup_lt_Some _ _ _ Hr) as Hlt. rewrite Hlen in Hlt.
    destruct (Hpump r a (Hall r Hlt) Hr) as (x & y & d & _ & Hd & ->).
    assert (Ewd : well_depth a = wd).
    { assert (Hl : (well_depth <$> agents (Groundwater.farmer_model w')) !! r
                   = Some (well_depth a)) by (now rewrite list_lookup_fmap, Hr).
      rewrite Hwds, list_lookup_fmap in Hl.
      destruct (agents (Groundwater.farmer_model w) !! r) as [a0|] eqn:Ha0; [|discriminate].
      injection Hl as <-.
      apply (proj1 (Forall_forall _ _) Hwd). apply list_elem_of_lookup. eauto. }
    rewrite Ewd. apply negb_false_iff, ltb_geb.
    apply (proj1 (Forall_forall _ _) Hdeep). unfold too_deep.
    apply list_elem_of_lookup. exists (Z.to_nat (x * Z.of_nat (Mesa.height
                                         (grid (Groundwater.farmer_model w'))) + y)).
    now rewrite list_lookup_fmap, Hd. }
  split; [exact Hdry|]. rewrite Hrech. apply Forall_fmap, Forall_forall. intros cell _.
  cbn. unfold cell_recharge. rewrite (pumping_in_none _ _ Hdry).
  now apply no_well_no_recharge.
Qed.

Lemma dry_farm_is_wf : world_wf farm_params dry_farm.
Proof. split; [exact farm_wf_two_farmers|]. split; [|split]; reflexivity. Qed.

Lemma dry_wells_stop_the_pumping_witness :
  exists w',
    @Groundwater.year unit idle_solver farm_params [1%nat; 0%nat] 0 dry_farm
      = (year_trace (Groundwater.dt farm_params) 0, Returns tt w') /\
    Forall (fun b => b = true)
      (too_deep (data (depth_to_water_table (Groundwater.farmer_model w'))) 5) /\
    Forall (fun a => pumping a = false) (agents (Groundwater.farmer_model w')) /\
    Forall (fun x => PrimFloat.is_zero x = true)
      (Groundwater.recharge (Groundwater.sim w')).
Proof.
  assert (Hord : Forall (fun r => (r < length (agents (Groundwater.farmer_model dry_farm)))%nat)
                   [1%nat; 0%nat]) by (vm_compute; repeat constructor).
  assert (Hall : forall r, (r < length (agents (Groundwater.farmer_model dry_farm)))%nat ->
                   r ∈ [1%nat; 0%nat]).
  { intros r Hr.
    change (length (agents (Groundwater.farmer_model dry_farm))) with 2%nat in Hr.
    destruct r as [|[|r]]; [right; left|left|lia]. }
  assert (Hwd : Forall (fun a => well_depth a = 5%float)
                  (agents (Groundwater.farmer_model dry_farm)))
    by (vm_compute; repeat constructor).
  assert (Hp : params_ok farm_params 8766) by (split; reflexivity).
  assert (Hfin : PrimFloat.is_finite
                   (Groundwater.pumping_rate farm_params
                    / (Groundwater.dx farm_params * Groundwater.dx farm_params)) = true)
    by reflexivity.
  destruct (dry_wells_stop_the_pumping unit idle_solver farm_params 8766 [1%nat; 0%nat] 0
              dry_farm 5 idle_solver_total Hp dry_farm_is_wf
              Hord Hall Hwd Hfin) as (w' & Hrun & Hdry).
  assert (Hdeep : Forall (fun b => b = true)
      (too_deep (data (depth_to_water_table (Groundwater.farmer_model w'))) 5)).
  { assert (E : w' = final_state (@Groundwater.year unit idle_solver farm_params
                                    [1%nat; 0%nat] 0 dry_farm))
      by (rewrite Hrun; reflexivity).
    rewrite E. vm_compute. repeat constructor. }
  exists w'. split; [exact Hrun|]. split; [exact Hdeep|]. exact (Hdry Hdeep).
Defined.

(** ** What [generate_grass_map] shows *)

Section GrassMap.
Import WolfSheepGrass.
Context {R : Type}.

Lemma cell_grass_cons l r cell :
  cell_grass l (r :: cell)
  = match cell_grass l cell with
    | Some b => Some b
    | None => l !! r ≫= grass_state
    end.
Proof.
  unfold cell_grass. cbn [omap list_omap].
  destruct (l !! r ≫= grass_state) as [b|].
  - rewrite last_cons. reflexivity.
  - now destruct (last _).
Qed.

Lemma mark_grass_fold d0 d1 (m : WolfSheep R) x y cell : forall acc v,
  Forall (fun r => (r < length (agents m))%nat) cell ->
  shape acc = [d0; d1] -> 0 <= x < d0 -> 0 <= y < d1 ->
  data acc !! Z.to_nat (x * d1 + y) = Some v ->
  succeeds (for_fold cell (mark_grass (x, y)) acc) m
    (fun acc' m' =>
       m' = m /\ shape acc' = [d0; d1] /\
       data acc' = <[Z.to_nat (x * d1 + y) :=
                       match cell_grass (agents m) cell with
                       | Some b => grass_code (Some b)
                       | None => v
                       end]> (data acc)).
Proof.
  induction cell as [|r cell IH]; intros acc v Hrefs Hs Hx Hy Hv; cbn [for_fold].
  - apply succeeds_ret. split; [reflexivity|]. split; [exact Hs|].
    cbn. symmetry. now apply list_insert_id.
  - inversion Hrefs as [|? ? Hr Hrest]; subst.
    destruct (lookup_lt_is_Some_2 (agents m) r Hr) as [a Ha].
    rewrite cell_grass_cons, Ha. cbn [mbind option_bind].
    apply succeeds_bind. unfold mark_grass at 1, deref.
    apply succeeds_bind. apply succeeds_bind, succeeds_get. rewrite Ha.
    apply succeeds_ret. cbn [fst snd].
    assert (Hstep : forall b, grass_state a = Some b ->
              succeeds (lift (np_setitem2 acc x y (grass_code (Some b)))) m
                (fun a0 s' =>
                   succeeds (for_fold cell (mark_grass (x, y)) a0) s'
                     (fun acc' m' =>
                        m' = m /\ shape acc' = [d0; d1] /\
                        data acc' = <[Z.to_nat (x * d1 + y) :=
                                        match cell_grass (agents m) cell with
                                        | Some b' => grass_code (Some b')
                                        | None => grass_code (Some b)
                                        end]> (data acc)))).
    { intros b Hb.
      eapply succeeds_lift; [now apply (np_setitem2_at _ d0 d1)|].
      eapply succeeds_weaken.
      - apply (IH _ (grass_code (Some b)) Hrest); [exact Hs|exact Hx|exact Hy|].
        cbn [data]. apply list_lookup_insert_eq. now apply lookup_lt_Some in Hv.
      - cbn [data shape]. intros acc' m' (-> & Hs' & Hd'). split; [reflexivity|].
        split; [exact Hs'|]. now rewrite Hd', list_insert_insert_eq. }
    destruct a as [g|an|an]; cbn [grass_state].
    + destruct (fully_grown g) eqn:Hg.
      * specialize (Hstep true). cbn [grass_state] in Hstep. rewrite Hg in Hstep.
        specialize (Hstep eq_refl).
        destruct (cell_grass (agents m) cell); exact Hstep.
      * specialize (Hstep false). cbn [grass_state] in Hstep. rewrite Hg in Hstep.
        specialize (Hstep eq_refl).
        destruct (cell_grass (agents m) cell); exact Hstep.
    + apply succeeds_ret.
      eapply succeeds_weaken; [apply (IH acc v Hrest Hs Hx Hy Hv)|].
      intros acc' m' (-> & Hs' & Hd'). split; [reflexivity|]. split; [exact Hs'|].
      rewrite Hd'. now destruct (cell_grass (agents m) cell).
    + apply succeeds_ret.
      eapply succeeds_weaken; [apply (IH acc v Hrest Hs Hx Hy Hv)|].
      intros acc' m' (-> & Hs' & Hd'). split; [reflexivity|]. split; [exact Hs'|].
      rewrite Hd'. now destruct (cell_grass (agents m) cell).
Qed.

Lemma generate_grass_map_filled (m : WolfSheep R) :
  grid_wf (grid m) ->
  Forall (fun r => (r < length (agents m))%nat) (on_grid (grid m)) ->
  succeeds generate_grass_map m
    (fun gm m' =>
       m' = m /\
       shape gm = [Z.of_nat (Mesa.width (grid m)); Z.of_nat (Mesa.height (grid m))] /\
       data gm = (fun cell => grass_code (cell_grass (agents m) cell))
                   <$> concat (Mesa.cells (grid m))).
Proof.
  intros Hgrid Hrefs. set (W := Z.of_nat (Mesa.width (grid m))).
  set (H := Z.of_nat (Mesa.height (grid m))).
  pose proof (length_cells _ Hgrid) as Hlen.
  assert (Hlen' : length (concat (Mesa.cells (grid m))) = Z.to_nat (W * H)) by (subst W H; nia).
  unfold generate_grass_map.
  apply succeeds_bind, succeeds_emit. apply succeeds_bind, succeeds_get.
  assert (Hz : np_zeros2 0%float W H = Ok (NDArray [W; H] (replicate (Z.to_nat (W * H)) 0%float))).
  { unfold np_zeros2.
    assert ((W <? 0) = false) as -> by lia. now assert ((H <? 0) = false) as -> by lia. }
  apply succeeds_bind, (succeeds_lift _ _ _ _ Hz).
  rewrite <- length_coords in Hlen.
  set (cs := concat (Mesa.cells (grid m))) in *.
  set (f := fun cell => grass_code (cell_grass (agents m) cell)).
  eapply succeeds_weaken.
  - apply (succeeds_for_fold_indexed
             (fun j gm m' => m' = m /\ shape gm = [W; H] /\
                             data gm = (f <$> take j cs) ++ replicate (length cs - j) 0%float)).
    + intros j [x y] gm m' Hj (-> & Hs & Hd).
      destruct (lookup_cells _ _ _ _ Hgrid Hj) as (cell & Hcell & Hc).
      pose proof (lookup_coords_inv _ _ _ _ Hj) as (Hx & Hy & Ej).
      assert (Ek : Z.to_nat (x * H + y) = j) by (subst j H; nia).
      assert (Hcr : Forall (fun r => (r < length (agents m))%nat) cell).
      { apply Forall_forall. intros r Hr.
        apply (proj1 (Forall_forall _ _) Hrefs).
        apply (cells_on_grid _ cell); [|exact Hr]. apply list_elem_of_lookup. eauto. }
      unfold mark_cell. apply succeeds_bind, succeeds_get.
      apply succeeds_bind, (succeeds_lift _ cell); [exact Hcell|].
      eapply succeeds_weaken.
      * apply (mark_grass_fold W H m x y cell gm 0%float Hcr Hs); [lia|lia|].
        rewrite Ek, Hd. apply filled_lookup; [|reflexivity].
        apply lookup_lt_Some in Hc. exact Hc.
      * intros gm' m' (-> & Hs' & Hd'). split; [reflexivity|]. split; [exact Hs'|].
        rewrite Hd', Ek, Hd.
        replace (match cell_grass (agents m) cell with
                 | Some b => grass_code (Some b)
                 | None => 0%float
                 end) with (f cell) by (unfold f; now destruct (cell_grass (agents m) cell)).
        now apply (fill_next f).
    + split; [reflexivity|]. split; [reflexivity|]. cbn. now rewrite Nat.sub_0_r, Hlen'.
  - intros gm m' (-> & Hs & Hd). split; [reflexivity|]. split; [exact Hs|].
    rewrite <- Hlen, Nat.sub_diag, firstn_all, app_nil_r in Hd. exact Hd.
Qed.
End GrassMap.

(** X14. On a grid whose cells hold agents of the model, whatever its
    width and height, [generate_grass_map] returns and leaves the model
    alone; its array has the shape (width, height) and shows for a cell 2
    when the last grass patch of the cell is fully grown, 1 when it is not,
    and 0 when the cell has no grass patch. *)
Theorem grass_map_per_cell :
  forall R (m : WolfSheepGrass.WolfSheep R),
    grid_wf (WolfSheepGrass.grid m) ->
    Forall (fun r => (r < length (WolfSheepGrass.agents m))%nat)
           (on_grid (WolfSheepGrass.grid m)) ->
    exists gm,
      WolfSheepGrass.generate_grass_map m = ([ev_aggregate], Returns gm m) /\
      shape gm = [Z.of_nat (Mesa.width (WolfSheepGrass.grid m));
                  Z.of_nat (Mesa.height (WolfSheepGrass.grid m))] /\
      data gm = (fun cell => grass_code (cell_grass (WolfSheepGrass.agents m) cell))
                  <$> concat (Mesa.cells (WolfSheepGrass.grid m)) /\
      forall x y cell,
        0 <= x -> 0 <= y -> Mesa.cell_at (WolfSheepGrass.grid m) (x, y) = Ok cell ->
        np_getitem2 gm x y = Ok (grass_code (cell_grass (WolfSheepGrass.agents m) cell)).
Proof.
  intros R m Hgrid Hrefs.
  destruct (succeeds_returned _ m _ _ (generate_grass_map_filled m Hgrid Hrefs)
              emits_generate_grass_map) as (gm & m' & Hrun & -> & Hs & Hd).
  exists gm. split; [exact Hrun|]. split; [exact Hs|]. split; [exact Hd|].
  intros x y cell Hx Hy Hc.
  destruct (cell_at_flat _ _ _ _ Hgrid Hx Hy Hc) as (Hxw & Hyh & Hflat).
  apply (np_getitem2_at _ _ _ _ _ _ Hs); [lia|lia|].
  replace (Z.to_nat (x * Z.of_nat (Mesa.height (WolfSheepGrass.grid m)) + y))
    with (Z.to_nat x * Mesa.height (WolfSheepGrass.grid m) + Z.to_nat y)%nat by nia.
  rewrite Hd, list_lookup_fmap, Hflat. reflexivity.
Qed.

Lemma meadow_is_wf : meadow_wf meadow.
Proof.
  split; [reflexivity|]. split; [reflexivity|]. split.
  - split; [reflexivity|]. repeat constructor.
  - vm_compute. repeat constructor.
Qed.

Lemma grass_map_per_cell_witness :
  exists gm,
    WolfSheepGrass.generate_grass_map meadow = ([ev_aggregate], Returns gm meadow) /\
    shape gm = [Z.of_nat (Mesa.width (WolfSheepGrass.grid meadow));
                Z.of_nat (Mesa.height (WolfSheepGrass.grid meadow))] /\
    data gm = (fun cell => grass_code (cell_grass (WolfSheepGrass.agents meadow) cell))
                <$> concat (Mesa.cells (WolfSheepGrass.grid meadow)) /\
    forall x y cell,
      0 <= x -> 0 <= y -> Mesa.cell_at (WolfSheepGrass.grid meadow) (x, y) = Ok cell ->
      np_getitem2 gm x y = Ok (grass_code (cell_grass (WolfSheepGrass.agents meadow) cell)).
Proof.
  apply (grass_map_per_cell unit meadow).
  - apply meadow_is_wf.
  - apply meadow_is_wf.
Defined.

(** ** What [limit_grass_by_soil] damages *)

Section Limit.
Import WolfSheepGrass.
Context {R : Type}.

Lemma set_fully_grown_idem b a : set_fully_grown b (set_fully_grown b a) = set_fully_grown b a.
Proof. now destruct a. Qed.

Lemma damaged_nil l : damaged [] l = l.
Proof.
  unfold damaged. apply list_eq. intros i. rewrite list_lookup_imap.
  now destruct (l !! i).
Qed.

Lemma damaged_app refs1 refs2 l :
  damaged refs2 (damaged refs1 l) = damaged (refs1 ++ refs2) l.
Proof.
  unfold damaged. apply list_eq. intros i. rewrite !list_lookup_imap.
  destruct (l !! i) as [a|]; [|reflexivity]. cbn.
  destruct (bool_decide (i ∈ refs1)) eqn:E1, (bool_decide (i ∈ refs2)) eqn:E2,
           (bool_decide (i ∈ refs1 ++ refs2)) eqn:E3;
    try reflexivity; try (now rewrite set_fully_grown_idem);
    try apply bool_decide_eq_true in E1; try apply bool_decide_eq_false in E1;
    try apply bool_decide_eq_true in E2; try apply bool_decide_eq_false in E2;
    try apply bool_decide_eq_true in E3; try apply bool_decide_eq_false in E3;
    exfalso; rewrite elem_of_app in E3; tauto.
Qed.

Lemma length_damaged refs l : length (damaged refs l) = length l.
Proof. apply length_imap. Qed.

Lemma damage_grass_returns (m : WolfSheep R) r :
  (r < length (agents m))%nat ->
  damage_grass r m = ([], Returns tt (set_agents (damaged [r]) m)).
Proof.
  intros Hr. destruct (lookup_lt_is_Some_2 (agents m) r Hr) as [a Ha].
  unfold damage_grass, deref. run. rewrite Ha. run.
  assert (E : alter (set_fully_grown false) r (agents m) = damaged [r] (agents m)).
  { apply list_eq. intros i. unfold damaged. rewrite list_lookup_imap.
    destruct (decide (i = r)) as [->|Hne].
    - rewrite list_lookup_alter_eq, Ha. cbn.
      now rewrite (bool_decide_eq_true_2 (r ∈ [r])) by left.
    - rewrite list_lookup_alter_ne by congruence.
      destruct (agents m !! i); [|reflexivity]. cbn.
      rewrite bool_decide_eq_false_2; [reflexivity|].
      intros Hin. apply list_elem_of_singleton in Hin. contradiction. }
  destruct a as [g|an|an]; run.
  - unfold set_agents. now rewrite E.
  - f_equal. f_equal. destruct m. unfold set_agents. cbn in *. f_equal.
    rewrite <- E. symmetry. apply list_eq. intros i.
    destruct (decide (i = r)) as [->|Hne].
    + rewrite list_lookup_alter_eq, Ha. reflexivity.
    + now rewrite list_lookup_alter_ne by congruence.
  - f_equal. f_equal. destruct m. unfold set_agents. cbn in *. f_equal.
    rewrite <- E. symmetry. apply list_eq. intros i.
    destruct (decide (i = r)) as [->|Hne].
    + rewrite list_lookup_alter_eq, Ha. reflexivity.
    + now rewrite list_lookup_alter_ne by congruence.
Qed.

Lemma set_agents_set_agents f g (m : WolfSheep R) :
  set_agents g (set_agents f m) = set_agents (fun l => g (f l)) m.
Proof. reflexivity. Qed.

Lemma for_each_damage_returns cell : forall (m : WolfSheep R),
  Forall (fun r => (r < length (agents m))%nat) cell ->
  for_each cell damage_grass m = ([], Returns tt (set_agents (damaged cell) m)).
Proof.
  induction cell as [|r cell IH]; intros m Hrefs; cbn [for_each].
  - run. f_equal. f_equal. destruct m. unfold set_agents. cbn. f_equal.
    symmetry. apply damaged_nil.
  - inversion Hrefs as [|? ? Hr Hrest]; subst.
    returns (damage_grass_returns m r Hr). rewrite IH.
    + cbn. f_equal. f_equal. unfold set_agents. cbn. f_equal.
      apply (damaged_app [r] cell).
    + cbn [agents set_agents]. now rewrite length_damaged.
Qed.
End Limit.

Lemma thin_cells_snoc (cs : list (list nat)) soil min_depth j cell d :
  cs !! j = Some cell -> soil !! j = Some d ->
  thin_cells (take (S j) cs) soil min_depth
  = thin_cells (take j cs) soil min_depth ++ (if (d <? min_depth)%float then cell else []).
Proof.
  intros Hc Hd. unfold thin_cells.
  pose proof (lookup_lt_Some _ _ _ Hc) as Hlc. pose proof (lookup_lt_Some _ _ _ Hd) as Hld.
  rewrite (take_S_r _ _ _ Hc).
  rewrite <- (take_drop_middle soil j d Hd) at 1.
  rewrite zip_with_app by (rewrite !length_take; lia).
  rewrite concat_app. cbn [zip_with concat]. rewrite app_nil_r. f_equal.
  f_equal. rewrite <- (zip_with_take_r _ (take j cs) soil).
  rewrite length_take. f_equal. f_equal. lia.
Qed.

Section LimitGrass.
Import WolfSheepGrass.
Context {R : Type}.

Lemma limit_grass_by_soil_damages (m : WolfSheep R) soil min_depth :
  meadow_wf m ->
  np_size soil = Z.of_nat (width m) * Z.of_nat (height m) ->
  succeeds (limit_grass_by_soil soil min_depth) m
    (fun _ m' =>
       m' = set_agents
              (damaged (thin_cells (concat (Mesa.cells (grid m))) (data soil) min_depth)) m).
Proof.
  intros (Hw & Hh & Hgrid & Hrefs) Hsize.
  pose proof (length_cells _ Hgrid) as Hlen.
  unfold limit_grass_by_soil.
  apply succeeds_bind, succeeds_emit. apply succeeds_bind, succeeds_get.
  apply succeeds_bind. eapply succeeds_lift;
    [apply np_reshape2_ok; [lia|lia|exact Hsize]|].
  rewrite Hw, Hh.
  set (W := Z.of_nat (Mesa.width (grid m))). set (H := Z.of_nat (Mesa.height (grid m))).
  set (cs := concat (Mesa.cells (grid m))) in *.
  rewrite <- length_coords in Hlen.
  eapply succeeds_weaken.
  - apply (succeeds_for_each_indexed
             (fun j m' =>
                m' = set_agents (damaged (thin_cells (take j cs) (data soil) min_depth)) m)).
    + intros j [x y] m' Hj ->.
      set (T := thin_cells (take j cs) (data soil) min_depth).
      destruct (lookup_cells _ _ _ _ Hgrid Hj) as (cell & Hcell & Hc). fold cs in Hc.
      pose proof (lookup_coords_inv _ _ _ _ Hj) as (Hx & Hy & Ej).
      assert (Ek : Z.to_nat (x * H + y) = j) by (subst j H; nia).
      assert (Hcr : Forall (fun r => (r < length (agents m))%nat) cell).
      { apply Forall_forall. intros r Hr.
        apply (proj1 (Forall_forall _ _) Hrefs).
        apply (cells_on_grid _ cell); [|exact Hr]. apply list_elem_of_lookup. eauto. }
      destruct (lookup_lt_is_Some_2 (data soil) j) as [d Hd].
      { apply lookup_lt_Some in Hc. unfold np_size in Hsize. rewrite Hw, Hh in Hsize.
        fold cs in Hlen. rewrite length_coords in Hlen. nia. }
      unfold limit_cell. apply succeeds_bind, succeeds_get.
      cbn [grid set_agents].
      apply succeeds_bind, (succeeds_lift _ cell); [exact Hcell|].
      apply succeeds_bind, (succeeds_lift _ d).
      { cbn [fst snd]. apply (np_getitem2_at _ W H); [reflexivity|lia|lia|].
        cbn [data]. now rewrite Ek. }
      unfold T. rewrite (thin_cells_snoc _ _ _ _ _ _ Hc Hd).
      destruct (d <? min_depth)%float.
      * unfold succeeds. rewrite for_each_damage_returns.
        -- cbn [snd]. unfold set_agents. cbn. f_equal. apply damaged_app.
        -- cbn [agents set_agents]. now rewrite length_damaged.
      * apply succeeds_ret. now rewrite app_nil_r.
    + cbn. destruct m. unfold set_agents. cbn. f_equal. symmetry. apply damaged_nil.
  - intros ? m' ->. rewrite <- Hlen. unfold cs. now rewrite firstn_all.
Qed.
End LimitGrass.

(** X15. On a well-formed model and a soil array with one depth for every
    cell, [limit_grass_by_soil] returns the model in which the grass patches
    of the cells whose soil depth is below [min_soil_depth] are not fully
    grown; nothing else has changed. *)
Theorem thin_soil_damages_grass :
  forall R (m : WolfSheepGrass.WolfSheep R) soil min_soil_depth,
    meadow_wf m ->
    np_size soil = Z.of_nat (WolfSheepGrass.width m) * Z.of_nat (WolfSheepGrass.height m) ->
    WolfSheepGrass.limit_grass_by_soil soil min_soil_depth m
    = ([ev_observe],
       Returns tt
         (WolfSheepGrass.set_agents
            (damaged (thin_cells (concat (Mesa.cells (WolfSheepGrass.grid m)))
                        (data soil) min_soil_depth)) m)).
Proof.
  intros R m soil min_soil_depth Hwf Hsize.
  destruct (succeeds_returned _ m _ _ (limit_grass_by_soil_damages m soil min_soil_depth Hwf Hsize)
              (emits_limit_grass_by_soil soil min_soil_depth)) as ([] & m' & Hrun & ->).
  exact Hrun.
Qed.

Lemma thin_soil_damages_grass_witness :
  WolfSheepGrass.limit_grass_by_soil (NDArray [4] [1; 0; 1; 0]%float) 0.5 meadow
  = ([ev_observe],
     Returns tt
       (WolfSheepGrass.set_agents
          (damaged (thin_cells (concat (Mesa.cells (WolfSheepGrass.grid meadow)))
                      (data (NDArray [4] [1; 0; 1; 0]%float)) 0.5)) meadow)).
Proof.
  apply (thin_soil_damages_grass unit meadow (NDArray [4] [1; 0; 1; 0]%float) 0.5%float).
  - exact meadow_is_wf.
  - reflexivity.
Defined.

Example thin_soil_on_the_meadow :
  grass_state <$> WolfSheepGrass.agents
    (final_state (WolfSheepGrass.limit_grass_by_soil (NDArray [4] [1; 0; 1; 0]%float) 0.5 meadow))
  = [Some true; Some false; Some true; Some false; None] /\
  grass_state <$> damaged (thin_cells (concat (Mesa.cells (WolfSheepGrass.grid meadow)))
                             [1; 0; 1; 0]%float 0.5) (WolfSheepGrass.agents meadow)
  = [Some true; Some false; Some true; Some false; None].
Proof. vm_compute. split; reflexivity. Qed.

(** ** What [limit_grass_by_soil] leaves alone *)

Section NeverGrows.
Import WolfSheepGrass.
Context {R : Type}.

Lemma only_damaged_refl l : only_damaged l l.
Proof.
  apply Forall2_same_length_lookup_2; [reflexivity|].
  intros i a a' H1 H2. left. congruence.
Qed.

Lemma only_damaged_alter l l' r :
  only_damaged l l' -> only_damaged l (alter (set_fully_grown false) r l').
Proof.
  intros H. apply Forall2_alter_r; [exact H|].
  intros a a' _ _ [->| ->]; right; [reflexivity|now rewrite set_fully_grown_idem].
Qed.

Lemma limit_grass_by_soil_keeps (m : WolfSheep R) soil min_depth :
  invariant (kept m) (limit_grass_by_soil soil min_depth).
Proof.
  unfold limit_grass_by_soil.
  apply invariant_bind; [apply invariant_read_only, read_only_emit|intros _].
  apply invariant_bind; [apply invariant_read_only, read_only_get|intros m0].
  apply invariant_bind; [apply invariant_read_only, read_only_lift|intros sm].
  apply invariant_for_each. intros xy. unfold limit_cell.
  apply invariant_bind; [apply invariant_read_only, read_only_get|intros m1].
  apply invariant_bind; [apply invariant_read_only, read_only_lift|intros cell].
  apply invariant_bind; [apply invariant_read_only, read_only_lift|intros d].
  destruct (d <? min_depth)%float; [|apply invariant_read_only, read_only_ret].
  apply invariant_for_each. intros r. unfold damage_grass.
  apply invariant_bind; [apply invariant_read_only, read_only_ws_deref|intros a].
  destruct a as [g|an|an]; try (apply invariant_read_only, read_only_ret).
  intros s (Hw & Hh & Hg & Hr & Ha). unfold final_state. run. cbn.
  split; [exact Hw|]. split; [exact Hh|]. split; [exact Hg|]. split; [exact Hr|].
  now apply only_damaged_alter.
Qed.
End NeverGrows.

(** X16. Whatever the model and the soil array, and whether it returns or
    raises, [limit_grass_by_soil] keeps the grid, the dimensions and the
    number of agents, changes no agent but grass patches, and makes no grass
    patch fully grown. *)
Theorem soil_never_grows_grass :
  forall R (m : WolfSheepGrass.WolfSheep R) soil min_soil_depth,
    let m' := final_state (WolfSheepGrass.limit_grass_by_soil soil min_soil_depth m) in
    WolfSheepGrass.width m' = WolfSheepGrass.width m /\
    WolfSheepGrass.height m' = WolfSheepGrass.height m /\
    WolfSheepGrass.grid m' = WolfSheepGrass.grid m /\
    WolfSheepGrass.rest m' = WolfSheepGrass.rest m /\
    length (WolfSheepGrass.agents m') = length (WolfSheepGrass.agents m) /\
    forall r a a',
      WolfSheepGrass.agents m !! r = Some a ->
      WolfSheepGrass.agents m' !! r = Some a' ->
      (a' = a \/ a' = WolfSheepGrass.set_fully_grown false a) /\
      (grass_state a' = Some true -> grass_state a = Some true) /\
      (grass_state a = None -> a' = a).
Proof.
  intros R m soil min_soil_depth m'.
  destruct (limit_grass_by_soil_keeps m soil min_soil_depth m) as (Hw & Hh & Hg & Hr & Ha).
  { repeat split. apply only_damaged_refl. }
  fold m' in Hw, Hh, Hg, Hr, Ha.
  split; [exact Hw|]. split; [exact Hh|]. split; [exact Hg|]. split; [exact Hr|].
  split; [symmetry; exact (Forall2_length _ _ _ Ha)|].
  intros r a a' H1 H2.
  pose proof (Forall2_lookup_lr _ _ _ _ _ _ Ha H1 H2) as Hd.
  split; [exact Hd|]. split.
  - destruct Hd as [->| ->]; [auto|]. now destruct a.
  - destruct Hd as [->| ->]; [auto|]. now destruct a.
Qed.

(** ** Limiting the grass again, and mapping it *)

Section LimitTwice.
Import WolfSheepGrass.
Context {R : Type}.

Lemma limit_grass_by_soil_returns (m : WolfSheep R) soil min_depth :
  meadow_wf m ->
  np_size soil = Z.of_nat (width m) * Z.of_nat (height m) ->
  limit_grass_by_soil soil min_depth m
  = ([ev_observe],
     Returns tt (set_agents
                   (damaged (thin_cells (concat (Mesa.cells (grid m))) (data soil) min_depth))
                   m)).
Proof.
  intros Hwf Hsize.
  destruct (succeeds_returned _ m _ _ (limit_grass_by_soil_damages m soil min_depth Hwf Hsize)
              (emits_limit_grass_by_soil soil min_depth)) as ([] & m' & Hrun & ->).
  exact Hrun.
Qed.

Lemma damaged_ext refs1 refs2 l :
  (forall r, r ∈ refs1 <-> r ∈ refs2) -> damaged refs1 l = damaged refs2 l.
Proof.
  intros H. unfold damaged. apply imap_ext. intros i a _.
  assert (E : bool_decide (i ∈ refs1) = bool_decide (i ∈ refs2))
    by (apply bool_decide_ext, H).
  now rewrite E.
Qed.

Lemma meadow_wf_damaged refs (m : WolfSheep R) :
  meadow_wf m -> meadow_wf (set_agents (damaged refs) m).
Proof.
  intros (Hw & Hh & Hg & Hr). split; [exact Hw|]. split; [exact Hh|]. split; [exact Hg|].
  cbn [agents grid set_agents]. now rewrite length_damaged.
Qed.

Lemma grass_state_damaged a :
  grass_state (set_fully_grown false a) = (fun _ => false) <$> grass_state a.
Proof. now destruct a. Qed.

Lemma cell_grass_damaged refs l cell :
  Forall (fun r => r ∈ refs) cell ->
  cell_grass (damaged refs l) cell = (fun _ => false) <$> cell_grass l cell.
Proof.
  intros Hin. unfold cell_grass. rewrite <- fmap_last. f_equal.
  induction Hin as [|r cell Hr Hin IH]; [reflexivity|].
  cbn [omap list_omap]. unfold damaged at 1. rewrite list_lookup_imap.
  rewrite (bool_decide_eq_true_2 _ Hr).
  destruct (l !! r) as [a|]; cbn [fmap option_fmap option_map mbind option_bind].
  - rewrite grass_state_damaged. destruct (grass_state a); cbn; now rewrite IH.
  - exact IH.
Qed.

Lemma thin_cell_refs (cs : list (list nat)) soil min_depth k cell d r :
  cs !! k = Some cell -> soil !! k = Some d -> (d <? min_depth)%float = true ->
  r ∈ cell -> r ∈ thin_cells cs soil min_depth.
Proof.
  intros Hc Hd Hlt Hr. unfold thin_cells. apply list_elem_of_In, in_concat.
  exists cell. split; [|now apply list_elem_of_In].
  apply list_elem_of_In, list_elem_of_lookup. exists k.
  rewrite lookup_zip_with, Hc, Hd. cbn. now rewrite Hlt.
Qed.
End LimitTwice.

(** X17. Limiting the grass again by the same soil changes nothing. *)
Theorem limiting_again_changes_nothing :
  forall R (m : WolfSheepGrass.WolfSheep R) soil min_soil_depth t m1,
    meadow_wf m ->
    np_size soil = Z.of_nat (WolfSheepGrass.width m) * Z.of_nat (WolfSheepGrass.height m) ->
    WolfSheepGrass.limit_grass_by_soil soil min_soil_depth m = (t, Returns tt m1) ->
    WolfSheepGrass.limit_grass_by_soil soil min_soil_depth m1 = ([ev_observe], Returns tt m1).
Proof.
  intros R m soil min_soil_depth t m1 Hwf Hsize Hrun.
  rewrite (limit_grass_by_soil_returns m soil min_soil_depth Hwf Hsize) in Hrun.
  injection Hrun as <- <-.
  rewrite limit_grass_by_soil_returns.
  - f_equal. f_equal. unfold WolfSheepGrass.set_agents.
    cbn [WolfSheepGrass.agents WolfSheepGrass.grid WolfSheepGrass.width
         WolfSheepGrass.height WolfSheepGrass.rest]. f_equal.
    rewrite damaged_app. apply damaged_ext. intros r. rewrite elem_of_app. tauto.
  - now apply meadow_wf_damaged.
  - exact Hsize.
Qed.

Lemma limiting_again_changes_nothing_witness :
  WolfSheepGrass.limit_grass_by_soil (NDArray [4] [1; 0; 1; 0]%float) 0.5
    (final_state (WolfSheepGrass.limit_grass_by_soil (NDArray [4] [1; 0; 1; 0]%float) 0.5 meadow))
  = ([ev_observe],
     Returns tt
       (final_state (WolfSheepGrass.limit_grass_by_soil (NDArray [4] [1; 0; 1; 0]%float) 0.5
                       meadow))).
Proof.
  apply (limiting_again_changes_nothing unit meadow (NDArray [4] [1; 0; 1; 0]%float) 0.5%float
           [ev_observe]).
  - exact meadow_is_wf.
  - reflexivity.
  - vm_compute. reflexivity.
Defined.

(** X18. After [limit_grass_by_soil], [generate_grass_map] shows every cell
    whose soil is too thin as damaged grass (1) when the cell has a grass
    patch, and as 0 when it has none: never as fully grown grass. *)
Theorem thin_cells_map_as_damaged :
  forall R (m : WolfSheepGrass.WolfSheep R) soil min_soil_depth,
    meadow_wf m ->
    np_size soil = Z.of_nat (WolfSheepGrass.width m) * Z.of_nat (WolfSheepGrass.height m) ->
    exists m1 gm,
      WolfSheepGrass.limit_grass_by_soil soil min_soil_depth m = ([ev_observe], Returns tt m1) /\
      WolfSheepGrass.generate_grass_map m1 = ([ev_aggregate], Returns gm m1) /\
      forall k cell d,
        concat (Mesa.cells (WolfSheepGrass.grid m)) !! k = Some cell ->
        data soil !! k = Some d ->
        (d <? min_soil_depth)%float = true ->
        data gm !! k
        = Some (match cell_grass (WolfSheepGrass.agents m) cell with
                | Some _ => 1%float
                | None => 0%float
                end).
Proof.
  intros R m soil min_soil_depth Hwf Hsize.
  set (T := thin_cells (concat (Mesa.cells (WolfSheepGrass.grid m))) (data soil) min_soil_depth).
  pose proof (meadow_wf_damaged T m Hwf) as Hwf1.
  destruct Hwf1 as (_ & _ & Hg1 & Hr1).
  destruct (succeeds_returned _ _ _ _ (generate_grass_map_filled _ Hg1 Hr1)
              emits_generate_grass_map) as (gm & m' & Hrun & -> & Hs & Hd).
  eexists _, gm. split; [now apply limit_grass_by_soil_returns|]. split; [exact Hrun|].
  intros k cell d Hc Hdk Hlt.
  cbn [WolfSheepGrass.grid WolfSheepGrass.agents WolfSheepGrass.set_agents] in Hd.
  rewrite Hd, list_lookup_fmap, Hc. cbn. f_equal.
  rewrite cell_grass_damaged.
  - now destruct (cell_grass (WolfSheepGrass.agents m) cell).
  - apply Forall_forall. intros r Hr. now apply (thin_cell_refs _ _ _ k cell d).
Qed.

Lemma thin_cells_map_as_damaged_witness :
  exists m1 gm,
    WolfSheepGrass.limit_grass_by_soil (NDArray [4] [1; 0; 1; 0]%float) 0.5 meadow
      = ([ev_observe], Returns tt m1) /\
    WolfSheepGrass.generate_grass_map m1 = ([ev_aggregate], Returns gm m1) /\
    forall k cell d,
      concat (Mesa.cells (WolfSheepGrass.grid meadow)) !! k = Some cell ->
      data (NDArray [4] [1; 0; 1; 0]%float) !! k = Some d ->
      (d <? 0.5)%float = true ->
      data gm !! k
      = Some (match cell_grass (WolfSheepGrass.agents meadow) cell with
              | Some _ => 1%float
              | None => 0%float
              end).
Proof.
  apply (thin_cells_map_as_damaged unit meadow (NDArray [4] [1; 0; 1; 0]%float) 0.5%float).
  - exact meadow_is_wf.
  - reflexivity.
Defined.

(** ** The main loop of the wolf-sheep-grass notebook returns *)

Lemma np_inplace_same_length f (t v : list float) :
  length v = length t -> np_inplace f t v = Ok (zip_with f t v).
Proof.
  intros E. unfold np_inplace, np_broadcast. now rewrite decide_True.
Qed.

Lemma np_mask_assign_same_length {A} (t : list A) mask x :
  length mask = length t ->
  np_mask_assign t mask x = Ok (zip_with (fun v (b : bool) => if b then x else v) t mask).
Proof. intros E. unfold np_mask_assign. now rewrite decide_True. Qed.

Section WolfSheepGrassTermination.
Import WolfSheepGrass.
Context {R D : Type} {Hpop : Population R} {Hsim : Simulation D}.
Variable p : Params.
Hypothesis Hpopulation : population_total Hpop.
Hypothesis Hdiffuser : diffuser_total Hsim.

Lemma assign_creep_succeeds (w : World R D) gm k v :
  wsg_world_wf w ->
  length (data gm) = length (creep_coef (rmg w)) ->
  succeeds (assign_creep gm k v) w
    (fun _ w' =>
       w' = set_rmg (set_creep_coef
                       (zip_with (fun c (b : bool) => if b then v else c) (creep_coef (rmg w))
                          ((fun x => (x =? k)%float) <$> data gm)) (rmg w)) w).
Proof.
  intros Hwf Hlen. unfold assign_creep.
  apply succeeds_bind, succeeds_emit. apply succeeds_bind, succeeds_get.
  apply succeeds_bind. eapply succeeds_lift.
  - apply np_mask_assign_same_length. rewrite length_map. exact Hlen.
  - now apply succeeds_put.
Qed.

Lemma wsg_world_wf_creep (w : World R D) c :
  wsg_world_wf w -> length c = length (creep_coef (rmg w)) ->
  wsg_world_wf (set_rmg (set_creep_coef c (rmg w)) w).
Proof.
  intros (Hm & He & Hc & Hs & Hp) Hlen. split; [exact Hm|]. cbn. repeat split; congruence.
Qed.

Lemma scale_creep_succeeds (w : World R D) :
  wsg_world_wf w ->
  succeeds (scale_creep p) w
    (fun _ w' => wsg_world_wf w' /\ ws w' = ws w /\ elev (rmg w') = elev (rmg w) /\
                 soil w' = soil w /\ prior_elev w' = prior_elev w).
Proof.
  intros Hwf. pose proof Hwf as (Hm & He & Hc & Hs & Hp). unfold scale_creep.
  apply succeeds_bind, succeeds_emit. apply succeeds_bind, succeeds_get.
  apply succeeds_bind. eapply succeeds_lift.
  - apply np_inplace_same_length. rewrite length_map. congruence.
  - apply succeeds_put. split; [|auto]. apply wsg_world_wf_creep; [exact Hwf|].
    rewrite length_zip_with_l_eq; [reflexivity|]. rewrite length_map. congruence.
Qed.

Lemma save_prior_succeeds (w : World R D) :
  wsg_world_wf w ->
  succeeds save_prior w
    (fun _ w' => wsg_world_wf w' /\ ws w' = ws w /\ rmg w' = rmg w /\
                 soil w' = soil w /\ prior_elev w' = elev (rmg w)).
Proof.
  intros (Hm & He & Hc & Hs & Hp). unfold save_prior.
  apply succeeds_bind, succeeds_emit. apply succeeds_bind, succeeds_get.
  apply succeeds_bind. eapply succeeds_lift.
  - apply np_assign_same_length. congruence.
  - apply succeeds_put. split; [|auto]. split; [exact Hm|]. cbn. repeat split; congruence.
Qed.

Lemma run_one_step_succeeds (w : World R D) :
  wsg_world_wf w ->
  succeeds (zoom rmg set_rmg (run_one_step (dt p))) w
    (fun _ w' => wsg_world_wf w' /\ ws w' = ws w /\
                 soil w' = soil w /\ prior_elev w' = prior_elev w).
Proof.
  intros (Hm & He & Hc & Hs & Hp). apply succeeds_zoom. unfold run_one_step.
  apply succeeds_bind, succeeds_emit.
  destruct (Hdiffuser (dt p) (rmg w)) as (g' & E & L1 & L2).
  apply (succeeds_call _ _ tt g' _ E). split; [|auto].
  split; [exact Hm|]. cbn. repeat split; congruence.
Qed.

Lemma update_soil_succeeds (w : World R D) :
  wsg_world_wf w ->
  succeeds update_soil w
    (fun _ w' => wsg_world_wf w' /\ ws w' = ws w /\ rmg w' = rmg w /\
                 prior_elev w' = prior_elev w /\
                 soil w' = zip_with PrimFloat.add (soil w)
                             (zip_with PrimFloat.sub (elev (rmg w)) (prior_elev w))).
Proof.
  intros (Hm & He & Hc & Hs & Hp). unfold update_soil.
  apply succeeds_bind, succeeds_emit. apply succeeds_bind, succeeds_get.
  apply succeeds_bind. eapply succeeds_lift;
    [apply np_binop_same_length; congruence|].
  apply succeeds_bind. eapply succeeds_lift.
  - apply np_inplace_same_length. rewrite length_zip_with_l_eq; congruence.
  - apply succeeds_put. split; [|auto]. split; [exact Hm|]. cbn. repeat split; try congruence.
    rewrite length_zip_with_l_eq; [congruence|].
    rewrite length_zip_with_l_eq; congruence.
Qed.

Lemma set_ws_same (w : World R D) : set_ws (ws w) w = w.
Proof. now destruct w. Qed.

Lemma iteration_succeeds i (w : World R D) :
  wsg_world_wf w ->
  succeeds (iteration p i) w
    (fun _ w' =>
       wsg_world_wf w' /\
       prior_elev w' = elev (rmg w) /\
       soil w' = zip_with PrimFloat.add (soil w)
                   (zip_with PrimFloat.sub (elev (rmg w')) (elev (rmg w)))).
Proof.
  intros Hwf. pose proof Hwf as (Hm & He & Hc & Hs & Hp).
  pose proof Hm as (Hw & Hh & Hgrid & Hrefs).
  unfold iteration.
  apply succeeds_bind, succeeds_emit.
  apply succeeds_bind, succeeds_zoom.
  eapply succeeds_weaken; [apply (generate_grass_map_filled _ Hgrid Hrefs)|].
  intros gm m' (-> & Hsh & Hd). rewrite set_ws_same.
  assert (Hlen : length (data gm) = length (creep_coef (rmg w))).
  { rewrite Hd, length_fmap, (length_cells _ Hgrid). congruence. }
  apply succeeds_bind.
  eapply succeeds_weaken; [apply (assign_creep_succeeds _ _ _ _ Hwf Hlen)|].
  intros ? w1 ->.
  assert (Hwf1 : wsg_world_wf
                   (set_rmg (set_creep_coef
                       (zip_with (fun c (b : bool) => if b then fast_creep p else c)
                          (creep_coef (rmg w)) ((fun x => (x =? 1)%float) <$> data gm))
                       (rmg w)) w)).
  { apply wsg_world_wf_creep; [exact Hwf|].
    rewrite length_zip_with_l_eq; [reflexivity|]. rewrite length_fmap. congruence. }
  apply succeeds_bind.
  eapply succeeds_weaken; [apply (assign_creep_succeeds _ _ _ _ Hwf1)|].
  { cbn [rmg set_rmg creep_coef set_creep_coef].
    rewrite length_zip_with_l_eq; [exact Hlen|]. rewrite length_fmap. congruence. }
  intros ? w2 ->.
  match goal with |- succeeds _ ?w2 _ => assert (Hwf2 : wsg_world_wf w2) end.
  { apply wsg_world_wf_creep; [exact Hwf1|].
    rewrite length_zip_with_l_eq; [reflexivity|]. rewrite length_fmap.
    cbn [rmg set_rmg creep_coef set_creep_coef].
    rewrite length_zip_with_l_eq; [congruence|]. rewrite length_fmap. congruence. }
  apply succeeds_bind.
  eapply succeeds_weaken; [apply (scale_creep_succeeds _ Hwf2)|].
  intros ? w3 (Hwf3 & Hws3 & He3 & Hs3 & Hp3).
  cbn [ws rmg soil prior_elev set_rmg set_creep_coef elev] in Hws3, He3, Hs3, Hp3.
  apply succeeds_bind.
  eapply succeeds_weaken; [apply (save_prior_succeeds _ Hwf3)|].
  intros ? w4 (Hwf4 & Hws4 & Hr4 & Hs4 & Hp4).
  apply succeeds_bind.
  eapply succeeds_weaken; [apply (run_one_step_succeeds _ Hwf4)|].
  intros ? w5 (Hwf5 & Hws5 & Hs5 & Hp5).
  apply succeeds_bind.
  eapply succeeds_weaken; [apply (update_soil_succeeds _ Hwf5)|].
  intros ? w6 (Hwf6 & Hws6 & Hr6 & Hp6 & Hs6).
  apply succeeds_bind, succeeds_get.
  pose proof Hwf6 as (Hm6 & He6 & Hc6 & Hsl6 & Hpl6).
  apply succeeds_bind, succeeds_zoom.
  eapply succeeds_weaken.
  { apply (limit_grass_by_soil_damages (ws w6)); [exact Hm6|].
    unfold np_size. cbn [data]. destruct Hm6 as (Hw6 & Hh6 & _). rewrite Hsl6, Hw6, Hh6. lia. }
  intros ? m7 ->.
  match goal with |- succeeds _ ?w7 _ => assert (Hwf7 : wsg_world_wf w7) end.
  { split; [apply meadow_wf_damaged, Hm6|]. cbn. repeat split; assumption. }
  apply succeeds_zoom. unfold step_population.
  apply succeeds_bind, succeeds_emit.
  destruct Hwf7 as (Hm7 & He7 & Hc7 & Hs7 & Hp7).
  destruct (Hpopulation _ Hm7) as (m8 & E & Hm8 & Hw8 & Hh8).
  apply (succeeds_call _ _ tt m8 _ E).
  cbn [ws set_ws rmg soil prior_elev] in *.
  split; [|split].
  - split; [exact Hm8|]. cbn [ws set_ws rmg soil prior_elev].
    rewrite Hw8, Hh8. repeat split; assumption.
  - congruence.
  - rewrite Hs6, Hr6, Hs5, Hs4, Hs3, Hp5, Hp4, He3. reflexivity.
Qed.

Lemma main_loop_succeeds n (w : World R D) :
  wsg_world_wf w -> succeeds (main_loop p n) w (fun _ w' => wsg_world_wf w').
Proof.
  intros Hwf. unfold main_loop.
  apply (succeeds_for_each wsg_world_wf); [|exact Hwf].
  intros i w1 _ Hwf1. eapply succeeds_weaken; [now apply iteration_succeeds|].
  now intros ? w2 [Hwf2 _].
Qed.
End WolfSheepGrassTermination.

(** ** Counting the iterations of the main loop *)

Lemma iterations_main_loop dt l : iterations (concat (iteration_trace dt <$> l)) = l.
Proof.
  induction l as [|i l IH]; [reflexivity|].
  cbn [fmap list_fmap concat]. unfold iterations in *.
  rewrite omap_app, IH. reflexivity.
Qed.

Lemma solver_calls_main_loop dt l :
  solver_calls (concat (iteration_trace dt <$> l)) = length l.
Proof.
  induction l as [|i l IH]; [reflexivity|].
  cbn [fmap list_fmap concat length]. unfold solver_calls in *.
  rewrite omap_app, length_app, IH. reflexivity.
Qed.

(** X19. With an agent model whose step returns and leaves the model well
    formed, and a diffuser that returns and keeps the sizes of its fields,
    the main loop of the wolf-sheep-grass notebook over n iterations returns
    after the iterations 0, ..., n - 1 in a well-formed state, having called
    the diffuser once in every iteration. *)
Theorem main_loop_terminates :
  forall R D (pop : WolfSheepGrass.Population R) (sim : WolfSheepGrass.Simulation D)
         p n (w : WolfSheepGrass.World R D),
    population_total pop ->
    diffuser_total sim ->
    wsg_world_wf w ->
    exists w',
      WolfSheepGrass.main_loop p n w
        = (concat (iteration_trace (WolfSheepGrass.dt p) <$> range n), Returns tt w') /\
      wsg_world_wf w' /\
      iterations (concat (iteration_trace (WolfSheepGrass.dt p) <$> range n)) = range n /\
      length (range n) = Z.to_nat n /\
      solver_calls (concat (iteration_trace (WolfSheepGrass.dt p) <$> range n)) = Z.to_nat n.
Proof.
  intros R D pop sim p n w Hpop Hdiff Hwf.
  destruct (succeeds_returned _ w _ _ (main_loop_succeeds p Hpop Hdiff n w Hwf)
              (@emits_main_loop R D pop sim p n)) as ([] & w' & Hrun & Hwf').
  exists w'. split; [exact Hrun|]. split; [exact Hwf'|].
  split; [apply iterations_main_loop|]. split; [apply length_range|].
  now rewrite solver_calls_main_loop, length_range.
Qed.

Lemma meadow_world_is_wf : wsg_world_wf meadow_world.
Proof. split; [exact meadow_is_wf|]. repeat split. Qed.

Lemma idle_population_total : population_total idle_population.
Proof. intros m Hm. exists m. auto. Qed.

Lemma idle_diffuser_total : diffuser_total idle_diffuser.
Proof. intros dt g. exists g. auto. Qed.

Lemma main_loop_terminates_witness :
  exists w',
    @WolfSheepGrass.main_loop unit unit idle_population idle_diffuser meadow_params 3 meadow_world
      = (concat (iteration_trace (WolfSheepGrass.dt meadow_params) <$> range 3), Returns tt w') /\
    wsg_world_wf w' /\
    iterations (concat (iteration_trace (WolfSheepGrass.dt meadow_params) <$> range 3)) = range 3 /\
    length (range 3) = Z.to_nat 3 /\
    solver_calls (concat (iteration_trace (WolfSheepGrass.dt meadow_params) <$> range 3))
      = Z.to_nat 3.
Proof.
  apply (main_loop_terminates unit unit idle_population idle_diffuser meadow_params 3
           meadow_world).
  - exact idle_population_total.
  - exact idle_diffuser_total.
  - exact meadow_world_is_wf.
Defined.

(** ** The creep coefficient follows the grass *)

Lemma creep_of_grass_code (p : WolfSheepGrass.Params) l (creep : list float) :
  forall cs : list (list nat),
  zip_with (fun c (b : bool) => if b then WolfSheepGrass.slow_creep p else c)
    (zip_with (fun c (b : bool) => if b then WolfSheepGrass.fast_creep p else c) creep
       ((fun x => (x =? 1)%float) <$> ((fun cell => grass_code (cell_grass l cell)) <$> cs)))
    ((fun x => (x =? 2)%float) <$> ((fun cell => grass_code (cell_grass l cell)) <$> cs))
  = zip_with (cell_creep p l) creep cs.
Proof.
  induction creep as [|c creep IH]; intros [|cell cs]; try reflexivity.
  cbn [fmap list_fmap zip_with]. rewrite <- IH. f_equal.
  unfold cell_creep. destruct (cell_grass l cell) as [[]|]; reflexivity.
Qed.

(** X20. The three statements with which both couplings set the creep
    coefficient from the grass cover return on a well-formed world and write,
    for every cell, the slow coefficient when [generate_grass_map] shows
    fully grown grass, the fast one when it shows damaged grass, and leave
    the coefficient of a cell without grass patch as it was; the agent model
    and the other fields are not changed. *)
Theorem creep_follows_grass :
  forall R D p (w : WolfSheepGrass.World R D),
    wsg_world_wf w ->
    exists gm w1 w2,
      zoom WolfSheepGrass.ws WolfSheepGrass.set_ws WolfSheepGrass.generate_grass_map w
        = ([ev_aggregate], Returns gm w) /\
      WolfSheepGrass.assign_creep gm 1 (WolfSheepGrass.fast_creep p) w
        = ([ev_write_forcing], Returns tt w1) /\
      WolfSheepGrass.assign_creep gm 2 (WolfSheepGrass.slow_creep p) w1
        = ([ev_write_forcing], Returns tt w2) /\
      WolfSheepGrass.creep_coef (WolfSheepGrass.rmg w2)
        = zip_with (cell_creep p (WolfSheepGrass.agents (WolfSheepGrass.ws w)))
            (WolfSheepGrass.creep_coef (WolfSheepGrass.rmg w))
            (concat (Mesa.cells (WolfSheepGrass.grid (WolfSheepGrass.ws w)))) /\
      WolfSheepGrass.ws w2 = WolfSheepGrass.ws w /\
      WolfSheepGrass.elev (WolfSheepGrass.rmg w2) = WolfSheepGrass.elev (WolfSheepGrass.rmg w) /\
      WolfSheepGrass.soil w2 = WolfSheepGrass.soil w /\
      WolfSheepGrass.prior_elev w2 = WolfSheepGrass.prior_elev w.
Proof.
  intros R D p w Hwf. pose proof Hwf as (Hm & He & Hc & Hs & Hp).
  pose proof Hm as (Hw & Hh & Hgrid & Hrefs).
  destruct (succeeds_returned _ _ _ _ (generate_grass_map_filled _ Hgrid Hrefs)
              emits_generate_grass_map) as (gm & m' & Hrun & -> & Hsh & Hd).
  assert (Hlen : length (data gm)
                 = length (WolfSheepGrass.creep_coef (WolfSheepGrass.rmg w))).
  { rewrite Hd, length_fmap, (length_cells _ Hgrid). congruence. }
  destruct (succeeds_returned _ _ _ _
              (assign_creep_succeeds w gm 1 (WolfSheepGrass.fast_creep p) Hwf Hlen)
              (@emits_assign_creep R D gm 1 (WolfSheepGrass.fast_creep p)))
    as ([] & w1 & Hrun1 & Ew1).
  assert (Hwf1 : wsg_world_wf w1).
  { subst w1. apply wsg_world_wf_creep; [exact Hwf|].
    rewrite length_zip_with_l_eq; [reflexivity|]. rewrite length_fmap. congruence. }
  assert (Hlen1 : length (data gm)
                  = length (WolfSheepGrass.creep_coef (WolfSheepGrass.rmg w1))).
  { subst w1. cbn [WolfSheepGrass.rmg WolfSheepGrass.set_rmg WolfSheepGrass.creep_coef
                   WolfSheepGrass.set_creep_coef].
    rewrite length_zip_with_l_eq; [exact Hlen|]. rewrite length_fmap. congruence. }
  destruct (succeeds_returned _ _ _ _
              (assign_creep_succeeds w1 gm 2 (WolfSheepGrass.slow_creep p) Hwf1 Hlen1)
              (@emits_assign_creep R D gm 2 (WolfSheepGrass.slow_creep p)))
    as ([] & w2 & Hrun2 & Ew2).
  exists gm, w1, w2. split.
  { unfold zoom. rewrite Hrun. now rewrite set_ws_same. }
  split; [exact Hrun1|]. split; [exact Hrun2|].
  subst w2 w1. cbn. split; [|auto].
  rewrite Hd. apply creep_of_grass_code.
Qed.

Lemma creep_follows_grass_witness :
  exists gm w1 w2,
    zoom WolfSheepGrass.ws WolfSheepGrass.set_ws WolfSheepGrass.generate_grass_map meadow_world
      = ([ev_aggregate], Returns gm meadow_world) /\
    @WolfSheepGrass.assign_creep unit unit gm 1 (WolfSheepGrass.fast_creep meadow_params)
      meadow_world = ([ev_write_forcing], Returns tt w1) /\
    WolfSheepGrass.assign_creep gm 2 (WolfSheepGrass.slow_creep meadow_params) w1
      = ([ev_write_forcing], Returns tt w2) /\
    WolfSheepGrass.creep_coef (WolfSheepGrass.rmg w2)
      = zip_with (cell_creep meadow_params (WolfSheepGrass.agents (WolfSheepGrass.ws meadow_world)))
          (WolfSheepGrass.creep_coef (WolfSheepGrass.rmg meadow_world))
          (concat (Mesa.cells (WolfSheepGrass.grid (WolfSheepGrass.ws meadow_world)))) /\
    WolfSheepGrass.ws w2 = WolfSheepGrass.ws meadow_world /\
    WolfSheepGrass.elev (WolfSheepGrass.rmg w2)
      = WolfSheepGrass.elev (WolfSheepGrass.rmg meadow_world) /\
    WolfSheepGrass.soil w2 = WolfSheepGrass.soil meadow_world /\
    WolfSheepGrass.prior_elev w2 = WolfSheepGrass.prior_elev meadow_world.
Proof.
  apply (creep_follows_grass unit unit meadow_params meadow_world).
  exact meadow_world_is_wf.
Defined.

(** X21. An iteration of the main loop returns with the elevations it
    started from saved in [prior_elev], and with the soil depth of every node
    increased by the change that the diffuser made to the elevation of the
    node. *)
Theorem soil_follows_elevation :
  forall R D (pop : WolfSheepGrass.Population R) (sim : WolfSheepGrass.Simulation D)
         p i (w : WolfSheepGrass.World R D),
    population_total pop ->
    diffuser_total sim ->
    wsg_world_wf w ->
    exists w',
      WolfSheepGrass.iteration p i w
        = (iteration_trace (WolfSheepGrass.dt p) i, Returns tt w') /\
      wsg_world_wf w' /\
      WolfSheepGrass.prior_elev w' = WolfSheepGrass.elev (WolfSheepGrass.rmg w) /\
      WolfSheepGrass.soil w'
        = zip_with PrimFloat.add (WolfSheepGrass.soil w)
            (zip_with PrimFloat.sub (WolfSheepGrass.elev (WolfSheepGrass.rmg w'))
               (WolfSheepGrass.elev (WolfSheepGrass.rmg w))).
Proof.
  intros R D pop sim p i w Hpop Hdiff Hwf.
  destruct (succeeds_returned _ w _ _ (iteration_succeeds p Hpop Hdiff i w Hwf)
              (@emits_iteration R D pop sim p i)) as ([] & w' & Hrun & Hwf' & Hp & Hs).
  eauto.
Qed.

Lemma soil_follows_elevation_witness :
  exists w',
    @WolfSheepGrass.iteration unit unit idle_population idle_diffuser meadow_params 0
      meadow_world
      = (iteration_trace (WolfSheepGrass.dt meadow_params) 0, Returns tt w') /\
    wsg_world_wf w' /\
    WolfSheepGrass.prior_elev w' = WolfSheepGrass.elev (WolfSheepGrass.rmg meadow_world) /\
    WolfSheepGrass.soil w'
      = zip_with PrimFloat.add (WolfSheepGrass.soil meadow_world)
          (zip_with PrimFloat.sub (WolfSheepGrass.elev (WolfSheepGrass.rmg w'))
             (WolfSheepGrass.elev (WolfSheepGrass.rmg meadow_world))).
Proof.
  apply (soil_follows_elevation unit unit idle_population idle_diffuser meadow_params 0
           meadow_world).
  - exact idle_population_total.
  - exact idle_diffuser_total.
  - exact meadow_world_is_wf.
Defined.

(** ** What the groundwater loop leaves alone *)

Lemma same_farmers_refl m : same_farmers m m.
Proof.
  repeat split. apply Forall2_same_length_lookup_2; [reflexivity|].
  intros i a a' H1 H2. assert (a' = a) as -> by congruence. auto.
Qed.

Lemma same_farmers_set_pumping m s b r :
  same_farmers m s -> same_farmers m (set_agents (alter (set_pumping b) r) s).
Proof.
  intros (HN & Hg & Hs & Ha). split; [exact HN|]. split; [exact Hg|]. split; [exact Hs|].
  cbn [agents set_agents]. apply Forall2_alter_r; [exact Ha|].
  intros a a' _ _ H. exact H.
Qed.

Section GroundwaterFrame.
Import Groundwater.
Context {G : Type} {Hsim : Simulation G}.
Variable p : Params.

Lemma update_depth_keeps (J : FarmerModel -> Prop) :
  (forall a m, J m -> J (set_depth_to_water_table a m)) ->
  invariant (fun w : World G => J (farmer_model w)) update_depth.
Proof.
  intros Hd w HJ. unfold update_depth, final_state. run.
  destruct (np_binop _ _ _) as [v|e]; run; [|exact HJ].
  destruct (np_assign _ v) as [v'|e]; run; [|exact HJ].
  now apply Hd.
Qed.

Lemma year_keeps (J : FarmerModel -> Prop) order i :
  (forall a m, J m -> J (set_depth_to_water_table a m)) ->
  (forall a m, J m -> J (set_wt_depth_2d a m)) ->
  (forall b r m, J m -> J (set_agents (alter (set_pumping b) r) m)) ->
  invariant (fun w : World G => J (farmer_model w)) (year p order i).
Proof.
  intros Hd Hw Ha. unfold year.
  apply invariant_bind; [apply invariant_read_only, read_only_emit|intros _].
  apply invariant_bind; [apply (invariant_on_sim J)|intros _].
  apply invariant_bind; [apply (update_depth_keeps J Hd)|intros _].
  apply invariant_bind.
  { apply (invariant_on_farmer_model J). apply FarmerModel_step_invariant; auto. }
  intros _. apply invariant_bind.
  { apply (invariant_on_farmer_model J).
    apply invariant_read_only, read_only_get_well_count. }
  intros counts.
  apply invariant_bind; [apply invariant_read_only, read_only_get|intros w].
  apply invariant_bind; [apply invariant_read_only, read_only_lift|intros _].
  apply (write_recharge_farmer_model p J).
Qed.

Lemma coupling_loop_keeps_farmers m0 orders n :
  invariant (fun w : World G => same_farmers m0 (farmer_model w)) (coupling_loop p orders n).
Proof.
  apply invariant_for_each. intros i.
  apply (year_keeps (same_farmers m0)).
  - intros a m H. exact H.
  - intros a m H. exact H.
  - intros b r m H. now apply same_farmers_set_pumping.
Qed.
End GroundwaterFrame.

(** X22. Whatever the groundwater loop does, and whether it returns or
    raises, it leaves the farmers in place: the number of agents, the grid
    and the schedule are unchanged, and every agent keeps its identifier,
    its position and its well depth.  Only the [pumping] flags move. *)
Theorem loop_keeps_the_farmers :
  forall G (sim : Groundwater.Simulation G) p orders n (w : Groundwater.World G),
    let m := Groundwater.farmer_model w in
    let m' := Groundwater.farmer_model (final_state (Groundwater.coupling_loop p orders n w)) in
    num_agents m' = num_agents m /\
    grid m' = grid m /\
    schedule m' = schedule m /\
    length (agents m') = length (agents m) /\
    forall r a a',
      agents m !! r = Some a -> agents m' !! r = Some a' ->
      unique_id a' = unique_id a /\ pos a' = pos a /\ well_depth a' = well_depth a.
Proof.
  intros G sim p orders n w m m'.
  destruct (coupling_loop_keeps_farmers p m orders n w (same_farmers_refl m))
    as (HN & Hg & Hs & Ha).
  fold m' in HN, Hg, Hs, Ha.
  split; [exact HN|]. split; [exact Hg|]. split; [exact Hs|].
  split; [symmetry; exact (Forall2_length _ _ _ Ha)|].
  intros r a a' H1 H2. exact (Forall2_lookup_lr _ _ _ _ _ _ Ha H1 H2).
Qed.
